(** * picamera2 contrib: ePTZ crop geometry and the FPV overlay helper

    A shallow embedding of

    - the ePTZ crop calculators of [examples/eptz_recording.py],
      [examples/eptz_simple.py], [examples/fpv_eptz_demo.py],
      [examples/eptz_tracking.py] and [examples/eptz_demo.py];
    - [picamera2_contrib/overlay_helper.py] ([OverlayElement],
      [OverlayHelper], [FPVOverlay]);
    - the callers of the calculators that drive the camera: the class
      [ePTZController] of [examples/eptz_demo.py] and [smooth_transition]
      of [examples/eptz_recording.py].

    The crop calculators mix Python [int] and [float] arithmetic.  Python
    floats are IEEE 754 binary64 numbers; a finite float is modelled by
    the rational number it denotes, and every float operation is the exact
    rational operation followed by rounding to nearest, ties to even. *)

From Stdlib Require Import ZArith QArith Qround Qabs Qpower Lia Lra Psatz.
From Stdlib Require Import PrimFloat SpecFloat FloatOps.
From stdpp Require Import gmap strings list pretty.

(** ** Binary64 rounding on rationals *)

Module Binary64.
Local Open Scope Q_scope.

Definition prec : Z := 53.
(** exponent of the least positive (subnormal) number, 2^-1074 *)
Definition emin : Z := -1074.
(** every finite number is below 2^1024 in magnitude *)
Definition emax : Z := 1024.

Definition pow2 (e : Z) : Q := 2 ^ e.

(** [ilog2 q] is the integer part of the binary logarithm of [q > 0]. *)
Definition ilog2 (q : Q) : Z :=
  let k := (Z.log2 (Qnum q) - Z.log2 (Zpos (Qden q)))%Z in
  if Qle_bool (pow2 k) q then k else (k - 1)%Z.

(** exponent of the unit in the last place of the format at [q] *)
Definition cexp (q : Q) : Z := Z.max (ilog2 (Qabs q) - (prec - 1)) emin.

(** nearest integer, ties to even *)
Definition rne (r : Q) : Z :=
  let f := Qfloor r in
  match Qcompare (r - inject_Z f) (1 # 2) with
  | Lt => f
  | Gt => (f + 1)%Z
  | Eq => if Z.even f then f else (f + 1)%Z
  end.

(** rounding to the format, exponent unbounded above *)
Definition rnd (q : Q) : Q :=
  inject_Z (rne (q / pow2 (cexp q))) * pow2 (cexp q).

(** the rounded magnitude is beyond the largest finite number *)
Definition overflows (r : Q) : bool := Qle_bool (pow2 emax) (Qabs r).

(** the value of a finite hardware float, to compare [rnd] with the
    arithmetic of the machine *)
Definition of_float (f : float) : option Q :=
  match Prim2SF f with
  | S754_zero _ => Some 0
  | S754_finite s m e =>
      Some ((if s then - inject_Z (Z.pos m) else inject_Z (Z.pos m)) * pow2 e)
  | S754_infinity _ | S754_nan => None
  end.

(** the float [f] is the rounding of the exact value [q] *)
Definition rounds_to (q : Q) (f : float) : bool :=
  match of_float f with
  | Some r => Qeq_bool (rnd q) r && negb (overflows (rnd q))
  | None => overflows (rnd q)
  end.

(** [q] is (the value of) a finite binary64 number *)
Definition is_binary64 (q : Q) : bool :=
  Qeq_bool (rnd q) q && negb (overflows q).

End Binary64.

(** ** Python arithmetic used by the examples *)

Module Py.
Import Binary64.

Inductive exn : Type := ZeroDivisionError | OverflowError.

Inductive result (A : Type) : Type :=
| Ok (a : A)
| Raise (e : exn).
Arguments Ok {A} a.
Arguments Raise {A} e.

Definition bind {A B : Type} (r : result A) (k : A -> result B) : result B :=
  match r with
  | Ok a => k a
  | Raise e => Raise e
  end.

Notation "x <- r ;; k" := (bind r (fun x => k))
  (at level 100, r at next level, right associativity).

(** A float is finite (its value is a binary64 rational) or an infinity.
    No operation of the examples yields a NaN from finite operands. *)
Inductive pyfloat : Type :=
| Finite (q : Q)
| Infinity (negative : bool).

Definition round_to_float (q : Q) : pyfloat :=
  let r := rnd q in
  if overflows r then Infinity (negb (Qle_bool 0 r)) else Finite r.

(** [a / b] on two [int]s: the correctly rounded quotient *)
Definition int_truediv (a b : Z) : result Q :=
  if (b =? 0)%Z then Raise ZeroDivisionError
  else match round_to_float (inject_Z a / inject_Z b) with
       | Finite r => Ok r
       | Infinity _ => Raise OverflowError
       end.

(** the implicit conversion of an [int] operand of a float operation *)
Definition float_of_int (n : Z) : result Q :=
  match round_to_float (inject_Z n) with
  | Finite r => Ok r
  | Infinity _ => Raise OverflowError
  end.

Definition float_truediv (x y : Q) : result pyfloat :=
  if Qeq_bool y 0 then Raise ZeroDivisionError
  else Ok (round_to_float (x / y)).

Definition float_mul (x y : Q) : pyfloat := round_to_float (x * y).

(** [n / y] with [n] an [int] and [y] a [float] *)
Definition int_div_float (n : Z) (y : Q) : result pyfloat :=
  x <- float_of_int n ;; float_truediv x y.

(** [n * y] with [n] an [int] and [y] a [float] *)
Definition int_mul_float (n : Z) (y : Q) : result pyfloat :=
  x <- float_of_int n ;; Ok (float_mul x y).

(** the integer part of a rational, toward zero *)
Definition trunc (q : Q) : Z := Z.quot (Qnum q) (Z.pos (Qden q)).

(** [int(f)]: truncation toward zero; an infinity raises *)
Definition int_of_float (f : pyfloat) : result Z :=
  match f with
  | Finite q => Ok (trunc q)
  | Infinity _ => Raise OverflowError
  end.

(** [int] of the float nearest to the exact value [q] *)
Definition int_round (q : Q) : result Z := int_of_float (round_to_float q).

(** [x > y] on finite floats *)
Definition float_gt (x y : Q) : bool := negb (Qle_bool x y).

(** [(n // 2) * 2] *)
Definition floor_even (n : Z) : Z := (n / 2 * 2)%Z.

End Py.

(** ** The crop calculators

    Sizes are [int]s.  The zoom factor and the pan fractions are floats, as
    the docstrings and the defaults say; they are taken finite, so every
    one has a rational value. *)

Definition crop : Type := Z * Z * Z * Z.

Module eptz_recording.
Import Py.

Definition calculate_crop (sensor_size output_size : Z * Z)
    (zoom pan_x pan_y : Q) : result crop :=
  let '(sensor_width, sensor_height) := sensor_size in
  let '(output_width, output_height) := output_size in
  output_aspect <- int_truediv output_width output_height ;;
  crop_width <- bind (int_div_float sensor_width zoom) int_of_float ;;
  crop_height <- bind (int_div_float sensor_height zoom) int_of_float ;;
  crop_aspect <- int_truediv crop_width crop_height ;;
  size <-
    (if float_gt crop_aspect output_aspect then
       w <- bind (int_mul_float crop_height output_aspect) int_of_float ;;
       Ok (w, crop_height)
     else
       h <- bind (int_div_float crop_width output_aspect) int_of_float ;;
       Ok (crop_width, h)) ;;
  let '(crop_width, crop_height) := size in
  x <- bind (int_mul_float (sensor_width - crop_width) pan_x) int_of_float ;;
  y <- bind (int_mul_float (sensor_height - crop_height) pan_y) int_of_float ;;
  let x := floor_even x in
  let y := floor_even y in
  let crop_width := floor_even crop_width in
  let crop_height := floor_even crop_height in
  let x := Z.max 0 (Z.min x (sensor_width - crop_width)) in
  let y := Z.max 0 (Z.min y (sensor_height - crop_height)) in
  Ok (x, y, crop_width, crop_height).

End eptz_recording.

Module fpv_eptz_demo.
Import Py.

Definition calculate_crop (sensor_width sensor_height output_width output_height : Z)
    (zoom_factor pan_x pan_y : Q) : result crop :=
  output_aspect <- int_truediv output_width output_height ;;
  sensor_aspect <- int_truediv sensor_width sensor_height ;;
  crop_width <- bind (int_div_float sensor_width zoom_factor) int_of_float ;;
  crop_height <- bind (int_div_float sensor_height zoom_factor) int_of_float ;;
  size <-
    (if float_gt output_aspect sensor_aspect then
       h <- bind (int_div_float crop_width output_aspect) int_of_float ;;
       Ok (crop_width, h)
     else
       w <- bind (int_mul_float crop_height output_aspect) int_of_float ;;
       Ok (w, crop_height)) ;;
  let '(crop_width, crop_height) := size in
  let max_x := (sensor_width - crop_width)%Z in
  let max_y := (sensor_height - crop_height)%Z in
  x <- bind (int_mul_float max_x pan_x) int_of_float ;;
  y <- bind (int_mul_float max_y pan_y) int_of_float ;;
  let x := floor_even x in
  let y := floor_even y in
  let crop_width := floor_even crop_width in
  let crop_height := floor_even crop_height in
  Ok (x, y, crop_width, crop_height).

End fpv_eptz_demo.

Module eptz_simple.
Import Py.

(** The module-level names [set_crop] reads.  The script binds the sensor
    size from the camera properties and the output size to 640 x 480. *)
Record globals : Type := {
  sensor_width : Z;
  sensor_height : Z;
  output_width : Z;
  output_height : Z
}.

(** What [set_crop] acts on: the controls handed to the camera and the
    lines printed. *)
Inductive printed : Type :=
| CropLine (zoom_factor pan_x pan_y : Q) (x y crop_width crop_height : Z).

Record world : Type := {
  controls : gmap string crop;
  stdout : list printed
}.

(** lines 51-77: the crop tuple *)
Definition set_crop_tuple (g : globals) (zoom_factor pan_x pan_y : Q) : result crop :=
  crop_width <- bind (int_div_float (sensor_width g) zoom_factor) int_of_float ;;
  crop_height <- bind (int_div_float (sensor_height g) zoom_factor) int_of_float ;;
  output_aspect <- int_truediv (output_width g) (output_height g) ;;
  crop_aspect <- int_truediv crop_width crop_height ;;
  size <-
    (if float_gt crop_aspect output_aspect then
       w <- bind (int_mul_float crop_height output_aspect) int_of_float ;;
       Ok (w, crop_height)
     else
       h <- bind (int_div_float crop_width output_aspect) int_of_float ;;
       Ok (crop_width, h)) ;;
  let '(crop_width, crop_height) := size in
  x <- bind (int_mul_float (sensor_width g - crop_width) pan_x) int_of_float ;;
  y <- bind (int_mul_float (sensor_height g - crop_height) pan_y) int_of_float ;;
  let x := floor_even x in
  let y := floor_even y in
  let crop_width := floor_even crop_width in
  let crop_height := floor_even crop_height in
  Ok (x, y, crop_width, crop_height).

(** the whole function: the tuple is handed to the camera, printed and
    returned; an exception leaves the world as it was *)
Definition set_crop (g : globals) (zoom_factor pan_x pan_y : Q) (w : world)
    : result crop * world :=
  match set_crop_tuple g zoom_factor pan_x pan_y with
  | Ok (x, y, crop_width, crop_height) =>
      (Ok (x, y, crop_width, crop_height),
       {| controls := <["ScalerCrop" := (x, y, crop_width, crop_height)]> (controls w);
          stdout := stdout w ++ [CropLine zoom_factor pan_x pan_y x y crop_width crop_height] |})
  | Raise e => (Raise e, w)
  end.

End eptz_simple.

Module eptz_tracking.
Import Py.

(** the attributes of an [ObjectTracker] that [calculate_crop] reads *)
Record ObjectTracker : Type := {
  output_size : Z * Z;
  sensor_width : Z;
  sensor_height : Z
}.

Definition calculate_crop (self : ObjectTracker) (zoom pan_x pan_y : Q) : result crop :=
  let '(output_width, output_height) := output_size self in
  output_aspect <- int_truediv output_width output_height ;;
  crop_width <- bind (int_div_float (sensor_width self) zoom) int_of_float ;;
  crop_height <- bind (int_div_float (sensor_height self) zoom) int_of_float ;;
  crop_aspect <- int_truediv crop_width crop_height ;;
  size <-
    (if float_gt crop_aspect output_aspect then
       w <- bind (int_mul_float crop_height output_aspect) int_of_float ;;
       Ok (w, crop_height)
     else
       h <- bind (int_div_float crop_width output_aspect) int_of_float ;;
       Ok (crop_width, h)) ;;
  let '(crop_width, crop_height) := size in
  x <- bind (int_mul_float (sensor_width self - crop_width) pan_x) int_of_float ;;
  y <- bind (int_mul_float (sensor_height self - crop_height) pan_y) int_of_float ;;
  let x := floor_even x in
  let y := floor_even y in
  let crop_width := floor_even crop_width in
  let crop_height := floor_even crop_height in
  let x := Z.max 0 (Z.min x (sensor_width self - crop_width)) in
  let y := Z.max 0 (Z.min y (sensor_height self - crop_height)) in
  Ok (x, y, crop_width, crop_height).

End eptz_tracking.

Module eptz_demo.
Import Py.

(** the attributes of an [ePTZController] that [calculate_crop] reads *)
Record ePTZController : Type := {
  output_size : Z * Z;
  sensor_width : Z;
  sensor_height : Z;
  zoom_factor : Q;
  pan_x : Q;
  pan_y : Q
}.

Definition calculate_crop (self : ePTZController) : result crop :=
  let '(output_width, output_height) := output_size self in
  output_aspect <- int_truediv output_width output_height ;;
  sensor_aspect <- int_truediv (sensor_width self) (sensor_height self) ;;
  crop_width <- bind (int_div_float (sensor_width self) (zoom_factor self)) int_of_float ;;
  crop_height <- bind (int_div_float (sensor_height self) (zoom_factor self)) int_of_float ;;
  size <-
    (if float_gt output_aspect sensor_aspect then
       h <- bind (int_div_float crop_width output_aspect) int_of_float ;;
       Ok (crop_width, h)
     else
       w <- bind (int_mul_float crop_height output_aspect) int_of_float ;;
       Ok (w, crop_height)) ;;
  let '(crop_width, crop_height) := size in
  let crop_width := Z.min crop_width (sensor_width self) in
  let crop_height := Z.min crop_height (sensor_height self) in
  let max_x := (sensor_width self - crop_width)%Z in
  let max_y := (sensor_height self - crop_height)%Z in
  x <- bind (int_mul_float max_x (pan_x self)) int_of_float ;;
  y <- bind (int_mul_float max_y (pan_y self)) int_of_float ;;
  let x := floor_even x in
  let y := floor_even y in
  let crop_width := floor_even crop_width in
  let crop_height := floor_even crop_height in
  let x := Z.max 0 (Z.min x (sensor_width self - crop_width)) in
  let y := Z.max 0 (Z.min y (sensor_height self - crop_height)) in
  Ok (x, y, crop_width, crop_height).

End eptz_demo.

(** The stages the five calculators share, named for the statements below:
    scaling a sensor dimension by the zoom, fitting the crop to the output
    aspect ratio (by the crop's aspect ratio in [eptz_recording],
    [eptz_simple] and [eptz_tracking], by the sensor's in [fpv_eptz_demo]
    and [eptz_demo]), and placing the crop by a pan fraction. *)
Module crop_stages.
Import Py.

(** [int(n / zoom)] *)
Definition scaled (n : Z) (zoom : Q) : result Z :=
  bind (int_div_float n zoom) int_of_float.

(** [int(d * pan)] *)
Definition position (d : Z) (pan : Q) : result Z :=
  bind (int_mul_float d pan) int_of_float.

Definition fit_crop_aspect (output_width output_height crop_width crop_height : Z)
    : result (Z * Z) :=
  output_aspect <- int_truediv output_width output_height ;;
  crop_aspect <- int_truediv crop_width crop_height ;;
  if float_gt crop_aspect output_aspect then
    w <- bind (int_mul_float crop_height output_aspect) int_of_float ;;
    Ok (w, crop_height)
  else
    h <- bind (int_div_float crop_width output_aspect) int_of_float ;;
    Ok (crop_width, h).

Definition fit_sensor_aspect
    (sensor_width sensor_height output_width output_height crop_width crop_height : Z)
    : result (Z * Z) :=
  output_aspect <- int_truediv output_width output_height ;;
  sensor_aspect <- int_truediv sensor_width sensor_height ;;
  if float_gt output_aspect sensor_aspect then
    h <- bind (int_div_float crop_width output_aspect) int_of_float ;;
    Ok (crop_width, h)
  else
    w <- bind (int_mul_float crop_height output_aspect) int_of_float ;;
    Ok (w, crop_height).

(** rounding down to even values *)
Definition aligned (x y crop_width crop_height : Z) : crop :=
  (floor_even x, floor_even y, floor_even crop_width, floor_even crop_height).

(** the final clamp of [eptz_recording], [eptz_tracking] and [eptz_demo] *)
Definition clamped (sensor_width sensor_height : Z) (c : crop) : crop :=
  let '(x, y, crop_width, crop_height) := c in
  (Z.max 0 (Z.min x (sensor_width - crop_width)),
   Z.max 0 (Z.min y (sensor_height - crop_height)),
   crop_width, crop_height).

(** the rectangle lies within the sensor *)
Definition within_sensor (sensor_width sensor_height : Z) (c : crop) : Prop :=
  let '(x, y, crop_width, crop_height) := c in
  (0 <= x /\ 0 <= y /\ x + crop_width <= sensor_width
   /\ y + crop_height <= sensor_height)%Z.

Definition all_even (c : crop) : Prop :=
  let '(x, y, crop_width, crop_height) := c in
  Z.even x = true /\ Z.even y = true
  /\ Z.even crop_width = true /\ Z.even crop_height = true.

End crop_stages.

(** ** The overlay helper *)

(** An RGBA colour as the callers pass it: a tuple of Python [int]s. *)
Definition color : Type := Z * Z * Z * Z.

(** A pixel of the canvas: four [uint8] components. *)
Definition pixel : Type := Z * Z * Z * Z.

(** The canvas: a [height x width x 4] array of [uint8], as rows of pixels. *)
Definition ndarray : Type := list (list pixel).

(** Arrays are objects: the helper holds a reference, and so does whoever
    called [get_array]. *)
Definition loc : Type := positive.
Definition heap : Type := gmap loc ndarray.

Module numpy.
Local Open Scope Z_scope.

(** Storing a Python [int] from 0 to 255, which is what an RGBA component
    is, into a [uint8] array keeps it as it is.  Outside that range the
    result depends on the NumPy at hand (NumPy 1.x keeps the low eight
    bits of a value that fits a C [long], NumPy 2 raises [OverflowError]):
    what is said of a colour below is said of colours with components from
    0 to 255, for which [uint8 v = v]. *)
Definition uint8 (v : Z) : Z := v mod 256.

Definition as_pixel (c : color) : pixel :=
  let '(r, g, b, a) := c in (uint8 r, uint8 g, uint8 b, uint8 a).

(** the bound [i] of a slice on an axis of length [n]: negative bounds count
    from the end, and every bound is clipped to the axis *)
Definition slice_bound (n i : Z) : Z :=
  if i <? 0 then Z.max 0 (i + n) else Z.min i n.

(** index [i] is selected by [start:stop] on an axis of length [n] *)
Definition in_slice (n : nat) (start stop : Z) (i : nat) : bool :=
  (slice_bound (Z.of_nat n) start <=? Z.of_nat i)
  && (Z.of_nat i <? slice_bound (Z.of_nat n) stop).

(** [a[y1:y2, x1:x2] = px] *)
Definition assign_region (a : ndarray) (y1 y2 x1 x2 : Z) (px : pixel) : ndarray :=
  imap (fun i row =>
          if in_slice (length a) y1 y2 i
          then imap (fun j p => if in_slice (length row) x1 x2 j then px else p) row
          else row) a.

(** [a[:] = px] *)
Definition assign_all (a : ndarray) (px : pixel) : ndarray :=
  map (map (fun _ => px)) a.

(** [np.zeros((height, width, 4), dtype=np.uint8)] *)
Definition zeros (height width : nat) : ndarray :=
  replicate height (replicate width (0, 0, 0, 0)).

(** the lengths of the rows: with the number of rows, the shape *)
Definition shape (a : ndarray) : list nat := map length a.

Definition is_uint8 (p : pixel) : Prop :=
  let '(r, g, b, a) := p in
  0 <= r < 256 /\ 0 <= g < 256 /\ 0 <= b < 256 /\ 0 <= a < 256.

Definition dtype_uint8 (a : ndarray) : Prop := Forall (Forall is_uint8) a.

End numpy.

Module OverlayElement.

Record t : Type := mk {
  name : string;
  x : Z;
  y : Z;
  width : Z;
  height : Z;
  visible : bool
}.

(** [OverlayElement.__init__]: a new element is visible *)
Definition init (name : string) (x y width height : Z) : t :=
  mk name x y width height true.

Definition get_bounds (self : t) : Z * Z * Z * Z :=
  (x self, y self, width self, height self).

End OverlayElement.

Module OverlayHelper.
Import numpy.
Local Open Scope Z_scope.

Record t : Type := mk {
  width : Z;
  height : Z;
  background_color : pixel;
  overlay : loc;
  elements : gmap string OverlayElement.t;
  dirty_regions : list (Z * Z * Z * Z);
  _update_count : Z
}.

(** A method runs on the helper and on the heap its canvas lives in. *)
Definition state : Type := t * heap.

(** the canvas of the helper, read through its reference *)
Definition canvas (s : state) : option ndarray := s.2 !! overlay s.1.

(** [OverlayHelper.__init__]; [np.zeros] rejects a negative dimension *)
Definition init (h : heap) (width height : Z) (background_color : color)
    : option state :=
  if (width <? 0) || (height <? 0) then None
  else
    let bg := as_pixel background_color in
    let l := fresh (dom h) in
    let a := assign_all (zeros (Z.to_nat height) (Z.to_nat width)) bg in
    Some (mk width height bg l ∅ [] 0, <[l := a]> h).

Definition _clear_region (s : state) (x y width height : Z) : state :=
  let '(self, h) := s in
  let x1 := Z.max 0 x in
  let y1 := Z.max 0 y in
  let x2 := Z.min (OverlayHelper.width self) (x + width) in
  let y2 := Z.min (OverlayHelper.height self) (y + height) in
  if (x2 >? x1) && (y2 >? y1)
  then (self, alter (fun a => assign_region a y1 y2 x1 x2 (background_color self))
                    (overlay self) h)
  else s.

Definition _mark_dirty (s : state) (x y width height : Z) : state :=
  let '(self, h) := s in
  (mk (OverlayHelper.width self) (OverlayHelper.height self) (background_color self)
      (overlay self) (elements self)
      (dirty_regions self ++ [(x, y, width, height)]) (_update_count self), h).

(** the shared opening of the drawing methods: when [name] is already in
    [self.elements], the bounds of the old element are marked dirty *)
Definition mark_old_dirty (s : state) (name : string) : state :=
  match elements s.1 !! name with
  | Some old =>
      let '(x, y, width, height) := OverlayElement.get_bounds old in
      _mark_dirty s x y width height
  | None => s
  end.

(** [self.elements[name] = e] *)
Definition set_element (s : state) (name : string) (e : OverlayElement.t) : state :=
  let '(self, h) := s in
  (mk (OverlayHelper.width self) (OverlayHelper.height self) (background_color self)
      (overlay self) (<[name := e]> (elements self))
      (dirty_regions self) (_update_count self), h).

(** [self._update_count += 1] *)
Definition count_update (s : state) : state :=
  let '(self, h) := s in
  (mk (OverlayHelper.width self) (OverlayHelper.height self) (background_color self)
      (overlay self) (elements self) (dirty_regions self) (_update_count self + 1), h).

(** an in-place operation on the canvas *)
Definition draw (s : state) (f : ndarray -> ndarray) : state :=
  (s.1, alter f (overlay s.1) s.2).

Definition clear_dirty_regions (s : state) : state :=
  let '(self, h) :=
    fold_left (fun s r => let '(x, y, width, height) := r in
                          _clear_region s x y width height)
              (dirty_regions s.1) s in
  (mk (OverlayHelper.width self) (OverlayHelper.height self) (background_color self)
      (overlay self) (elements self) [] (_update_count self), h).

Definition clear_all (s : state) : state :=
  let '(self, h) := draw s (fun a => assign_all a (background_color s.1)) in
  (mk (OverlayHelper.width self) (OverlayHelper.height self) (background_color self)
      (overlay self) (elements self) [] (_update_count self + 1), h).

Definition add_rectangle (s : state) (name : string) (x y width height : Z)
    (color : color) (filled : bool) (thickness : Z) : state :=
  let s := mark_old_dirty s name in
  let s := set_element s name (OverlayElement.init name x y width height) in
  let x1 := Z.max 0 x in
  let y1 := Z.max 0 y in
  let x2 := Z.min (OverlayHelper.width s.1) (x + width) in
  let y2 := Z.min (OverlayHelper.height s.1) (y + height) in
  let px := as_pixel color in
  let s :=
    if filled then draw s (fun a => assign_region a y1 y2 x1 x2 px)
    else
      let t := thickness in
      let s := draw s (fun a => assign_region a y1 (y1 + t) x1 x2 px) in
      let s := draw s (fun a => assign_region a (y2 - t) y2 x1 x2 px) in
      let s := draw s (fun a => assign_region a y1 y2 x1 (x1 + t) px) in
      draw s (fun a => assign_region a y1 y2 (x2 - t) x2 px) in
  count_update s.

(** [a or b] on [int]s *)
Definition int_or (a b : Z) : Z := if a =? 0 then b else a.

Definition remove_element (s : state) (name : string) : state :=
  match elements s.1 !! name with
  | Some elem =>
      let '(x, y, width, height) := OverlayElement.get_bounds elem in
      let '(self, h) := _clear_region s x y width height in
      (mk (OverlayHelper.width self) (OverlayHelper.height self) (background_color self)
          (overlay self) (delete name (elements self))
          (dirty_regions self) (_update_count self), h)
  | None => s
  end.

Definition hide_element (s : state) (name : string) : state :=
  match elements s.1 !! name with
  | Some elem =>
      let elem := OverlayElement.mk (OverlayElement.name elem) (OverlayElement.x elem)
                    (OverlayElement.y elem) (OverlayElement.width elem)
                    (OverlayElement.height elem) false in
      let s := set_element s name elem in
      let '(x, y, width, height) := OverlayElement.get_bounds elem in
      _clear_region s x y width height
  | None => s
  end.

Definition show_element (s : state) (name : string) : state :=
  match elements s.1 !! name with
  | Some elem =>
      set_element s name
        (OverlayElement.mk (OverlayElement.name elem) (OverlayElement.x elem)
           (OverlayElement.y elem) (OverlayElement.width elem)
           (OverlayElement.height elem) true)
  | None => s
  end.

(** [get_array] returns the reference the helper holds, not a copy *)
Definition get_array (s : state) : loc * state := (overlay s.1, s).

(** OpenCV is not part of the repository.  Its drawing functions work in
    place on the array they are given; what they draw and the text metrics
    are left open.  The module is absent when [import cv2] failed, that is
    when [CV2_AVAILABLE] is false. *)
Record cv2_module : Type := {
  line : ndarray -> Z * Z -> Z * Z -> color -> Z -> Z -> ndarray;
  circle : ndarray -> Z * Z -> Z -> color -> Z -> Z -> ndarray;
  putText : ndarray -> string -> Z * Z -> Z -> Q -> color -> Z -> Z -> ndarray;
  getTextSize : string -> Z -> Q -> Z -> (Z * Z) * Z;
  FONT_HERSHEY_SIMPLEX : Z;
  LINE_AA : Z
}.

Definition CV2_AVAILABLE (cv2 : option cv2_module) : bool :=
  match cv2 with Some _ => true | None => false end.

Definition add_line (cv2 : option cv2_module) (s : state) (name : string)
    (x1 y1 x2 y2 : Z) (color : color) (thickness : Z) : state :=
  match cv2 with
  | None =>
      let width := int_or (Z.abs (x2 - x1)) thickness in
      let height := int_or (Z.abs (y2 - y1)) thickness in
      add_rectangle s name (Z.min x1 x2) (Z.min y1 y2) width height color true 2
  | Some cv2 =>
      let s := mark_old_dirty s name in
      let bbox_x := Z.min x1 x2 in
      let bbox_y := Z.min y1 y2 in
      let bbox_w := Z.abs (x2 - x1) + thickness in
      let bbox_h := Z.abs (y2 - y1) + thickness in
      let s := set_element s name (OverlayElement.init name bbox_x bbox_y bbox_w bbox_h) in
      let s := draw s (fun a => line cv2 a (x1, y1) (x2, y2) color thickness (LINE_AA cv2)) in
      count_update s
  end.

Definition add_circle (cv2 : option cv2_module) (s : state) (name : string)
    (center_x center_y radius : Z) (color : color) (filled : bool)
    (thickness : Z) : state :=
  match cv2 with
  | None =>
      add_rectangle s name (center_x - radius) (center_y - radius)
        (radius * 2) (radius * 2) color filled 2
  | Some cv2 =>
      let s := mark_old_dirty s name in
      let bbox_size := radius * 2 + (if negb filled then thickness else 0) in
      let s := set_element s name
                 (OverlayElement.init name (center_x - radius) (center_y - radius)
                    bbox_size bbox_size) in
      let s := draw s (fun a => circle cv2 a (center_x, center_y) radius color
                                  (if filled then -1 else thickness) (LINE_AA cv2)) in
      count_update s
  end.

Definition add_text (cv2 : option cv2_module) (s : state) (name : string)
    (x y : Z) (text : string) (color : color) (font_scale : Q) (thickness : Z)
    (font : option Z) : state :=
  match cv2 with
  | None => s
  | Some cv2 =>
      let font := match font with None => FONT_HERSHEY_SIMPLEX cv2 | Some f => f end in
      let '((text_width, text_height), baseline) :=
        getTextSize cv2 text font font_scale thickness in
      let s := mark_old_dirty s name in
      let s := set_element s name
                 (OverlayElement.init name x (y - text_height) text_width
                    (text_height + baseline)) in
      let s := draw s (fun a => putText cv2 a text (x, y) font font_scale color
                                  thickness (LINE_AA cv2)) in
      count_update s
  end.

Definition update_text (cv2 : option cv2_module) (s : state) (name : string)
    (x y : Z) (text : string) (color : color) (font_scale : Q) (thickness : Z)
    (font : option Z) : state :=
  add_text cv2 s name x y text color font_scale thickness font.

(** The operations of the helper, as calls with their arguments. *)
Inductive call : Type :=
| Add_rectangle (name : string) (x y width height : Z) (color : color)
    (filled : bool) (thickness : Z)
| Add_line (name : string) (x1 y1 x2 y2 : Z) (color : color) (thickness : Z)
| Add_circle (name : string) (center_x center_y radius : Z) (color : color)
    (filled : bool) (thickness : Z)
| Add_text (name : string) (x y : Z) (text : string) (color : color)
    (font_scale : Q) (thickness : Z) (font : option Z)
| Update_text (name : string) (x y : Z) (text : string) (color : color)
    (font_scale : Q) (thickness : Z) (font : option Z)
| Remove_element (name : string)
| Hide_element (name : string)
| Show_element (name : string)
| Clear_dirty_regions
| Clear_all
| Get_array.

Definition run (cv2 : option cv2_module) (c : call) (s : state) : state :=
  match c with
  | Add_rectangle name x y width height color filled thickness =>
      add_rectangle s name x y width height color filled thickness
  | Add_line name x1 y1 x2 y2 color thickness =>
      add_line cv2 s name x1 y1 x2 y2 color thickness
  | Add_circle name center_x center_y radius color filled thickness =>
      add_circle cv2 s name center_x center_y radius color filled thickness
  | Add_text name x y text color font_scale thickness font =>
      add_text cv2 s name x y text color font_scale thickness font
  | Update_text name x y text color font_scale thickness font =>
      update_text cv2 s name x y text color font_scale thickness font
  | Remove_element name => remove_element s name
  | Hide_element name => hide_element s name
  | Show_element name => show_element s name
  | Clear_dirty_regions => clear_dirty_regions s
  | Clear_all => clear_all s
  | Get_array => (get_array s).2
  end.

(** [s'] is [s] after work on the canvas in place: the helper holds the
    same array object, no array was allocated or freed, the fields set at
    construction are as they were, and the contents of the canvas before
    and after are related by [R] (which is told the background colour). *)
Definition framed (R : pixel -> ndarray -> ndarray -> Prop) (s s' : state) : Prop :=
  width s'.1 = width s.1
  /\ height s'.1 = height s.1
  /\ background_color s'.1 = background_color s.1
  /\ overlay s'.1 = overlay s.1
  /\ dom s'.2 = dom s.2
  /\ (forall a, canvas s = Some a ->
        exists a', canvas s' = Some a' /\ R (background_color s.1) a a').

(** the shape and the element type of the array stay as they are *)
Definition keeps_format (bg : pixel) (a a' : ndarray) : Prop :=
  shape a' = shape a /\ (is_uint8 bg -> dtype_uint8 a -> dtype_uint8 a').

Definition same_canvas : state -> state -> Prop := framed keeps_format.

(** what is assumed of the drawing functions of OpenCV *)
Definition cv2_draws (R : pixel -> ndarray -> ndarray -> Prop) (cv2 : cv2_module)
    : Prop :=
  (forall bg a p1 p2 c t lt, R bg a (line cv2 a p1 p2 c t lt))
  /\ (forall bg a ctr r c t lt, R bg a (circle cv2 a ctr r c t lt))
  /\ (forall bg a txt org f fs c t lt, R bg a (putText cv2 a txt org f fs c t lt)).

(** OpenCV draws into the buffer it is given. *)
Definition cv2_in_place (cv2 : cv2_module) : Prop := cv2_draws keeps_format cv2.

(** What a helper built by [init] satisfies: its canvas is a
    [height x width x 4] array of [uint8], and so is its background. *)
Definition well_formed (s : state) : Prop :=
  exists a, canvas s = Some a
            /\ shape a = replicate (Z.to_nat (height s.1)) (Z.to_nat (width s.1))
            /\ dtype_uint8 a
            /\ is_uint8 (background_color s.1).

(** a sequence of calls, left to right *)
Definition run_all (cv2 : option cv2_module) (cs : list call) (s : state) : state :=
  fold_left (fun s c => run cv2 c s) cs s.

End OverlayHelper.

(** the float arguments of the calls evaluated below *)
Definition scenario_floats : list Q :=
  [1; 2; 9 # 2; inject_Z (2 ^ 52); 1 # 4; 1 # 2; 3 # 4; 1000]%Q.

(** Scenarios the statements below are checked on. *)
Module overlay_scenarios.
Import OverlayHelper.
Local Open Scope Z_scope.

Definition red : color := (255, 0, 0, 200).
Definition clear : pixel := (0, 0, 0, 0).

(** a 4 x 4 helper *)
Definition fresh_helper : option state := init ∅ 4 4 (0, 0, 0, 0).

(** the same helper, written out: the first array of an empty heap *)
Definition helper_4x4 : state :=
  (mk 4 4 clear 1%positive ∅ [] 0,
   {[ 1%positive := replicate 4%nat (replicate 4%nat clear) ]}).

(** a 2 x 2 rectangle in the top-left corner, then the same name again in
    the bottom-right corner *)
Definition moved_rectangle : option state :=
  s0 ← fresh_helper;
  let s1 := add_rectangle s0 "marker" 0 0 2 2 red true 2 in
  Some (add_rectangle s1 "marker" 2 2 2 2 red true 2).

(** an OpenCV stand-in that draws nothing *)
Definition blank_cv2 : cv2_module :=
  {| line := fun a _ _ _ _ _ => a;
     circle := fun a _ _ _ _ _ => a;
     putText := fun a _ _ _ _ _ _ _ => a;
     getTextSize := fun _ _ _ _ => ((0, 0), 0);
     FONT_HERSHEY_SIMPLEX := 0;
     LINE_AA := 16 |}.

End overlay_scenarios.

(** ** Reading the canvas

    What the statements on the overlay helper are written with: the pixel
    at a position of the canvas, the positions a box covers, and the
    bookkeeping the drawing methods share. *)
Module overlay_view.
Import numpy OverlayHelper.
Local Open Scope Z_scope.

(** [a[i, j]] for a position of the array *)
Definition getitem (a : ndarray) (i j : nat) : option pixel :=
  row ← a !! i; row !! j.

(** the pixel in row [i] and column [j] of the canvas of the helper *)
Definition canvas_pixel (s : state) (i j : nat) : option pixel :=
  a ← canvas s; getitem a i j.

(** the position in row [i] and column [j] lies in the box
    [(x, y, width, height)] *)
Definition in_box (b : Z * Z * Z * Z) (i j : nat) : bool :=
  let '(x, y, width, height) := b in
  (x <=? Z.of_nat j) && (Z.of_nat j <? x + width)
  && (y <=? Z.of_nat i) && (Z.of_nat i <? y + height).

Definition in_boxes (bs : list (Z * Z * Z * Z)) (i j : nat) : bool :=
  existsb (fun b => in_box b i j) bs.

(** the opening of the drawing methods: the old bounds are marked dirty and
    the new element is stored *)
Definition registered (s : state) (name : string) (e : OverlayElement.t) : state :=
  set_element (mark_old_dirty s name) name e.

(** the calls that end in [self._update_count += 1] *)
Definition counts_update (cv2 : option cv2_module) (c : call) : bool :=
  match c with
  | Add_rectangle _ _ _ _ _ _ _ _ | Add_line _ _ _ _ _ _ _
  | Add_circle _ _ _ _ _ _ _ | Clear_all => true
  | Add_text _ _ _ _ _ _ _ _ | Update_text _ _ _ _ _ _ _ _ => CV2_AVAILABLE cv2
  | _ => false
  end.

(** the name a call stores an element under *)
Definition registers (cv2 : option cv2_module) (c : call) : option string :=
  match c with
  | Add_rectangle name _ _ _ _ _ _ _ | Add_line name _ _ _ _ _ _
  | Add_circle name _ _ _ _ _ _ => Some name
  | Add_text name _ _ _ _ _ _ _ | Update_text name _ _ _ _ _ _ _ =>
      if CV2_AVAILABLE cv2 then Some name else None
  | _ => None
  end.

End overlay_view.

(** ** Further Python operations: literals, formatting, a float by an int *)
Module PyOps.
Import Binary64 Py.

(** a float literal: the binary64 number nearest to the decimal written *)
Definition literal (q : Q) : Q := rnd q.

(** [x / n] with [x] a [float] and [n] an [int] *)
Definition float_div_int (x : Q) (n : Z) : result pyfloat :=
  y <- float_of_int n ;; float_truediv x y.

(** [f > y] *)
Definition pyfloat_gt (f : pyfloat) (y : Q) : bool :=
  match f with
  | Finite x => float_gt x y
  | Infinity negative => negb negative
  end.

(** [str(n)] of an [int] *)
Definition str (n : Z) : string := pretty n.

(** the last [d] decimal digits of [n], padded with zeros *)
Fixpoint digits (d : nat) (n : Z) : string :=
  match d with
  | O => ""
  | S d' => digits d' (n / 10) +:+ str (n mod 10)
  end.

(** [f"{q:.df}"] for [d >= 1]: the decimal with [d] digits after the point
    that is nearest to the exact value of the float, ties to even.  (The
    float [-0.0], which prints with a sign, has no counterpart among the
    rationals.) *)
Definition format_f (d : nat) (q : Q) : string :=
  let n := rne (Qabs q * inject_Z (10 ^ Z.of_nat d)) in
  (if Qlt_le_dec q 0 then "-" else "")
  +:+ str (n / 10 ^ Z.of_nat d) +:+ "." +:+ digits d (n mod 10 ^ Z.of_nat d).

End PyOps.

(** ** [OverlayHelper.get_stats] *)
Module OverlayStats.
Import numpy Py OverlayHelper.
Local Open Scope Z_scope.

(** [a.nbytes]: four [uint8] components for every pixel *)
Definition nbytes (a : ndarray) : Z := 4 * Z.of_nat (length (concat a)).

(** the dictionary [get_stats] returns, by its keys *)
Record stats : Type := {
  elements : Z;
  updates : Z;
  size : string;
  memory_mb : Q
}.

(** [None] if the reference of the helper is not an array of the heap,
    which no operation brings about *)
Definition get_stats (s : state) : option (result stats) :=
  a ← canvas s;
  Some (memory_mb <- int_truediv (nbytes a) (1024 * 1024) ;;
        Ok {| elements := Z.of_nat (base.size (OverlayHelper.elements s.1));
              updates := _update_count s.1;
              size := PyOps.str (width s.1) +:+ "x" +:+ PyOps.str (height s.1);
              memory_mb := memory_mb |}).

End OverlayStats.

(** ** [FPVOverlay], the helper for an FPV head-up display *)
Module FPVOverlay.
Import Py PyOps.
Local Open Scope Z_scope.

(** an [OverlayHelper] with the centre of the canvas *)
Record t : Type := mk {
  helper : OverlayHelper.t;
  center_x : Z;
  center_y : Z
}.

Definition state : Type := t * heap.

(** the object as the methods of [OverlayHelper] see it *)
Definition as_helper (s : state) : OverlayHelper.state := (helper s.1, s.2).

(** a call of an inherited method *)
Definition inherited (f : OverlayHelper.state -> OverlayHelper.state) (s : state)
    : state :=
  let '(b, h) := f (as_helper s) in (mk b (center_x s.1) (center_y s.1), h).

Definition init (h : heap) (width height : Z) : option state :=
  s ← OverlayHelper.init h width height (0, 0, 0, 0);
  Some (mk s.1 (width / 2) (height / 2), s.2).

Definition add_crosshair (cv2 : option OverlayHelper.cv2_module) (s : state)
    (size : Z) (color : color) (thickness : Z) : state :=
  let half := size / 2 in
  let s := inherited (fun b =>
             OverlayHelper.add_line cv2 b "crosshair_v"
               (center_x s.1) (center_y s.1 - half)
               (center_x s.1) (center_y s.1 + half) color thickness) s in
  inherited (fun b =>
    OverlayHelper.add_line cv2 b "crosshair_h"
      (center_x s.1 - half) (center_y s.1)
      (center_x s.1 + half) (center_y s.1) color thickness) s.

(** the colour code of [update_battery], by the voltage per cell *)
Definition battery_color (voltage_per_cell : pyfloat) : color :=
  if pyfloat_gt voltage_per_cell (literal (37 # 10)) then (0, 255, 0, 255)
  else if pyfloat_gt voltage_per_cell (literal (35 # 10)) then (255, 255, 0, 255)
  else (255, 0, 0, 255).

Definition update_battery (cv2 : option OverlayHelper.cv2_module) (s : state)
    (voltage : Q) (cell_count x y : Z) : result state :=
  voltage_per_cell <- float_div_int voltage cell_count ;;
  let color := battery_color voltage_per_cell in
  let text := "BAT: " +:+ format_f 1 voltage +:+ "V" in
  Ok (inherited (fun b =>
        OverlayHelper.update_text cv2 b "battery" x y text color
          (literal (6 # 10)) 2 None) s).

(** the colour code of [update_signal] *)
Definition signal_color (rssi : Z) : color :=
  if rssi >? 70 then (0, 255, 0, 255)
  else if rssi >? 40 then (255, 255, 0, 255)
  else (255, 0, 0, 255).

Definition update_signal (cv2 : option OverlayHelper.cv2_module) (s : state)
    (rssi x y : Z) : state :=
  let color := signal_color rssi in
  let text := "SIG: " +:+ str rssi +:+ "%" in
  inherited (fun b =>
    OverlayHelper.update_text cv2 b "signal" x y text color (literal (6 # 10)) 2 None) s.

Definition update_flight_mode (cv2 : option OverlayHelper.cv2_module) (s : state)
    (mode : string) (x : option Z) (y : Z) : state :=
  let x := match x with
           | None => OverlayHelper.width (helper s.1) - 120
           | Some x => x
           end in
  let color := (255, 255, 255, 255) in
  inherited (fun b =>
    OverlayHelper.update_text cv2 b "flight_mode" x y mode color (literal (7 # 10)) 2 None) s.

(** the colours of the battery display, from critical to good *)
Definition battery_level (c : color) : Z :=
  if decide (c = (0, 255, 0, 255)) then 2
  else if decide (c = (255, 255, 0, 255)) then 1
  else 0.

End FPVOverlay.

(** Helpers the statements below are checked on. *)
Module hud_scenarios.
Import OverlayHelper overlay_scenarios.
Local Open Scope Z_scope.

(** the 4 x 4 helper with a 2 x 2 rectangle in its top-left corner *)
Definition marked_4x4 : state := add_rectangle helper_4x4 "marker" 0 0 2 2 red true 2.

Definition marker : OverlayElement.t := OverlayElement.init "marker" 0 0 2 2.

(** a 4 x 4 FPV overlay, as [FPVOverlay(4, 4)] makes it *)
Definition fpv_4x4 : FPVOverlay.state :=
  (FPVOverlay.mk helper_4x4.1 2 2, helper_4x4.2).

End hud_scenarios.

(** ** The scripts around the calculators

    The callers of the crop calculators act on the camera
    ([picam2.set_controls]), on the clock ([time.sleep]) and on the
    standard output; what they do is kept as the list of these events, in
    order.  Their float arithmetic is modelled as long as it stays within
    the finite floats: where an addition, a subtraction or a
    multiplication gives an infinity or a NaN, the run ends with
    [NotFinite], which stands for nothing in Python but says that the rest
    of the run is not described. *)
Module script.
Import Binary64 Py.
Local Open Scope Q_scope.

Inductive line : Type :=
| Sensor_resolution (width height : Z)
| Output_resolution (width height : Z)
| Max_crop_region (c : crop).

Inductive event : Type :=
| Set_ScalerCrop (c : crop)   (** [picam2.set_controls({"ScalerCrop": c})] *)
| Sleep (secs : Q)            (** [time.sleep(secs)] *)
| Print (l : line).

(** the exceptions of the arithmetic, and [ValueError] *)
Inductive exception : Type :=
| Arithmetic (e : exn)
| ValueError.

Inductive outcome (A : Type) : Type :=
| Returns (a : A)
| Raises (e : exception)
| NotFinite.
Arguments Returns {A} a.
Arguments Raises {A} e.
Arguments NotFinite {A}.

(** a computation on a state: its outcome, and the state it leaves *)
Definition M (S A : Type) : Type := S -> outcome A * S.

Definition ret {S A : Type} (a : A) : M S A := fun s => (Returns a, s).

Definition bind {S A B : Type} (m : M S A) (k : A -> M S B) : M S B :=
  fun s =>
    match m s with
    | (Returns a, s') => k a s'
    | (Raises e, s') => (Raises e, s')
    | (NotFinite, s') => (NotFinite, s')
    end.

Definition raise {S A : Type} (e : exception) : M S A := fun s => (Raises e, s).

(** the value of an [int] or [float] expression that may raise *)
Definition arith {S A : Type} (r : result A) : M S A :=
  match r with
  | Ok a => ret a
  | Raise e => raise (Arithmetic e)
  end.

(** the value of a float expression, if it is finite *)
Definition finite {S : Type} (f : pyfloat) : M S Q :=
  fun s =>
    match f with
    | Finite q => (Returns q, s)
    | Infinity _ => (NotFinite, s)
    end.



(** [x + y] and [x - y] on floats *)
Definition float_add (x y : Q) : pyfloat := round_to_float (x + y).
Definition float_sub (x y : Q) : pyfloat := round_to_float (x - y).

(** [min(a, b)] and [max(a, b)]: the first argument unless the second is
    smaller (greater) *)
Definition min (a b : Q) : Q := if Qlt_le_dec b a then b else a.
Definition max (a b : Q) : Q := if Qlt_le_dec a b then b else a.


(** *** The world: a list of events *)

Definition emit (e : event) : M (list event) unit :=
  fun trace => (Returns tt, trace ++ [e]).

Definition set_controls (c : crop) : M (list event) unit := emit (Set_ScalerCrop c).


(** a computation on the world, run by an object that has a state of its own *)
Definition world {S A : Type} (m : M (list event) A) : M (S * list event) A :=
  fun s => let '(r, trace) := m s.2 in (r, (s.1, trace)).


End script.

Module eptz_recording_script.
Import Py script.


End eptz_recording_script.

(** ** The class [ePTZController] of [eptz_demo.py] *)
Module ePTZController.
Import Py PyOps script.
Local Open Scope Q_scope.

(** what the constructor reads from the camera *)
Record Picamera2 : Type := {
  PixelArraySize : Z * Z;
  ScalerCrop : crop * crop * crop
}.

Record t : Type := mk {
  output_size : Z * Z;
  sensor_width : Z;
  sensor_height : Z;
  max_crop : crop;
  zoom_factor : Q;
  pan_x : Q;
  pan_y : Q;
  min_zoom : Q;
  max_zoom : Q;
  zoom_step : Q;
  pan_step : Q
}.

(** the controller and the events so far *)
Definition state : Type := t * list event.

Definition init (picam2 : Picamera2) (output_size : Z * Z) : M (list event) t :=
  let '(sensor_width, sensor_height) := PixelArraySize picam2 in
  let '(min_crop, max_crop, default_crop) := ScalerCrop picam2 in
  bind (emit (Print (Sensor_resolution sensor_width sensor_height))) (fun _ =>
  bind (emit (Print (Output_resolution output_size.1 output_size.2))) (fun _ =>
  bind (emit (Print (Max_crop_region max_crop))) (fun _ =>
  ret (mk output_size sensor_width sensor_height max_crop
         1 (1 # 2) (1 # 2)
         1 8
         (literal (2 # 10)) (literal (5 # 100)))))).

(** the attributes [calculate_crop] reads *)
Definition attributes (self : t) : eptz_demo.ePTZController :=
  {| eptz_demo.output_size := output_size self;
     eptz_demo.sensor_width := sensor_width self;
     eptz_demo.sensor_height := sensor_height self;
     eptz_demo.zoom_factor := zoom_factor self;
     eptz_demo.pan_x := pan_x self;
     eptz_demo.pan_y := pan_y self |}.

Definition calculate_crop (self : t) : result crop :=
  eptz_demo.calculate_crop (attributes self).

Definition set_zoom_factor (z : Q) : M state unit :=
  fun '(self, trace) =>
    (Returns tt,
     (mk (output_size self) (sensor_width self) (sensor_height self) (max_crop self)
         z (pan_x self) (pan_y self)
         (min_zoom self) (max_zoom self) (zoom_step self) (pan_step self), trace)).

Definition set_pan_x (p : Q) : M state unit :=
  fun '(self, trace) =>
    (Returns tt,
     (mk (output_size self) (sensor_width self) (sensor_height self) (max_crop self)
         (zoom_factor self) p (pan_y self)
         (min_zoom self) (max_zoom self) (zoom_step self) (pan_step self), trace)).

Definition set_pan_y (p : Q) : M state unit :=
  fun '(self, trace) =>
    (Returns tt,
     (mk (output_size self) (sensor_width self) (sensor_height self) (max_crop self)
         (zoom_factor self) (pan_x self) p
         (min_zoom self) (max_zoom self) (zoom_step self) (pan_step self), trace)).

(** the object, read *)
Definition self : M state t := fun s => (Returns s.1, s).

Definition apply_crop : M state crop :=
  bind self (fun self =>
  bind (arith (calculate_crop self)) (fun crop =>
  bind (world (set_controls crop)) (fun _ =>
  ret crop))).

Definition zoom_in : M state crop :=
  bind self (fun self =>
  bind (finite (float_add (zoom_factor self) (zoom_step self))) (fun z =>
  bind (set_zoom_factor (min z (max_zoom self))) (fun _ =>
  apply_crop))).

Definition zoom_out : M state crop :=
  bind self (fun self =>
  bind (finite (float_sub (zoom_factor self) (zoom_step self))) (fun z =>
  bind (set_zoom_factor (max z (min_zoom self))) (fun _ =>
  apply_crop))).

Definition pan_left : M state crop :=
  bind self (fun self =>
  bind (finite (float_sub (pan_x self) (pan_step self))) (fun p =>
  bind (set_pan_x (max 0 p)) (fun _ =>
  apply_crop))).

Definition pan_right : M state crop :=
  bind self (fun self =>
  bind (finite (float_add (pan_x self) (pan_step self))) (fun p =>
  bind (set_pan_x (min 1 p)) (fun _ =>
  apply_crop))).

Definition tilt_up : M state crop :=
  bind self (fun self =>
  bind (finite (float_sub (pan_y self) (pan_step self))) (fun p =>
  bind (set_pan_y (max 0 p)) (fun _ =>
  apply_crop))).

Definition tilt_down : M state crop :=
  bind self (fun self =>
  bind (finite (float_add (pan_y self) (pan_step self))) (fun p =>
  bind (set_pan_y (min 1 p)) (fun _ =>
  apply_crop))).

Definition reset : M state crop :=
  bind (set_zoom_factor 1) (fun _ =>
  bind (set_pan_x (1 # 2)) (fun _ =>
  bind (set_pan_y (1 # 2)) (fun _ =>
  apply_crop))).



(** the commands bound to the keys of the interactive demo *)
Inductive command : Type :=
| Zoom_in | Zoom_out | Pan_left | Pan_right | Tilt_up | Tilt_down | Reset.

Definition run (c : command) : M state crop :=
  match c with
  | Zoom_in => zoom_in
  | Zoom_out => zoom_out
  | Pan_left => pan_left
  | Pan_right => pan_right
  | Tilt_up => tilt_up
  | Tilt_down => tilt_down
  | Reset => reset
  end.


Definition in_limits (self : t) : Prop :=
  1 <= zoom_factor self <= 8
  /\ 0 <= pan_x self <= 1
  /\ 0 <= pan_y self <= 1.

End ePTZController.

Module eptz_scenarios.
Import script ePTZController.



End eptz_scenarios.

(** Sequences of commands, and the states the transitions pass through. *)
Module controller_view.
Import script ePTZController.
Local Open Scope Q_scope.


(** a sequence of commands, with the rectangles they return *)
Fixpoint run_all (cs : list command) : M state (list crop) :=
  match cs with
  | [] => ret []
  | c :: cs =>
      bind (run c) (fun crop =>
      bind (run_all cs) (fun crops => ret (crop :: crops)))
  end.

End controller_view.

Module transition_view.
Import script ePTZController.
Local Open Scope Q_scope.

(** a state within one half of the limits: where the smooth transitions,
    which do not clamp the values they interpolate, keep the controller *)
Definition near_limits (self : t) : Prop :=
  1 # 2 <= zoom_factor self <= 17 # 2
  /\ - (1 # 2) <= pan_x self <= 3 # 2
  /\ - (1 # 2) <= pan_y self <= 3 # 2.


End transition_view.


(** * Properties *)

(** ** Rounding *)

Module Binary64_facts.
Import Binary64.
Local Open Scope Q_scope.

(** *** Powers of two *)

Lemma pow2_pos e : 0 < pow2 e.
Proof. apply Qpower_0_lt. reflexivity. Qed.

Lemma pow2_add a b : pow2 (a + b) == pow2 a * pow2 b.
Proof. apply Qpower_plus. discriminate. Qed.

Lemma pow2_le a b : (a <= b)%Z -> pow2 a <= pow2 b.
Proof. intros H. apply Qpower_le_compat_l; [exact H | discriminate]. Qed.

Lemma pow2_lt a b : (a < b)%Z -> pow2 a < pow2 b.
Proof. intros H. apply Qpower_lt_compat_l; [exact H | reflexivity]. Qed.

Lemma pow2_Z e : (0 <= e)%Z -> pow2 e == inject_Z (2 ^ e).
Proof. intros H. unfold pow2. rewrite Zpower_Qpower by exact H. reflexivity. Qed.

Lemma pow2_div_cancel q e : q / pow2 e * pow2 e == q.
Proof. pose proof (pow2_pos e). field. lra. Qed.

Lemma Qdiv_eq_mul q p z : 0 < p -> q == z * p -> q / p == z.
Proof. intros P E. rewrite E. field. lra. Qed.

Lemma pow2_mul_cancel q e : q * pow2 e / pow2 e == q.
Proof. pose proof (pow2_pos e). field. lra. Qed.

(** *** The binary logarithm *)

Lemma ilog2_spec q : 0 < q -> pow2 (ilog2 q) <= q /\ q < pow2 (ilog2 q + 1).
Proof.
  destruct q as [n d]. intros Hq.
  assert (Hn : (0 < n)%Z) by (unfold Qlt in Hq; simpl in Hq; lia).
  unfold ilog2. cbn [Qnum Qden].
  set (a := Z.log2 n). set (b := Z.log2 (Z.pos d)).
  destruct (Z.log2_spec n Hn) as [Ha1 Ha2]. fold a in Ha1, Ha2.
  destruct (Z.log2_spec (Z.pos d) eq_refl) as [Hb1 Hb2]. fold b in Hb1, Hb2.
  assert (Ha0 : (0 <= a)%Z) by apply Z.log2_nonneg.
  assert (Hb0 : (0 <= b)%Z) by apply Z.log2_nonneg.
  assert (HD : 0 < inject_Z (Z.pos d)) by reflexivity.
  assert (Hq' : n # d == inject_Z n / inject_Z (Z.pos d)) by apply Qmake_Qdiv.
  rewrite Zle_Qle in Ha1, Hb1. rewrite Zlt_Qlt in Ha2, Hb2.
  rewrite <- pow2_Z in Ha1, Ha2, Hb1, Hb2 by lia.
  assert (Hlo : pow2 (a - b - 1) <= n # d).
  { rewrite Hq'. apply Qle_shift_div_l; [exact HD |].
    assert (E : pow2 a == pow2 (a - b - 1) * pow2 (Z.succ b)).
    { rewrite <- pow2_add. f_equiv. lia. }
    pose proof (pow2_pos (a - b - 1)). nra. }
  assert (Hhi : n # d < pow2 (a - b + 1)).
  { rewrite Hq'. apply Qlt_shift_div_r; [exact HD |].
    assert (E : pow2 (Z.succ a) == pow2 (a - b + 1) * pow2 b).
    { rewrite <- pow2_add. f_equiv. lia. }
    pose proof (pow2_pos (a - b + 1)). nra. }
  destruct (Qle_bool (pow2 (a - b)) (n # d)) eqn:E.
  - apply Qle_bool_iff in E. split; [exact E | exact Hhi].
  - assert (E' : ~ pow2 (a - b) <= n # d).
    { intros H. apply Qle_bool_iff in H. congruence. }
    apply Qnot_le_lt in E'. split; [exact Hlo |].
    replace (a - b - 1 + 1)%Z with (a - b)%Z by lia. exact E'.
Qed.

Lemma ilog2_unique q l : pow2 l <= q -> q < pow2 (l + 1) -> ilog2 q = l.
Proof.
  intros H1 H2.
  assert (Hq : 0 < q) by (pose proof (pow2_pos l); lra).
  destruct (ilog2_spec q Hq) as [H3 H4].
  destruct (Z.lt_trichotomy (ilog2 q) l) as [H | [H | H]]; [| exact H |].
  - pose proof (pow2_le (ilog2 q + 1) l ltac:(lia)). lra.
  - pose proof (pow2_le (l + 1) (ilog2 q) ltac:(lia)). lra.
Qed.

Lemma ilog2_le q1 q2 : 0 < q1 -> q1 <= q2 -> (ilog2 q1 <= ilog2 q2)%Z.
Proof.
  intros H0 H.
  destruct (ilog2_spec q1 H0) as [H1 _].
  destruct (ilog2_spec q2 ltac:(lra)) as [_ H2].
  destruct (Z_le_gt_dec (ilog2 q1) (ilog2 q2)) as [L | L]; [exact L |].
  pose proof (pow2_le (ilog2 q2 + 1) (ilog2 q1) ltac:(lia)). lra.
Qed.

Lemma ilog2_comp q1 q2 : 0 < q1 -> q1 == q2 -> ilog2 q1 = ilog2 q2.
Proof.
  intros H0 E. symmetry. destruct (ilog2_spec q1 H0) as [H1 H2].
  apply ilog2_unique; lra.
Qed.

(** *** Rounding to the nearest integer *)

Lemma rne_spec r : inject_Z (rne r) - (1 # 2) <= r /\ r <= inject_Z (rne r) + (1 # 2).
Proof.
  pose proof (Qfloor_le r) as Hlo. pose proof (Qlt_floor r) as Hhi.
  rewrite inject_Z_plus in Hhi. change (inject_Z 1) with 1 in Hhi.
  unfold rne. cbv zeta.
  destruct (Qcompare_spec (r - inject_Z (Qfloor r)) (1 # 2)) as [E | E | E];
    [destruct (Z.even (Qfloor r)) | |];
    rewrite ?inject_Z_plus; change (inject_Z 1) with 1; lra.
Qed.

Lemma rne_Z n : rne (inject_Z n) = n.
Proof.
  unfold rne. cbv zeta. rewrite Qfloor_Z.
  destruct (Qcompare_spec (inject_Z n - inject_Z n) (1 # 2)) as [E | E | E];
    [lra | reflexivity | lra].
Qed.

Lemma rne_le r1 r2 : r1 <= r2 -> (rne r1 <= rne r2)%Z.
Proof.
  intros H.
  pose proof (Qfloor_resp_le _ _ H) as Hf.
  pose proof (Qfloor_le r1) as Hlo1. pose proof (Qlt_floor r1) as Hhi1.
  pose proof (Qfloor_le r2) as Hlo2. pose proof (Qlt_floor r2) as Hhi2.
  rewrite inject_Z_plus in Hhi1, Hhi2. change (inject_Z 1) with 1 in Hhi1, Hhi2.
  unfold rne. cbv zeta.
  destruct (Z.eq_dec (Qfloor r1) (Qfloor r2)) as [Ef | Nf].
  - rewrite <- Ef in *.
    destruct (Qcompare_spec (r1 - inject_Z (Qfloor r1)) (1 # 2)) as [E1 | E1 | E1];
    destruct (Qcompare_spec (r2 - inject_Z (Qfloor r1)) (1 # 2)) as [E2 | E2 | E2];
    destruct (Z.even (Qfloor r1)); try lia; exfalso; lra.
  - destruct (Qcompare (r1 - inject_Z (Qfloor r1)) (1 # 2));
    destruct (Qcompare (r2 - inject_Z (Qfloor r2)) (1 # 2));
    destruct (Z.even (Qfloor r1)); destruct (Z.even (Qfloor r2)); lia.
Qed.

Lemma rne_comp r1 r2 : r1 == r2 -> rne r1 = rne r2.
Proof.
  intros E. unfold rne. cbv zeta.
  rewrite (Qfloor_comp _ _ E).
  assert (E' : r1 - inject_Z (Qfloor r2) == r2 - inject_Z (Qfloor r2)) by lra.
  rewrite (Qcompare_comp _ _ E' (1 # 2) (1 # 2) (Qeq_refl _)). reflexivity.
Qed.

(** *** Rounding to the format *)

Lemma cexp_pos q : 0 < q -> cexp q = Z.max (ilog2 q - 52) emin.
Proof.
  intros H. unfold cexp, prec.
  rewrite (ilog2_comp (Qabs q) q); [reflexivity | | apply Qabs_pos; lra].
  rewrite Qabs_pos; lra.
Qed.

Lemma cexp_comp q1 q2 : ~ q1 == 0 -> q1 == q2 -> cexp q1 = cexp q2.
Proof.
  intros N E. unfold cexp. f_equal. f_equal.
  apply ilog2_comp; [| rewrite E; reflexivity].
  destruct (Qlt_le_dec 0 q1) as [H | H].
  - rewrite Qabs_pos; lra.
  - rewrite Qabs_neg by exact H.
    assert (~ q1 == 0 -> q1 <= 0 -> 0 < - q1) as K by (intros; lra). auto.
Qed.

Lemma cexp_ge_emin q : (emin <= cexp q)%Z.
Proof. unfold cexp. lia. Qed.

Lemma rnd_zero q : q == 0 -> rnd q == 0.
Proof.
  intros E. unfold rnd.
  rewrite (rne_comp (q / pow2 (cexp q)) (inject_Z 0)).
  - rewrite rne_Z. change (inject_Z 0) with 0. lra.
  - change (inject_Z 0) with 0. pose proof (pow2_pos (cexp q)) as P.
    revert P. generalize (pow2 (cexp q)). intros p P.
    rewrite E. field. lra.
Qed.

Lemma rnd_comp q1 q2 : q1 == q2 -> rnd q1 == rnd q2.
Proof.
  intros E. destruct (Qeq_dec q1 0) as [Z | N].
  - rewrite (rnd_zero q1 Z). rewrite (rnd_zero q2); [reflexivity | lra].
  - unfold rnd. rewrite <- (cexp_comp q1 q2 N E).
    rewrite (rne_comp (q2 / pow2 (cexp q1)) (q1 / pow2 (cexp q1))); [reflexivity |].
    generalize (pow2 (cexp q1)). intros p. rewrite E. reflexivity.
Qed.

#[export] Instance rnd_Proper : Proper (Qeq ==> Qeq) rnd.
Proof. intros x y E. apply rnd_comp, E. Qed.

Lemma rnd_nonneg q : 0 <= q -> 0 <= rnd q.
Proof.
  intros H. unfold rnd. pose proof (pow2_pos (cexp q)) as P.
  assert (K : (rne (inject_Z 0) <= rne (q / pow2 (cexp q)))%Z).
  { apply rne_le. change (inject_Z 0) with 0. apply Qle_shift_div_l; lra. }
  rewrite rne_Z in K. rewrite Zle_Qle in K. change (inject_Z 0) with 0 in K.
  nra.
Qed.

Lemma rnd_nonpos q : q <= 0 -> rnd q <= 0.
Proof.
  intros H. unfold rnd. pose proof (pow2_pos (cexp q)) as P.
  assert (K : (rne (q / pow2 (cexp q)) <= rne (inject_Z 0))%Z).
  { apply rne_le. change (inject_Z 0) with 0. apply Qle_shift_div_r; lra. }
  rewrite rne_Z in K. rewrite Zle_Qle in K. change (inject_Z 0) with 0 in K.
  nra.
Qed.

Lemma pos_lt_ulp_range q : 0 < q -> q < pow2 (cexp q + 53).
Proof.
  intros H. destruct (ilog2_spec q H) as [_ H2]. rewrite (cexp_pos q H).
  pose proof (pow2_le (ilog2 q + 1) (Z.max (ilog2 q - 52) emin + 53) ltac:(lia)).
  lra.
Qed.

Lemma normal_ge_ulp_range q : 0 < q -> (emin < cexp q)%Z -> pow2 (cexp q + 52) <= q.
Proof.
  intros H. rewrite (cexp_pos q H). intros L.
  destruct (ilog2_spec q H) as [H1 _].
  replace (Z.max (ilog2 q - 52) emin + 52)%Z with (ilog2 q) by lia. exact H1.
Qed.

(** the significand of a rounded positive number is at most 2^53 *)
Lemma rne_scaled_le q : 0 < q -> (rne (q / pow2 (cexp q)) <= 2 ^ 53)%Z.
Proof.
  intros H. rewrite <- (rne_Z (2 ^ 53)). apply rne_le.
  rewrite <- pow2_Z by lia. pose proof (pow2_pos (cexp q)) as P.
  apply Qle_shift_div_r; [exact P |].
  rewrite <- pow2_add. rewrite Z.add_comm. apply Qlt_le_weak, pos_lt_ulp_range, H.
Qed.

Lemma rne_scaled_ge q :
  0 < q -> (emin < cexp q)%Z -> (2 ^ 52 <= rne (q / pow2 (cexp q)))%Z.
Proof.
  intros H L. rewrite <- (rne_Z (2 ^ 52)) at 1. apply rne_le.
  rewrite <- pow2_Z by lia. pose proof (pow2_pos (cexp q)) as P.
  apply Qle_shift_div_l; [exact P |].
  rewrite <- pow2_add. rewrite Z.add_comm. apply normal_ge_ulp_range; assumption.
Qed.

Lemma rnd_upper q : 0 < q -> rnd q <= pow2 (cexp q + 53).
Proof.
  intros H. unfold rnd. pose proof (rne_scaled_le q H) as K.
  rewrite Zle_Qle in K. rewrite <- pow2_Z in K by lia.
  rewrite Z.add_comm, pow2_add. pose proof (pow2_pos (cexp q)). nra.
Qed.

Lemma rnd_lower q : 0 < q -> (emin < cexp q)%Z -> pow2 (cexp q + 52) <= rnd q.
Proof.
  intros H L. unfold rnd. pose proof (rne_scaled_ge q H L) as K.
  rewrite Zle_Qle in K. rewrite <- pow2_Z in K by lia.
  rewrite Z.add_comm, pow2_add. pose proof (pow2_pos (cexp q)). nra.
Qed.

(** Rounding is monotone (on the non-negative numbers, which is all the
    crop calculators need). *)
Lemma rnd_le q1 q2 : 0 <= q1 -> q1 <= q2 -> rnd q1 <= rnd q2.
Proof.
  intros H0 H.
  destruct (Qeq_dec q1 0) as [Z | N].
  { rewrite (rnd_zero q1 Z). apply rnd_nonneg. lra. }
  assert (P1 : 0 < q1) by (assert (~ q1 == 0 -> 0 <= q1 -> 0 < q1) as K by (intros; lra); auto).
  assert (P2 : 0 < q2) by lra.
  assert (Hc : (cexp q1 <= cexp q2)%Z).
  { rewrite (cexp_pos q1 P1), (cexp_pos q2 P2).
    pose proof (ilog2_le q1 q2 P1 H). lia. }
  destruct (Z.eq_dec (cexp q1) (cexp q2)) as [E | NE].
  - unfold rnd. rewrite <- E. pose proof (pow2_pos (cexp q1)) as P.
    assert (K : (rne (q1 / pow2 (cexp q1)) <= rne (q2 / pow2 (cexp q1)))%Z).
    { apply rne_le. apply Qmult_le_compat_r; [exact H |].
      apply Qlt_le_weak, Qinv_lt_0_compat, P. }
    rewrite Zle_Qle in K. nra.
  - pose proof (rnd_upper q1 P1) as U.
    pose proof (rnd_lower q2 P2 ltac:(pose proof (cexp_ge_emin q1); lia)) as L.
    pose proof (pow2_le (cexp q1 + 53) (cexp q2 + 52) ltac:(lia)). lra.
Qed.

(** Numbers with a 53-bit significand and an exponent in range are not
    changed by rounding. *)
Lemma rnd_exact m e :
  (0 <= m <= 2 ^ 53)%Z -> (emin <= e)%Z ->
  rnd (inject_Z m * pow2 e) == inject_Z m * pow2 e.
Proof.
  intros Hm He. set (q := inject_Z m * pow2 e).
  destruct (Z.eq_dec m 0%Z) as [-> | Nm].
  { assert (Z0 : q == 0) by (unfold q; change (inject_Z 0) with 0%Q; lra).
    rewrite (rnd_zero q Z0). symmetry. exact Z0. }
  assert (Pm : 0 < inject_Z m) by (change 0%Q with (inject_Z 0); rewrite <- Zlt_Qlt; lia).
  assert (Pq : 0 < q) by (unfold q; pose proof (pow2_pos e); nra).
  assert (I : exists z, q / pow2 (cexp q) == inject_Z z).
  { destruct (Z.eq_dec m (2 ^ 53)%Z) as [E | NE].
    - exists (2 ^ 52)%Z.
      assert (Eq : q == pow2 (e + 53)).
      { unfold q. rewrite E, <- pow2_Z by lia. rewrite <- pow2_add. f_equiv. lia. }
      assert (El : ilog2 q = (e + 53)%Z).
      { apply ilog2_unique; [lra |]. pose proof (pow2_lt (e + 53) (e + 53 + 1) ltac:(lia)). lra. }
      rewrite (cexp_pos q Pq), El.
      replace (Z.max (e + 53 - 52) emin) with (e + 1)%Z by lia.
      rewrite <- pow2_Z by lia. pose proof (pow2_pos (e + 1)) as P.
      apply Qdiv_eq_mul; [exact P |].
      rewrite <- pow2_add, Eq. f_equiv. lia.
    - exists (m * 2 ^ (e - cexp q))%Z.
      assert (Lq : q < pow2 (e + 53)).
      { unfold q. rewrite Z.add_comm, pow2_add.
        assert (inject_Z m < pow2 53) by (rewrite pow2_Z by lia; rewrite <- Zlt_Qlt; lia).
        pose proof (pow2_pos e). nra. }
      destruct (ilog2_spec q Pq) as [H1 _].
      assert (Ll : (ilog2 q < e + 53)%Z).
      { destruct (Z_lt_ge_dec (ilog2 q) (e + 53)) as [L | G]; [exact L |].
        pose proof (pow2_le (e + 53) (ilog2 q) ltac:(lia)). lra. }
      assert (Lc : (cexp q <= e)%Z) by (rewrite (cexp_pos q Pq); lia).
      rewrite inject_Z_mult. rewrite <- pow2_Z by lia.
      pose proof (pow2_pos (cexp q)) as P.
      apply Qdiv_eq_mul; [exact P |].
      rewrite <- Qmult_assoc, <- pow2_add.
      replace (e - cexp q + cexp q)%Z with e by lia. reflexivity. }
  destruct I as [z Hz]. unfold rnd. fold q.
  rewrite (rne_comp _ _ Hz), rne_Z, <- Hz. apply pow2_div_cancel.
Qed.

Lemma rnd_int n : (0 <= n <= 2 ^ 53)%Z -> rnd (inject_Z n) == inject_Z n.
Proof.
  intros H. pose proof (rnd_exact n 0 H ltac:(unfold emin; lia)) as K.
  assert (E : inject_Z n * pow2 0 == inject_Z n) by (change (pow2 0) with 1; lra).
  rewrite E in K. exact K.
Qed.

(** Rounding is idempotent. *)
Lemma rnd_idem q : 0 <= q -> rnd (rnd q) == rnd q.
Proof.
  intros H. destruct (Qeq_dec q 0) as [Z | N].
  { rewrite (rnd_zero q Z). apply rnd_zero. reflexivity. }
  assert (P : 0 < q) by (assert (~ q == 0 -> 0 <= q -> 0 < q) as K by (intros; lra); auto).
  unfold rnd at 2 3. apply rnd_exact; [| apply cexp_ge_emin].
  split; [| apply rne_scaled_le, P].
  rewrite <- (rne_Z 0). apply rne_le. change (inject_Z 0) with 0.
  pose proof (pow2_pos (cexp q)). apply Qle_shift_div_l; lra.
Qed.

(** In the normal range the relative error of rounding is at most 2^-53. *)
Lemma rnd_err q :
  pow2 (emin + 52) <= q ->
  q - q * pow2 (-53) <= rnd q /\ rnd q <= q + q * pow2 (-53).
Proof.
  intros H.
  assert (P : 0 < q) by (pose proof (pow2_pos (emin + 52)); lra).
  assert (L : (emin + 52 <= ilog2 q)%Z).
  { destruct (ilog2_spec q P) as [_ H2].
    destruct (Z_le_gt_dec (emin + 52) (ilog2 q)) as [L | G]; [exact L |].
    pose proof (pow2_le (ilog2 q + 1) (emin + 52) ltac:(lia)). lra. }
  destruct (ilog2_spec q P) as [H1 _].
  assert (Ec : cexp q = (ilog2 q - 52)%Z) by (rewrite (cexp_pos q P); lia).
  assert (Eu : pow2 (ilog2 q) * pow2 (-53) == pow2 (cexp q) * (1 # 2)).
  { rewrite Ec. change (1 # 2) with (pow2 (-1)). rewrite <- !pow2_add. f_equiv. lia. }
  destruct (rne_spec (q / pow2 (cexp q))) as [R1 R2].
  pose proof (pow2_pos (cexp q)) as Pc. pose proof (pow2_pos (-53)) as Pu.
  pose proof (pow2_div_cancel q (cexp q)) as C.
  unfold rnd. revert R1 R2 C. generalize (q / pow2 (cexp q)). intros s R1 R2 C.
  revert R1 R2. generalize (inject_Z (rne s)). intros z R1 R2.
  split; nra.
Qed.

(** *** The model against the floats of the machine

    Division, multiplication and the conversion of integers, on values
    the crop calculators meet and at the edges of the format: a tie broken
    to even, the subnormal range, overflow. *)
Example rnd_division :
  rounds_to (4 # 3) (4 / 3)%float
  && rounds_to (1920 # 1080) (1920 / 1080)%float
  && rounds_to (4608 / rnd (22 # 10)) (4608 / 0x1.199999999999ap+1)%float
  && rounds_to (1 # 3) (1 / 3)%float
  = true.
Proof. vm_compute. reflexivity. Qed.

Example rnd_multiplication :
  rounds_to (1080 * rnd (4 # 3)) (1080 * (4 / 3))%float
  && rounds_to (1296 * rnd (640 # 480)) (1296 * (640 / 480))%float
  && rounds_to (rnd (1 # 3) * rnd (1 # 7)) ((1 / 3) * (1 / 7))%float
  = true.
Proof. vm_compute. reflexivity. Qed.

Example rnd_conversion :
  rounds_to (inject_Z (2 ^ 53 + 1)) 0x1p+53%float
  && rounds_to (inject_Z (2 ^ 53 + 3)) 0x1.0000000000002p+53%float
  && rounds_to (inject_Z (2 ^ 53 + 5)) 0x1.0000000000002p+53%float
  = true.
Proof. vm_compute. reflexivity. Qed.

Example rnd_edges :
  rounds_to (3 / inject_Z (2 ^ 1075)) (0x1p-1074 * 1.5)%float
  && rounds_to (5 / inject_Z (2 ^ 1076)) (0x1p-1074 * 1.25)%float
  && rounds_to (1 / inject_Z (2 ^ 1075)) (0x1p-1074 / 2)%float
  && rounds_to (inject_Z (2 ^ 1024 - 1)) (0x1p+1023 * 2)%float
  = true.
Proof. vm_compute. reflexivity. Qed.

End Binary64_facts.

(** ** Python arithmetic *)

Module Py_facts.
Import Binary64 Binary64_facts Py.
Local Open Scope Q_scope.

Lemma trunc_nonneg q : 0 <= q -> trunc q = Qfloor q.
Proof.
  destruct q as [n d]. unfold Qle. simpl. intros H.
  unfold trunc. simpl. apply Z.quot_div_nonneg; lia.
Qed.

Lemma trunc_neg q : q <= 0 -> trunc q = (- Qfloor (- q))%Z.
Proof.
  destruct q as [n d]. unfold Qle. simpl. intros H.
  unfold trunc. simpl.
  rewrite <- (Z.quot_div_nonneg (- n) (Z.pos d)) by lia.
  rewrite Z.quot_opp_l by lia. lia.
Qed.

Lemma trunc_comp q1 q2 : q1 == q2 -> trunc q1 = trunc q2.
Proof.
  intros E. destruct (Qlt_le_dec q1 0) as [L | L].
  - rewrite (trunc_neg q1), (trunc_neg q2) by lra.
    f_equal. apply Qfloor_comp. lra.
  - rewrite (trunc_nonneg q1), (trunc_nonneg q2) by lra.
    apply Qfloor_comp, E.
Qed.

Lemma trunc_nonpos q : q <= 0 -> (trunc q <= 0)%Z.
Proof.
  intros H. rewrite (trunc_neg q H).
  pose proof (Qfloor_resp_le 0 (- q) ltac:(lra)) as K.
  change (Qfloor 0) with 0%Z in K. lia.
Qed.

Lemma trunc_le q1 q2 : 0 <= q1 -> q1 <= q2 -> (0 <= trunc q1 <= trunc q2)%Z.
Proof.
  intros H0 H. rewrite (trunc_nonneg q1), (trunc_nonneg q2) by lra.
  split; [| apply Qfloor_resp_le, H].
  pose proof (Qfloor_resp_le 0 q1 H0) as K. exact K.
Qed.

Lemma overflows_comp r1 r2 : r1 == r2 -> overflows r1 = overflows r2.
Proof. intros E. unfold overflows. rewrite E. reflexivity. Qed.

Lemma overflows_small r B : 0 <= r -> r <= B -> B < pow2 emax -> overflows r = false.
Proof.
  intros H0 H HB. unfold overflows.
  destruct (Qle_bool (pow2 emax) (Qabs r)) eqn:E; [| reflexivity].
  apply Qle_bool_iff in E. rewrite Qabs_pos in E by exact H0. lra.
Qed.

Lemma int_round_eq q :
  int_round q = if overflows (rnd q) then Raise OverflowError else Ok (trunc (rnd q)).
Proof.
  unfold int_round, round_to_float. cbv zeta.
  destruct (overflows (rnd q)); reflexivity.
Qed.

Lemma int_round_comp q1 q2 : q1 == q2 -> int_round q1 = int_round q2.
Proof.
  intros E. rewrite !int_round_eq.
  rewrite (overflows_comp (rnd q1) (rnd q2)) by (rewrite E; reflexivity).
  rewrite (trunc_comp (rnd q1) (rnd q2)) by (rewrite E; reflexivity).
  reflexivity.
Qed.

(** A non-negative value below a representable bound is rounded and
    truncated without an exception, and stays below the bound. *)
Lemma int_round_small q B :
  0 <= q -> q <= B -> rnd B == B -> B < pow2 emax ->
  int_round q = Ok (Qfloor (rnd q)) /\ 0 <= rnd q /\ rnd q <= B.
Proof.
  intros H0 H HB Hm.
  pose proof (rnd_nonneg q H0) as R0.
  pose proof (rnd_le q B H0 H) as R1. rewrite HB in R1.
  rewrite int_round_eq, (overflows_small (rnd q) B R0 R1 Hm).
  rewrite (trunc_nonneg _ R0). auto.
Qed.

Lemma int_round_le_int q n :
  0 <= q -> q <= inject_Z n -> (n <= 2 ^ 53)%Z ->
  exists c, int_round q = Ok c /\ (0 <= c <= n)%Z.
Proof.
  intros H0 H Hn.
  assert (N0 : (0 <= n)%Z) by (rewrite Zle_Qle; change (inject_Z 0) with 0; lra).
  assert (Hm : inject_Z n < pow2 emax).
  { unfold emax. rewrite pow2_Z by lia. rewrite <- Zlt_Qlt.
    assert (2 ^ 53 < 2 ^ 1024)%Z by (apply Z.pow_lt_mono_r; lia). lia. }
  destruct (int_round_small q (inject_Z n) H0 H (rnd_int n ltac:(lia)) Hm) as (E & R0 & R1).
  exists (Qfloor (rnd q)). split; [exact E |].
  pose proof (Qfloor_resp_le _ _ R0) as K0. pose proof (Qfloor_resp_le _ _ R1) as K1.
  rewrite Qfloor_Z in K1. change (Qfloor 0) with 0%Z in K0. lia.
Qed.

(** the same with a bound half way between two integers *)
Lemma int_round_le_half q n :
  0 <= q -> q <= inject_Z n + (1 # 2) -> (0 <= n < 2 ^ 52)%Z ->
  exists c, int_round q = Ok c /\ (0 <= c <= n)%Z.
Proof.
  intros H0 H Hn.
  assert (EB : inject_Z (2 * n + 1) * pow2 (-1) == inject_Z n + (1 # 2)).
  { rewrite inject_Z_plus, inject_Z_mult. change (pow2 (-1)) with (1 # 2).
    change (inject_Z 2) with 2. change (inject_Z 1) with 1. lra. }
  assert (HB : rnd (inject_Z n + (1 # 2)) == inject_Z n + (1 # 2)).
  { rewrite <- EB. apply rnd_exact; [| unfold emin; lia].
    change (2 ^ 53)%Z with (2 * 2 ^ 52)%Z. lia. }
  assert (Hm : inject_Z n + (1 # 2) < pow2 emax).
  { assert (inject_Z n < inject_Z (2 ^ 52)) by (rewrite <- Zlt_Qlt; lia).
    assert (inject_Z (2 ^ 52) + 1 <= pow2 emax).
    { unfold emax. rewrite pow2_Z by lia.
      change 1 with (inject_Z 1). rewrite <- inject_Z_plus, <- Zle_Qle.
      assert (2 ^ 53 < 2 ^ 1024)%Z by (apply Z.pow_lt_mono_r; lia).
      change (2 ^ 53)%Z with (2 * 2 ^ 52)%Z in *. lia. }
    lra. }
  destruct (int_round_small q _ H0 H HB Hm) as (E & R0 & R1).
  exists (Qfloor (rnd q)). split; [exact E |].
  pose proof (Qfloor_resp_le _ _ R0) as K0. change (Qfloor 0) with 0%Z in K0.
  split; [exact K0 |].
  pose proof (Qfloor_le (rnd q)) as F.
  assert (L : inject_Z (Qfloor (rnd q)) < inject_Z (n + 1)).
  { rewrite inject_Z_plus. change (inject_Z 1) with 1. lra. }
  rewrite <- Zlt_Qlt in L. lia.
Qed.

Lemma float_of_int_exact n :
  (0 <= n <= 2 ^ 53)%Z ->
  float_of_int n = Ok (rnd (inject_Z n)) /\ rnd (inject_Z n) == inject_Z n.
Proof.
  intros H. pose proof (rnd_int n H) as E. split; [| exact E].
  unfold float_of_int, round_to_float. cbv zeta.
  rewrite (overflows_small (rnd (inject_Z n)) (inject_Z (2 ^ 53))); [reflexivity | | |].
  - rewrite E. change 0 with (inject_Z 0). rewrite <- Zle_Qle. lia.
  - rewrite E. rewrite <- Zle_Qle. lia.
  - unfold emax. rewrite pow2_Z by lia. rewrite <- Zlt_Qlt.
    apply Z.pow_lt_mono_r; lia.
Qed.

Lemma int_mul_float_exact n y :
  (0 <= n <= 2 ^ 53)%Z ->
  bind (int_mul_float n y) int_of_float = int_round (inject_Z n * y).
Proof.
  intros H. destruct (float_of_int_exact n H) as [E1 E2].
  unfold int_mul_float. rewrite E1. simpl. unfold float_mul.
  fold (int_round (rnd (inject_Z n) * y)). apply int_round_comp.
  rewrite E2. reflexivity.
Qed.

Lemma int_div_float_exact n y :
  (0 <= n <= 2 ^ 53)%Z -> ~ y == 0 ->
  bind (int_div_float n y) int_of_float = int_round (inject_Z n / y).
Proof.
  intros H Hy. destruct (float_of_int_exact n H) as [E1 E2].
  unfold int_div_float. rewrite E1. simpl. unfold float_truediv.
  destruct (Qeq_bool y 0) eqn:B; [apply Qeq_bool_iff in B; contradiction |].
  simpl. fold (int_round (rnd (inject_Z n) / y)). apply int_round_comp.
  rewrite E2. reflexivity.
Qed.

Lemma int_truediv_Ok a b r :
  int_truediv a b = Ok r ->
  b <> 0%Z /\ r = rnd (inject_Z a / inject_Z b) /\ overflows r = false.
Proof.
  unfold int_truediv, round_to_float. cbv zeta.
  destruct (Z.eqb_spec b 0) as [-> | N]; [discriminate |].
  destruct (overflows (rnd (inject_Z a / inject_Z b))) eqn:O; [discriminate |].
  intros [= <-]. auto.
Qed.

Lemma float_gt_true x y : float_gt x y = true <-> y < x.
Proof.
  unfold float_gt. destruct (Qle_bool x y) eqn:E; simpl.
  - apply Qle_bool_iff in E. split; [discriminate | intros; lra].
  - split; [intros _ | reflexivity].
    apply Qnot_le_lt. intros H. apply Qle_bool_iff in H. congruence.
Qed.

Lemma float_gt_false x y : float_gt x y = false <-> x <= y.
Proof.
  unfold float_gt. destruct (Qle_bool x y) eqn:E; simpl.
  - apply Qle_bool_iff in E. split; [intros _; exact E | reflexivity].
  - split; [discriminate |]. intros H. apply Qle_bool_iff in H. congruence.
Qed.


Lemma floor_even_bounds n : (n - 1 <= floor_even n <= n)%Z.
Proof. unfold floor_even. pose proof (Z.div_mod n 2 ltac:(lia)). pose proof (Z.mod_pos_bound n 2 ltac:(lia)). lia. Qed.

Lemma floor_even_le n m : (n <= m)%Z -> (floor_even n <= floor_even m)%Z.
Proof.
  intros H. unfold floor_even.
  pose proof (Z.div_le_mono n m 2 ltac:(lia) H). lia.
Qed.

Lemma floor_even_nonneg n : (0 <= n)%Z -> (0 <= floor_even n)%Z.
Proof. intros H. pose proof (floor_even_le 0 n H) as K. exact K. Qed.

End Py_facts.

(** ** The stages of the crop calculators *)

Module crop_facts.
Import Binary64 Binary64_facts Py Py_facts crop_stages.
Local Open Scope Q_scope.

Ltac nonneg := first [lra | apply Qmult_le_0_compat; nonneg].
Ltac prod a b :=
  let H := fresh "Pr" in
  assert (H : 0 <= a * b) by nonneg.

Lemma inject_Z_nonneg n : (0 <= n)%Z -> 0 <= inject_Z n.
Proof. intros H. change 0 with (inject_Z 0). rewrite <- Zle_Qle. exact H. Qed.

Lemma inject_Z_pos n : (0 < n)%Z -> 0 < inject_Z n.
Proof. intros H. change 0 with (inject_Z 0). rewrite <- Zlt_Qlt. exact H. Qed.

Lemma inject_Z_ge_1 n : (0 < n)%Z -> 1 <= inject_Z n.
Proof. intros H. change 1 with (inject_Z 1). rewrite <- Zle_Qle. lia. Qed.

Lemma inject_Z_lt_pow52 n : (n < 2 ^ 52)%Z -> inject_Z n + 1 <= pow2 52.
Proof.
  intros H. rewrite pow2_Z by lia. change 1 with (inject_Z 1).
  rewrite <- inject_Z_plus, <- Zle_Qle. lia.
Qed.

Lemma scaled_bounds n zoom :
  (0 <= n <= 2 ^ 53)%Z -> 1 <= zoom ->
  exists c, scaled n zoom = Ok c /\ (0 <= c <= n)%Z.
Proof.
  intros Hn Hz. unfold scaled.
  rewrite int_div_float_exact by (try exact Hn; lra).
  pose proof (inject_Z_nonneg n ltac:(lia)) as N0.
  apply int_round_le_int; [| | lia].
  - apply Qle_shift_div_l; lra.
  - apply Qle_shift_div_r; [lra | nra].
Qed.

Lemma position_bounds d pan :
  (0 <= d <= 2 ^ 53)%Z -> 0 <= pan -> pan <= 1 ->
  exists x, position d pan = Ok x /\ (0 <= x <= d)%Z.
Proof.
  intros Hd H0 H1. unfold position.
  rewrite int_mul_float_exact by exact Hd.
  pose proof (inject_Z_nonneg d ltac:(lia)) as D0.
  apply int_round_le_int; [nra | nra | lia].
Qed.

(** Without a bound on [d]: the conversion of [d] to a float keeps its
    sign, multiplication by a pan fraction and truncation are monotone. *)
Lemma position_inv d pan x :
  position d pan = Ok x ->
  exists r, float_of_int d = Ok r /\ r = rnd (inject_Z d)
            /\ x = trunc (rnd (r * pan)).
Proof.
  unfold position, int_mul_float, float_of_int, float_mul, round_to_float.
  cbv zeta. destruct (overflows (rnd (inject_Z d))); [discriminate |].
  simpl. destruct (overflows (rnd (rnd (inject_Z d) * pan))); [discriminate |].
  simpl. intros [= <-]. eauto.
Qed.

Lemma position_nonpos d pan x :
  (d <= 0)%Z -> 0 <= pan -> position d pan = Ok x -> (x <= 0)%Z.
Proof.
  intros Hd Hp H. destruct (position_inv d pan x H) as (r & _ & -> & ->).
  apply trunc_nonpos, rnd_nonpos.
  assert (D : inject_Z d <= 0) by (change 0 with (inject_Z 0); rewrite <- Zle_Qle; exact Hd).
  pose proof (rnd_nonpos _ D). nra.
Qed.

Lemma position_mono d pan1 pan2 x1 x2 :
  (0 <= d)%Z -> 0 <= pan1 -> pan1 <= pan2 ->
  position d pan1 = Ok x1 -> position d pan2 = Ok x2 -> (x1 <= x2)%Z.
Proof.
  intros Hd H0 H H1 H2.
  destruct (position_inv d pan1 x1 H1) as (r & _ & -> & ->).
  destruct (position_inv d pan2 x2 H2) as (r & _ & -> & ->).
  pose proof (rnd_nonneg _ (inject_Z_nonneg d Hd)) as R.
  apply trunc_le.
  - apply rnd_nonneg. nra.
  - apply rnd_le; nra.
Qed.

Lemma int_div_float_zero n y :
  (0 <= n <= 2 ^ 53)%Z -> y == 0 ->
  bind (int_div_float n y) int_of_float = Raise ZeroDivisionError.
Proof.
  intros H Hy. destruct (float_of_int_exact n H) as [E1 _].
  unfold int_div_float. rewrite E1. simpl. unfold float_truediv.
  destruct (Qeq_bool y 0) eqn:B; [reflexivity |].
  apply Qeq_bool_neq in B. contradiction.
Qed.

(** An output aspect ratio is a float: if it is below the float nearest to
    [q], it is at most [q] itself. *)
Lemma float_lt_rnd a q : 0 <= a -> 0 <= q -> rnd a == a -> a < rnd q -> a <= q.
Proof.
  intros Ha Hq Ea L. destruct (Qlt_le_dec q a) as [C | C]; [| exact C].
  pose proof (rnd_le q a Hq ltac:(lra)) as K. rewrite Ea in K. lra.
Qed.

Lemma float_gt_rnd a q : 0 <= a -> 0 <= q -> rnd a == a -> rnd q < a -> q <= a.
Proof.
  intros Ha Hq Ea L. destruct (Qlt_le_dec a q) as [C | C]; [| exact C].
  pose proof (rnd_le a q Ha ltac:(lra)) as K. rewrite Ea in K. lra.
Qed.

Lemma ratio_normal a b :
  (0 < a)%Z -> (0 < b < 2 ^ 52)%Z -> pow2 (emin + 52) <= inject_Z a / inject_Z b.
Proof.
  intros Ha Hb.
  pose proof (inject_Z_ge_1 a Ha) as A1. pose proof (inject_Z_pos b ltac:(lia)) as B0.
  pose proof (inject_Z_lt_pow52 b ltac:(lia)) as B1.
  pose proof (pow2_le (emin + 52) (-52) ltac:(unfold emin; lia)) as P.
  assert (E : pow2 (-52) * pow2 52 == 1) by (rewrite <- pow2_add; reflexivity).
  pose proof (pow2_pos (-52)) as P0.
  apply Qle_shift_div_l; [exact B0 |]. nra.
Qed.

Lemma ratio_mul a b : (0 < b)%Z -> inject_Z a / inject_Z b * inject_Z b == inject_Z a.
Proof. intros Hb. pose proof (inject_Z_pos b Hb). field. lra. Qed.

Lemma ratio_nonneg a b : (0 <= a)%Z -> (0 < b)%Z -> 0 <= inject_Z a / inject_Z b.
Proof.
  intros Ha Hb. pose proof (inject_Z_nonneg a Ha). pose proof (inject_Z_pos b Hb).
  apply Qle_shift_div_l; lra.
Qed.

Lemma ulp_half : pow2 (-53) * pow2 52 == 1 # 2.
Proof. rewrite <- pow2_add. reflexivity. Qed.

(** Shrinking the width: the output aspect ratio [oa] is a float below the
    float of the crop's aspect ratio, so it is at most the crop's aspect
    ratio itself. *)
Lemma shrink_width oa cw1 ch1 :
  0 <= oa -> rnd oa == oa ->
  (0 <= cw1 <= 2 ^ 53)%Z -> (0 < ch1 <= 2 ^ 53)%Z ->
  oa < rnd (inject_Z cw1 / inject_Z ch1) ->
  exists c, bind (int_mul_float ch1 oa) int_of_float = Ok c /\ (0 <= c <= cw1)%Z.
Proof.
  intros Oa Ia Hcw Hch G.
  pose proof (ratio_nonneg cw1 ch1 ltac:(lia) ltac:(lia)) as F0.
  pose proof (ratio_mul cw1 ch1 ltac:(lia)) as FM.
  pose proof (inject_Z_pos ch1 ltac:(lia)) as H1.
  pose proof (float_lt_rnd oa _ Oa F0 Ia G) as L.
  rewrite int_mul_float_exact by lia.
  apply int_round_le_int; [nonneg | | lia].
  revert FM L. generalize (inject_Z cw1 / inject_Z ch1). intros F FM L.
  prod (inject_Z ch1) (F - oa). lra.
Qed.

(** Shrinking the height: the float of the crop's aspect ratio is within a
    relative 2^-53 of it, and the quotient stays below [ch1 + 1/2]. *)
Lemma shrink_height oa cw1 ch1 :
  0 < oa -> (0 <= cw1 < 2 ^ 52)%Z -> (0 < ch1 < 2 ^ 52)%Z ->
  rnd (inject_Z cw1 / inject_Z ch1) <= oa ->
  exists c, bind (int_div_float cw1 oa) int_of_float = Ok c /\ (0 <= c <= ch1)%Z.
Proof.
  intros Pa Hcw Hch G.
  assert (P53 : (2 ^ 53 = 2 * 2 ^ 52)%Z) by reflexivity.
  pose proof (ratio_nonneg cw1 ch1 ltac:(lia) ltac:(lia)) as F0.
  pose proof (ratio_mul cw1 ch1 ltac:(lia)) as FM.
  pose proof (inject_Z_pos ch1 ltac:(lia)) as H1.
  pose proof (inject_Z_nonneg cw1 ltac:(lia)) as C1.
  rewrite int_div_float_exact by (try lia; lra).
  apply int_round_le_half; [| | lia].
  - apply Qle_shift_div_l; lra.
  - apply Qle_shift_div_r; [exact Pa |].
    destruct (Z.eq_dec cw1 0%Z) as [-> | Ncw].
    { change (inject_Z 0) with 0. prod (inject_Z ch1 + (1 # 2)) oa. lra. }
    pose proof (ratio_normal cw1 ch1 ltac:(lia) ltac:(lia)) as Nr.
    destruct (rnd_err _ Nr) as [Lo _].
    pose proof (inject_Z_lt_pow52 ch1 ltac:(lia)) as B1.
    pose proof ulp_half as U. pose proof (pow2_pos (-53)) as U0.
    revert FM F0 G Lo. generalize (inject_Z cw1 / inject_Z ch1). intros F FM F0 G Lo.
    revert Lo U U0. generalize (pow2 (-53)). intros u Lo U U0.
    assert (K : 0 <= F * ((inject_Z ch1 + (1 # 2)) * (1 - u) - inject_Z ch1)).
    { apply Qmult_le_0_compat; [exact F0 |].
      prod u (pow2 52 - (inject_Z ch1 + 1)). lra. }
    prod (inject_Z ch1 + (1 # 2)) (oa - (F - F * u)). lra.
Qed.

(** Fitting by the crop's aspect ratio never enlarges the crop. *)
Lemma fit_crop_aspect_bounds ow oh cw1 ch1 cw2 ch2 :
  (0 < ow)%Z -> (0 < oh)%Z -> (0 <= cw1 < 2 ^ 52)%Z -> (0 <= ch1 < 2 ^ 52)%Z ->
  fit_crop_aspect ow oh cw1 ch1 = Ok (cw2, ch2) ->
  (0 <= cw2 <= cw1)%Z /\ (0 <= ch2 <= ch1)%Z.
Proof.
  intros How Hoh Hcw Hch H. unfold fit_crop_aspect in H.
  assert (P53 : (2 ^ 53 = 2 * 2 ^ 52)%Z) by reflexivity.
  destruct (int_truediv ow oh) as [oa |] eqn:Eoa; [| discriminate]. simpl in H.
  destruct (int_truediv cw1 ch1) as [ca |] eqn:Eca; [| discriminate]. simpl in H.
  destruct (int_truediv_Ok _ _ _ Eoa) as (_ & Hoa & _).
  destruct (int_truediv_Ok _ _ _ Eca) as (Nch & Hca & _).
  pose proof (ratio_nonneg ow oh ltac:(lia) Hoh) as A0.
  assert (Ia : rnd oa == oa) by (subst oa; apply rnd_idem, A0).
  assert (Oa : 0 <= oa) by (subst oa; apply rnd_nonneg, A0).
  destruct (float_gt ca oa) eqn:G.
  - apply float_gt_true in G. subst ca.
    destruct (shrink_width oa cw1 ch1 Oa Ia ltac:(lia) ltac:(lia) G) as (c & Ec & Bc).
    rewrite Ec in H. simpl in H. injection H as <- <-. lia.
  - apply float_gt_false in G. subst ca.
    destruct (Qeq_dec oa 0) as [Z | N].
    { rewrite int_div_float_zero in H by (try exact Z; lia). discriminate. }
    assert (Pa : 0 < oa) by (assert (~ oa == 0 -> 0 <= oa -> 0 < oa) as K by (intros; lra); auto).
    destruct (shrink_height oa cw1 ch1 Pa ltac:(lia) ltac:(lia) G) as (c & Ec & Bc).
    rewrite Ec in H. simpl in H. injection H as <- <-. lia.
Qed.

(** Fitting by the sensor's aspect ratio keeps the crop within the sensor. *)
Lemma fit_sensor_aspect_bounds sw sh ow oh cw1 ch1 cw2 ch2 :
  (0 < ow)%Z -> (0 < oh)%Z -> (0 < sw < 2 ^ 52)%Z -> (0 < sh < 2 ^ 52)%Z ->
  (0 <= cw1 <= sw)%Z -> (0 <= ch1 <= sh)%Z ->
  fit_sensor_aspect sw sh ow oh cw1 ch1 = Ok (cw2, ch2) ->
  (0 <= cw2 <= sw)%Z /\ (0 <= ch2 <= sh)%Z.
Proof.
  intros How Hoh Hsw Hsh Hcw Hch H. unfold fit_sensor_aspect in H.
  destruct (int_truediv ow oh) as [oa |] eqn:Eoa; [| discriminate]. simpl in H.
  destruct (int_truediv sw sh) as [sa |] eqn:Esa; [| discriminate]. simpl in H.
  destruct (int_truediv_Ok _ _ _ Eoa) as (_ & Hoa & _).
  destruct (int_truediv_Ok _ _ _ Esa) as (_ & Hsa & _).
  pose proof (ratio_nonneg ow oh ltac:(lia) Hoh) as A0.
  pose proof (ratio_nonneg sw sh ltac:(lia) ltac:(lia)) as S0.
  pose proof (ratio_mul sw sh ltac:(lia)) as SM.
  pose proof (ratio_normal sw sh ltac:(lia) ltac:(lia)) as SN.
  pose proof (inject_Z_pos sh ltac:(lia)) as H1.
  pose proof (inject_Z_pos sw ltac:(lia)) as W1.
  pose proof (inject_Z_nonneg cw1 ltac:(lia)) as C0.
  pose proof (inject_Z_nonneg ch1 ltac:(lia)) as C1.
  assert (Cw : inject_Z cw1 <= inject_Z sw) by (rewrite <- Zle_Qle; lia).
  assert (Ch : inject_Z ch1 <= inject_Z sh) by (rewrite <- Zle_Qle; lia).
  assert (Ia : rnd oa == oa) by (subst oa; apply rnd_idem, A0).
  assert (Oa : 0 <= oa) by (subst oa; apply rnd_nonneg, A0).
  revert SM S0 SN Hsa. generalize (inject_Z sw / inject_Z sh). intros S SM S0 SN Hsa.
  destruct (float_gt oa sa) eqn:G.
  - apply float_gt_true in G. subst sa.
    pose proof (float_gt_rnd oa S Oa S0 Ia G) as L.
    pose proof (rnd_nonneg S S0) as R0.
    assert (N : ~ oa == 0) by lra.
    rewrite int_div_float_exact in H by (try exact N; lia).
    destruct (int_round_le_int (inject_Z cw1 / oa) sh) as (c & Ec & Bc); [| | lia |].
    + apply Qle_shift_div_l; lra.
    + apply Qle_shift_div_r; [lra | nra].
    + rewrite Ec in H. simpl in H. injection H as <- <-. lia.
  - apply float_gt_false in G. subst sa.
    destruct (rnd_err S SN) as [_ Hi].
    pose proof (inject_Z_lt_pow52 sw ltac:(lia)) as B1.
    pose proof ulp_half as U. pose proof (pow2_pos (-53)) as U0.
    revert Hi U U0. generalize (pow2 (-53)). intros u Hi U U0.
    rewrite int_mul_float_exact in H by lia.
    destruct (int_round_le_half (inject_Z ch1 * oa) sw) as (c & Ec & Bc); [nra | | lia |].
    + assert (K1 : inject_Z ch1 * oa <= inject_Z sh * (S + S * u)) by nra.
      nra.
    + rewrite Ec in H. simpl in H. injection H as <- <-. lia.
Qed.

(** *** How far truncation and rounding move the aspect ratio *)

Lemma int_round_floor q c :
  0 <= q -> int_round q = Ok c -> inject_Z c <= rnd q /\ rnd q < inject_Z c + 1.
Proof.
  intros H E. rewrite int_round_eq in E.
  destruct (overflows (rnd q)); [discriminate |]. injection E as <-.
  rewrite (trunc_nonneg _ (rnd_nonneg q H)).
  pose proof (Qfloor_le (rnd q)). pose proof (Qlt_floor (rnd q)) as L.
  rewrite inject_Z_plus in L. change (inject_Z 1) with 1 in L. auto.
Qed.

Lemma inject_Z_lt_pow52' n : (n < 2 ^ 52)%Z -> inject_Z n <= pow2 52.
Proof. intros H. pose proof (inject_Z_lt_pow52 n H). lra. Qed.

(** an output aspect ratio of sizes below 2^52, and its float *)
Lemma output_aspect_err ow oh oa :
  (0 < ow < 2 ^ 52)%Z -> (0 < oh < 2 ^ 52)%Z -> int_truediv ow oh = Ok oa ->
  let A := inject_Z ow / inject_Z oh in
  A * inject_Z oh == inject_Z ow /\ pow2 (-52) <= A /\ A <= pow2 52
  /\ A - A * pow2 (-53) <= oa /\ oa <= A + A * pow2 (-53).
Proof.
  intros How Hoh E A.
  destruct (int_truediv_Ok _ _ _ E) as (_ & -> & _).
  pose proof (ratio_mul ow oh ltac:(lia)) as M. fold A in M.
  pose proof (inject_Z_ge_1 ow ltac:(lia)) as W1.
  pose proof (inject_Z_ge_1 oh ltac:(lia)) as H1.
  pose proof (inject_Z_lt_pow52' ow ltac:(lia)) as W2.
  pose proof (inject_Z_lt_pow52' oh ltac:(lia)) as H2.
  assert (E52 : pow2 (-52) * pow2 52 == 1) by (rewrite <- pow2_add; reflexivity).
  pose proof (pow2_pos (-52)) as P0. pose proof (pow2_pos 52) as P1.
  assert (Lo : pow2 (-52) <= A).
  { unfold A. apply Qle_shift_div_l; [lra | nra]. }
  assert (Hi : A <= pow2 52).
  { unfold A. apply Qle_shift_div_r; [lra | nra]. }
  pose proof (pow2_le (emin + 52) (-52) ltac:(unfold emin; lia)) as N.
  destruct (rnd_err A ltac:(lra)) as [R1 R2].
  fold A. auto.
Qed.

(** The arithmetic of the two error bounds, on rationals: [u] is the unit
    roundoff 2^-53 and [T] is 2^52. *)
Lemma scale_err_bound (u T H A oa P W D C : Q) :
  u * T == 1 # 2 -> 0 < u -> u <= 1 # 2 -> 
  H * oa - H * oa * u <= P -> P <= H * oa + H * oa * u ->
  A - A * u <= oa -> oa <= A + A * u -> H + 1 <= T ->
  1 <= W -> 1 <= D -> 0 <= H -> 1 <= H -> A * D == W -> C <= P -> P < C + 1 -> 0 <= A -> 0 <= oa ->
  H * W < C * D + W + D /\ C * D < H * W + W.
Proof.
  intros U U0 U1 R1 R2 A1 A2 N1 W1 H1 N0 N2 M F1 F2 A0 Oa.
  assert (UH : u * H <= (1 # 2) - u).
  { prod u (T - (H + 1)). lra. }
  assert (K1 : H * oa <= H * A + H * A * u).
  { prod H (A + A * u - oa). lra. }
  assert (K2 : H * A - H * A * u <= H * oa).
  { prod H (oa - (A - A * u)). lra. }
  assert (K3 : H * A * D == H * W) by (rewrite <- M; ring).
  assert (T0 : 0 <= H * A) by (apply Qmult_le_0_compat; lra).
  assert (T1 : 0 <= H * oa) by (apply Qmult_le_0_compat; lra).
  assert (T2 : 0 <= H * A * u) by (apply Qmult_le_0_compat; lra).
  assert (K4 : H * oa * u <= H * A * u + H * A * u * u).
  { assert (0 <= u * (H * A + H * A * u - H * oa)) by (apply Qmult_le_0_compat; lra). lra. }
  assert (L1 : P <= H * A + 2 * (H * A * u) + H * A * u * u) by lra.
  assert (L0 : H * A - 2 * (H * A * u) - H * A * u * u <= P) by lra.
  assert (WU : 2 * (H * W * u) + H * W * u * u < W).
  { assert (E : 2 * (H * W * u) + H * W * u * u == W * ((u * H) * (2 + u))) by ring.
    rewrite E.
    assert ((u * H) * (2 + u) < 1).
    { prod ((1#2) - u - u * H) (2 + u). prod u u.
      assert (0 < u * u) by (apply Qmult_lt_0_compat; lra). lra. }
    assert (0 <= W * (1 - (u * H) * (2 + u))) by (apply Qmult_le_0_compat; lra).
    assert (0 < W * (1 - (u * H) * (2 + u))) by (apply Qmult_lt_0_compat; lra).
    lra. }
  split.
  - assert (L2 : (H * A) * D - 2 * ((H * A) * D * u) - (H * A) * D * u * u <= P * D).
    { prod D (P - (H * A - 2 * (H * A * u) - H * A * u * u)). lra. }
    rewrite K3 in L2.
    assert (PD : P * D < C * D + D).
    { assert (0 < D * (C + 1 - P)) by (apply Qmult_lt_0_compat; lra). lra. }
    assert (0 <= H * W * u * u).
    { repeat apply Qmult_le_0_compat; lra. }
    lra.
  - assert (L2 : P * D <= (H * A) * D + 2 * ((H * A) * D * u) + (H * A) * D * u * u).
    { prod D (H * A + 2 * (H * A * u) + H * A * u * u - P). lra. }
    rewrite K3 in L2.
    assert (PD : C * D <= P * D).
    { prod D (P - C). lra. }
    lra.
Qed.

Lemma divide_err_bound (u T A oa P q W D C1 C : Q) :
  u * T == 1 # 2 -> 0 < u -> u <= 1 # 2 ->
  q - q * u <= P -> P <= q + q * u -> q * oa == C1 ->
  A - A * u <= oa -> oa <= A + A * u -> C1 + 1 <= T ->
  1 <= W -> 1 <= D -> 1 <= C1 -> A * D == W -> C <= P -> P < C + 1 ->
  0 <= A -> 0 <= q ->
  C1 * D < C * W + W + D /\ C * W < C1 * D + D.
Proof.
  intros U U0 U1 R1 R2 Q A1 A2 N1 W1 H1 N2 M F1 F2 A0 Q0.
  assert (UC : u * C1 <= (1 # 2) - u).
  { prod u (T - (C1 + 1)). lra. }
  assert (B1 : q * A - q * A * u <= C1).
  { prod q (oa - (A - A * u)). lra. }
  assert (B2 : C1 <= q * A + q * A * u).
  { prod q (A + A * u - oa). lra. }
  assert (D0 : 0 <= q * A) by (apply Qmult_le_0_compat; lra).
  assert (UD : 2 * (u * C1 * D) <= D - 2 * u * D).
  { prod D ((1 # 2) - u - u * C1). lra. }
  split.
  - (* (C+1) W (1+u) > C1 D (1-u) *)
    assert (S1 : q * A * D - q * A * D * u <= P * W).
    { rewrite <- M. prod (A * D) (P - (q - q * u)). lra. }
    assert (S2 : P * W < C * W + W).
    { assert (0 < W * (C + 1 - P)) by (apply Qmult_lt_0_compat; lra). lra. }
    assert (S3 : C1 * D <= q * A * D + q * A * D * u).
    { prod D (q * A + q * A * u - C1). lra. }
    assert (S4 : C1 * D - C1 * D * u <= q * A * D - q * A * D * u * u).
    { prod (D * (1 - u)) (q * A + q * A * u - C1).
      lra. }
    assert (S5 : 0 <= q * A * D * u * u).
    { repeat apply Qmult_le_0_compat; lra. }
    (* Y := C W + W ; Y (1+u) > q A D (1-u)(1+u) >= C1 D (1 - u) *)
    assert (S6 : (C1 * D - D) * (1 + u) < (C * W + W) * (1 + u)).
    { assert (S7 : q * A * D * (1 - u) * (1 + u) <= P * W * (1 + u)).
      { prod (1 + u) (P * W - (q * A * D - q * A * D * u)). lra. }
      assert (S8 : P * W * (1 + u) < (C * W + W) * (1 + u)).
      { assert (0 < (1 + u) * (C * W + W - P * W)) by (apply Qmult_lt_0_compat; lra). lra. }
      prod u D. lra. }
    apply Qmult_lt_r in S6; lra.
  - assert (S1 : P * W <= q * A * D + q * A * D * u).
    { rewrite <- M. prod (A * D) (q + q * u - P). lra. }
    assert (S2 : C * W <= P * W).
    { prod W (P - C). lra. }
    assert (S4 : q * A * D - q * A * D * u * u <= C1 * D + C1 * D * u).
    { prod (D * (1 + u)) (C1 - (q * A - q * A * u)). lra. }
    assert (S6 : (C * W) * (1 - u) < (C1 * D + D) * (1 - u)).
    { assert (S7 : C * W * (1 - u) <= (q * A * D + q * A * D * u) * (1 - u)).
      { prod (1 - u) (q * A * D + q * A * D * u - C * W). lra. }
      prod u D.
      assert (0 < u * D) by (apply Qmult_lt_0_compat; lra).
      lra. }
    apply Qmult_lt_r in S6; lra.
Qed.

(** [c = int(h * output_aspect)] *)
Lemma scale_by_aspect ow oh oa h c :
  (0 < ow < 2 ^ 52)%Z -> (0 < oh < 2 ^ 52)%Z -> (0 <= h < 2 ^ 52)%Z ->
  int_truediv ow oh = Ok oa ->
  bind (int_mul_float h oa) int_of_float = Ok c ->
  (h * ow < c * oh + ow + oh /\ c * oh < h * ow + ow)%Z.
Proof.
  intros How Hoh Hh Eoa E.
  destruct (output_aspect_err ow oh oa How Hoh Eoa) as (M & Lo & Hi & A1 & A2).
  rewrite int_mul_float_exact in E by lia.
  pose proof (inject_Z_ge_1 ow ltac:(lia)) as W1.
  pose proof (inject_Z_ge_1 oh ltac:(lia)) as H1.
  pose proof (inject_Z_nonneg h ltac:(lia)) as N0.
  pose proof (inject_Z_lt_pow52 h ltac:(lia)) as N1.
  pose proof ulp_half as U. pose proof (pow2_pos (-53)) as U0.
  pose proof (pow2_pos (-52)) as U2.
  assert (E52 : pow2 (-52) == 2 * pow2 (-53)).
  { change 2 with (pow2 1). rewrite <- pow2_add. reflexivity. }
  assert (U1 : pow2 (-53) <= 1 # 2).
  { change (1 # 2) with (pow2 (-1)). apply pow2_le. lia. }
  assert (A0 : 0 <= inject_Z ow / inject_Z oh) by lra.
  assert (Oa : pow2 (-53) <= oa).
  { rewrite E52 in Lo.
    prod (inject_Z ow / inject_Z oh - 2 * pow2 (-53)) (1 - pow2 (-53)).
    prod (pow2 (-53)) ((1 # 2) - pow2 (-53)). lra. }
  destruct (int_round_floor (inject_Z h * oa) c ltac:(nonneg) E) as [F1 F2].
  rewrite !Zlt_Qlt, !inject_Z_plus, !inject_Z_mult.
  destruct (Z.eq_dec h 0%Z) as [-> | Nh].
  { change (inject_Z 0) with 0 in *.
    rewrite (rnd_zero (0 * oa)) in F1, F2 by lra.
    assert (Ec : c = 0%Z).
    { assert (inject_Z c < inject_Z 1) by (change (inject_Z 1) with 1; lra).
      assert (inject_Z (-1) < inject_Z c) by (change (inject_Z (-1)) with (-1); lra).
      rewrite <- Zlt_Qlt in *. lia. }
    subst c. change (inject_Z 0) with 0. lra. }
  pose proof (inject_Z_ge_1 h ltac:(lia)) as N2.
  assert (Nq : pow2 (emin + 52) <= inject_Z h * oa).
  { pose proof (pow2_le (emin + 52) (-53) ltac:(unfold emin; lia)).
    prod (inject_Z h - 1) oa. lra. }
  destruct (rnd_err _ Nq) as [R1 R2].
  apply (scale_err_bound (pow2 (-53)) (pow2 52) (inject_Z h)
           (inject_Z ow / inject_Z oh) oa (rnd (inject_Z h * oa)));
    try assumption; lra.
Qed.

(** [c = int(w / output_aspect)] *)
Lemma divide_by_aspect ow oh oa w c :
  (0 < ow < 2 ^ 52)%Z -> (0 < oh < 2 ^ 52)%Z -> (0 <= w < 2 ^ 52)%Z ->
  int_truediv ow oh = Ok oa ->
  bind (int_div_float w oa) int_of_float = Ok c ->
  (w * oh < c * ow + ow + oh /\ c * ow < w * oh + oh)%Z.
Proof.
  intros How Hoh Hw Eoa E.
  destruct (output_aspect_err ow oh oa How Hoh Eoa) as (M & Lo & Hi & A1 & A2).
  pose proof (inject_Z_ge_1 ow ltac:(lia)) as W1.
  pose proof (inject_Z_ge_1 oh ltac:(lia)) as H1.
  pose proof (inject_Z_nonneg w ltac:(lia)) as N0.
  pose proof (inject_Z_lt_pow52 w ltac:(lia)) as N1.
  pose proof ulp_half as U. pose proof (pow2_pos (-53)) as U0.
  pose proof (pow2_pos (-52)) as U2. pose proof (pow2_pos 52) as U3.
  assert (E52 : pow2 (-52) == 2 * pow2 (-53)).
  { change 2 with (pow2 1). rewrite <- pow2_add. reflexivity. }
  assert (E53 : pow2 53 == 2 * pow2 52).
  { change 2 with (pow2 1). rewrite <- pow2_add. reflexivity. }
  assert (E1 : pow2 (-53) * pow2 53 == 1) by (rewrite <- pow2_add; reflexivity).
  assert (U1 : pow2 (-53) <= 1 # 2).
  { change (1 # 2) with (pow2 (-1)). apply pow2_le. lia. }
  assert (A0 : 0 <= inject_Z ow / inject_Z oh) by lra.
  assert (Oa : pow2 (-53) <= oa).
  { rewrite E52 in Lo.
    prod (inject_Z ow / inject_Z oh - 2 * pow2 (-53)) (1 - pow2 (-53)).
    prod (pow2 (-53)) ((1 # 2) - pow2 (-53)). lra. }
  assert (Ob : oa <= pow2 53).
  { prod (pow2 52 - inject_Z ow / inject_Z oh) (1 + pow2 (-53)). lra. }
  assert (Na : ~ oa == 0) by lra.
  rewrite int_div_float_exact in E by (try exact Na; lia).
  assert (Qm : inject_Z w / oa * oa == inject_Z w) by (field; exact Na).
  assert (Q0 : 0 <= inject_Z w / oa) by (apply Qle_shift_div_l; lra).
  destruct (int_round_floor (inject_Z w / oa) c Q0 E) as [F1 F2].
  rewrite !Zlt_Qlt, !inject_Z_plus, !inject_Z_mult.
  destruct (Z.eq_dec w 0%Z) as [-> | Nw].
  { change (inject_Z 0) with 0 in *.
    rewrite (rnd_zero (0 / oa)) in F1, F2 by (field; exact Na).
    assert (Ec : c = 0%Z).
    { assert (inject_Z c < inject_Z 1) by (change (inject_Z 1) with 1; lra).
      assert (inject_Z (-1) < inject_Z c) by (change (inject_Z (-1)) with (-1); lra).
      rewrite <- Zlt_Qlt in *. lia. }
    subst c. change (inject_Z 0) with 0. lra. }
  pose proof (inject_Z_ge_1 w ltac:(lia)) as N2.
  assert (Nq : pow2 (emin + 52) <= inject_Z w / oa).
  { pose proof (pow2_le (emin + 52) (-53) ltac:(unfold emin; lia)).
    assert (pow2 (-53) <= inject_Z w / oa); [| lra].
    apply Qle_shift_div_l; [lra |].
    prod (pow2 (-53)) (pow2 53 - oa). lra. }
  destruct (rnd_err _ Nq) as [R1 R2].
  apply (divide_err_bound (pow2 (-53)) (pow2 52) (inject_Z ow / inject_Z oh) oa
           (rnd (inject_Z w / oa)) (inject_Z w / oa));
    try assumption; lra.
Qed.

(** Either way of fitting leaves the crop within one output width plus one
    output height of the output aspect ratio. *)
Lemma fit_crop_aspect_ratio ow oh cw1 ch1 cw2 ch2 :
  (0 < ow < 2 ^ 52)%Z -> (0 < oh < 2 ^ 52)%Z ->
  (0 <= cw1 < 2 ^ 52)%Z -> (0 <= ch1 < 2 ^ 52)%Z ->
  fit_crop_aspect ow oh cw1 ch1 = Ok (cw2, ch2) ->
  (ch2 * ow < cw2 * oh + ow + oh /\ cw2 * oh < ch2 * ow + ow + oh)%Z.
Proof.
  intros How Hoh Hcw Hch H. unfold fit_crop_aspect in H.
  destruct (int_truediv ow oh) as [oa |] eqn:Eoa; [| discriminate]. cbn [bind] in H.
  destruct (int_truediv cw1 ch1) as [ca |] eqn:Eca; [| discriminate]. cbn [bind] in H.
  destruct (float_gt ca oa).
  - destruct (bind (int_mul_float ch1 oa) int_of_float) as [c |] eqn:Ec; [| discriminate].
    cbn [bind] in H. injection H as <- <-.
    pose proof (scale_by_aspect ow oh oa ch1 c How Hoh Hch Eoa Ec). lia.
  - destruct (bind (int_div_float cw1 oa) int_of_float) as [c |] eqn:Ec; [| discriminate].
    cbn [bind] in H. injection H as <- <-.
    pose proof (divide_by_aspect ow oh oa cw1 c How Hoh Hcw Eoa Ec). lia.
Qed.

Lemma fit_sensor_aspect_ratio sw sh ow oh cw1 ch1 cw2 ch2 :
  (0 < ow < 2 ^ 52)%Z -> (0 < oh < 2 ^ 52)%Z ->
  (0 <= cw1 < 2 ^ 52)%Z -> (0 <= ch1 < 2 ^ 52)%Z ->
  fit_sensor_aspect sw sh ow oh cw1 ch1 = Ok (cw2, ch2) ->
  (ch2 * ow < cw2 * oh + ow + oh /\ cw2 * oh < ch2 * ow + ow + oh)%Z.
Proof.
  intros How Hoh Hcw Hch H. unfold fit_sensor_aspect in H.
  destruct (int_truediv ow oh) as [oa |] eqn:Eoa; [| discriminate]. cbn [bind] in H.
  destruct (int_truediv sw sh) as [sa |] eqn:Esa; [| discriminate]. cbn [bind] in H.
  destruct (float_gt oa sa).
  - destruct (bind (int_div_float cw1 oa) int_of_float) as [c |] eqn:Ec; [| discriminate].
    cbn [bind] in H. injection H as <- <-.
    pose proof (divide_by_aspect ow oh oa cw1 c How Hoh Hcw Eoa Ec). lia.
  - destruct (bind (int_mul_float ch1 oa) int_of_float) as [c |] eqn:Ec; [| discriminate].
    cbn [bind] in H. injection H as <- <-.
    pose proof (scale_by_aspect ow oh oa ch1 c How Hoh Hch Eoa Ec). lia.
Qed.

(** *** Equal floats give equal results *)

Lemma bind_ext {A B : Type} (r : result A) (k1 k2 : A -> result B) :
  (forall a, k1 a = k2 a) -> bind r k1 = bind r k2.
Proof. intros H. destruct r; cbn [bind]; [apply H | reflexivity]. Qed.

Lemma int_mul_float_comp d pan pan' :
  pan == pan' ->
  bind (int_mul_float d pan) int_of_float = bind (int_mul_float d pan') int_of_float.
Proof.
  intros E. unfold int_mul_float.
  destruct (float_of_int d) as [r |]; cbn [bind]; [| reflexivity].
  unfold float_mul. change (int_round (r * pan) = int_round (r * pan')).
  apply int_round_comp. rewrite E. reflexivity.
Qed.

Lemma int_div_float_comp n zoom zoom' :
  zoom == zoom' ->
  bind (int_div_float n zoom) int_of_float = bind (int_div_float n zoom') int_of_float.
Proof.
  intros E. unfold int_div_float.
  destruct (float_of_int n) as [r |]; cbn [bind]; [| reflexivity].
  unfold float_truediv.
  assert (B : Qeq_bool zoom 0 = Qeq_bool zoom' 0).
  { destruct (Qeq_bool zoom 0) eqn:B1, (Qeq_bool zoom' 0) eqn:B2; try reflexivity.
    - apply Qeq_bool_iff in B1. apply Qeq_bool_neq in B2. exfalso. apply B2. lra.
    - apply Qeq_bool_iff in B2. apply Qeq_bool_neq in B1. exfalso. apply B1. lra. }
  rewrite <- B. destruct (Qeq_bool zoom 0); cbn [bind]; [reflexivity |].
  change (int_round (r / zoom) = int_round (r / zoom')).
  apply int_round_comp. rewrite E. reflexivity.
Qed.

(** *** The calculators return *)

Lemma int_round_ge_1 q c : 1 <= q -> int_round q = Ok c -> (1 <= c)%Z.
Proof.
  intros H E. rewrite int_round_eq in E.
  destruct (overflows (rnd q)); [discriminate |]. injection E as <-.
  pose proof (rnd_le 1 q ltac:(lra) H) as K.
  rewrite (rnd_int 1 ltac:(lia)) in K. change (inject_Z 1) with 1 in K.
  rewrite (trunc_nonneg (rnd q)) by lra.
  pose proof (Qfloor_resp_le 1 (rnd q) K) as F. exact F.
Qed.

Lemma scaled_returns n zoom :
  (0 < n <= 2 ^ 53)%Z -> 1 <= zoom -> zoom <= inject_Z n ->
  exists c, scaled n zoom = Ok c /\ (1 <= c <= n)%Z.
Proof.
  intros Hn Hz Hzn.
  destruct (scaled_bounds n zoom ltac:(lia) Hz) as (c & Ec & Bc).
  exists c. split; [exact Ec |]. split; [| lia].
  unfold scaled in Ec. rewrite int_div_float_exact in Ec by (try lia; lra).
  apply (int_round_ge_1 (inject_Z n / zoom) c); [| exact Ec].
  apply Qle_shift_div_l; lra.
Qed.

Lemma int_truediv_returns a b :
  (0 <= a <= 2 ^ 53)%Z -> (0 < b)%Z ->
  int_truediv a b = Ok (rnd (inject_Z a / inject_Z b)).
Proof.
  intros Ha Hb. unfold int_truediv, round_to_float. cbv zeta.
  destruct (Z.eqb_spec b 0) as [-> | _]; [lia |].
  pose proof (inject_Z_nonneg a ltac:(lia)) as A0.
  pose proof (inject_Z_ge_1 b Hb) as B1.
  pose proof (ratio_nonneg a b ltac:(lia) Hb) as Q0.
  assert (Q1 : inject_Z a / inject_Z b <= inject_Z a).
  { apply Qle_shift_div_r; [lra | nra]. }
  pose proof (rnd_le _ _ Q0 Q1) as K. rewrite (rnd_int a Ha) in K.
  rewrite (overflows_small _ (inject_Z (2 ^ 53)) (rnd_nonneg _ Q0)); [reflexivity | |].
  - assert (inject_Z a <= inject_Z (2 ^ 53)) by (rewrite <- Zle_Qle; lia). lra.
  - unfold emax. rewrite pow2_Z by lia. rewrite <- Zlt_Qlt.
    apply Z.pow_lt_mono_r; lia.
Qed.

Lemma fit_crop_aspect_returns ow oh cw1 ch1 :
  (0 < ow < 2 ^ 52)%Z -> (0 < oh < 2 ^ 52)%Z ->
  (0 <= cw1 < 2 ^ 52)%Z -> (0 < ch1 < 2 ^ 52)%Z ->
  exists cw2 ch2, fit_crop_aspect ow oh cw1 ch1 = Ok (cw2, ch2).
Proof.
  intros How Hoh Hcw Hch.
  assert (P53 : (2 ^ 53 = 2 * 2 ^ 52)%Z) by reflexivity.
  pose proof (int_truediv_returns ow oh ltac:(lia) ltac:(lia)) as Eoa.
  pose proof (int_truediv_returns cw1 ch1 ltac:(lia) ltac:(lia)) as Eca.
  pose proof (ratio_nonneg ow oh ltac:(lia) ltac:(lia)) as A0.
  destruct (output_aspect_err ow oh _ How Hoh Eoa) as (_ & Lo & _ & A1 & _).
  unfold fit_crop_aspect. rewrite Eoa, Eca. cbn [bind].
  revert Lo A1. generalize (rnd_idem _ A0) (rnd_nonneg _ A0).
  generalize (rnd (inject_Z ow / inject_Z oh)). intros oa Ia Oa Lo A1.
  destruct (float_gt _ oa) eqn:G.
  - apply float_gt_true in G.
    destruct (shrink_width oa cw1 ch1 Oa Ia ltac:(lia) ltac:(lia) G) as (c & Ec & _).
    rewrite Ec. cbn [bind]. eauto.
  - apply float_gt_false in G.
    assert (Pa : 0 < oa).
    { assert (E52 : pow2 (-52) == 2 * pow2 (-53)).
      { change 2 with (pow2 1). rewrite <- pow2_add. reflexivity. }
      assert (U1 : pow2 (-53) <= 1 # 2).
      { change (1 # 2) with (pow2 (-1)). apply pow2_le. lia. }
      pose proof (pow2_pos (-53)) as U0. rewrite E52 in Lo.
      prod (inject_Z ow / inject_Z oh - 2 * pow2 (-53)) (1 - pow2 (-53)).
      prod (pow2 (-53)) ((1 # 2) - pow2 (-53)). lra. }
    destruct (shrink_height oa cw1 ch1 Pa ltac:(lia) ltac:(lia) G) as (c & Ec & _).
    rewrite Ec. cbn [bind]. eauto.
Qed.

End crop_facts.

(** ** The calculators in terms of their stages *)

Module calculator_facts.
Import Binary64 Binary64_facts Py Py_facts crop_stages crop_facts.
Local Open Scope Z_scope.

Lemma recording_stages sw sh ow oh zoom pan_x pan_y r :
  eptz_recording.calculate_crop (sw, sh) (ow, oh) zoom pan_x pan_y = Ok r <->
  exists cw1 ch1 cw2 ch2 x0 y0,
    scaled sw zoom = Ok cw1 /\ scaled sh zoom = Ok ch1
    /\ fit_crop_aspect ow oh cw1 ch1 = Ok (cw2, ch2)
    /\ position (sw - cw2) pan_x = Ok x0 /\ position (sh - ch2) pan_y = Ok y0
    /\ r = clamped sw sh (aligned x0 y0 cw2 ch2).
Proof.
  unfold eptz_recording.calculate_crop.
  fold (scaled sw zoom) (scaled sh zoom).
  split.
  - intros H.
    destruct (int_truediv ow oh) as [oa | ] eqn:Eoa; [| discriminate]. cbn [bind] in H.
    destruct (scaled sw zoom) as [cw1 | ] eqn:Ecw; [| discriminate]. cbn [bind] in H.
    destruct (scaled sh zoom) as [ch1 | ] eqn:Ech; [| discriminate]. cbn [bind] in H.
    destruct (int_truediv cw1 ch1) as [ca | ] eqn:Eca; [| discriminate]. cbn [bind] in H.
    match type of H with bind ?f _ = _ => destruct f as [[cw2 ch2] | ] eqn:Ef; [| discriminate] end.
    cbn [bind] in H.
    fold (position (sw - cw2) pan_x) (position (sh - ch2) pan_y) in H.
    destruct (position (sw - cw2) pan_x) as [x0 | ] eqn:Ex; [| discriminate]. cbn [bind] in H.
    destruct (position (sh - ch2) pan_y) as [y0 | ] eqn:Ey; [| discriminate]. cbn [bind] in H.
    exists cw1, ch1, cw2, ch2, x0, y0.
    unfold fit_crop_aspect. rewrite Eoa, Eca. cbn [bind].
    repeat split; try assumption. injection H as <-. reflexivity.
  - intros (cw1 & ch1 & cw2 & ch2 & x0 & y0 & Ecw & Ech & Ef & Ex & Ey & ->).
    unfold fit_crop_aspect in Ef.
    destruct (int_truediv ow oh) as [oa | ] eqn:Eoa; [| discriminate]. cbn [bind] in *.
    rewrite Ecw, Ech. cbn [bind].
    destruct (int_truediv cw1 ch1) as [ca | ] eqn:Eca; [| discriminate]. cbn [bind] in *.
    rewrite Ef. cbn [bind].
    fold (position (sw - cw2) pan_x) (position (sh - ch2) pan_y).
    rewrite Ex, Ey. reflexivity.
Qed.

Lemma simple_stages g zoom pan_x pan_y r :
  eptz_simple.set_crop_tuple g zoom pan_x pan_y = Ok r <->
  exists cw1 ch1 cw2 ch2 x0 y0,
    scaled (eptz_simple.sensor_width g) zoom = Ok cw1
    /\ scaled (eptz_simple.sensor_height g) zoom = Ok ch1
    /\ fit_crop_aspect (eptz_simple.output_width g) (eptz_simple.output_height g)
         cw1 ch1 = Ok (cw2, ch2)
    /\ position (eptz_simple.sensor_width g - cw2) pan_x = Ok x0
    /\ position (eptz_simple.sensor_height g - ch2) pan_y = Ok y0
    /\ r = aligned x0 y0 cw2 ch2.
Proof.
  destruct g as [sw sh ow oh]. unfold eptz_simple.set_crop_tuple.
  cbn [eptz_simple.sensor_width eptz_simple.sensor_height
       eptz_simple.output_width eptz_simple.output_height].
  fold (scaled sw zoom) (scaled sh zoom).
  split.
  - intros H.
    destruct (scaled sw zoom) as [cw1 | ] eqn:Ecw; [| discriminate]. cbn [bind] in H.
    destruct (scaled sh zoom) as [ch1 | ] eqn:Ech; [| discriminate]. cbn [bind] in H.
    destruct (int_truediv ow oh) as [oa | ] eqn:Eoa; [| discriminate]. cbn [bind] in H.
    destruct (int_truediv cw1 ch1) as [ca | ] eqn:Eca; [| discriminate]. cbn [bind] in H.
    match type of H with bind ?f _ = _ => destruct f as [[cw2 ch2] | ] eqn:Ef; [| discriminate] end.
    cbn [bind] in H.
    fold (position (sw - cw2) pan_x) (position (sh - ch2) pan_y) in H.
    destruct (position (sw - cw2) pan_x) as [x0 | ] eqn:Ex; [| discriminate]. cbn [bind] in H.
    destruct (position (sh - ch2) pan_y) as [y0 | ] eqn:Ey; [| discriminate]. cbn [bind] in H.
    exists cw1, ch1, cw2, ch2, x0, y0.
    unfold fit_crop_aspect. rewrite Eoa, Eca. cbn [bind].
    repeat split; try assumption. injection H as <-. reflexivity.
  - intros (cw1 & ch1 & cw2 & ch2 & x0 & y0 & Ecw & Ech & Ef & Ex & Ey & ->).
    unfold fit_crop_aspect in Ef. rewrite Ecw, Ech. cbn [bind].
    destruct (int_truediv ow oh) as [oa | ] eqn:Eoa; [| discriminate]. cbn [bind] in *.
    destruct (int_truediv cw1 ch1) as [ca | ] eqn:Eca; [| discriminate]. cbn [bind] in *.
    rewrite Ef. cbn [bind].
    fold (position (sw - cw2) pan_x) (position (sh - ch2) pan_y).
    rewrite Ex, Ey. reflexivity.
Qed.

Lemma fpv_stages sw sh ow oh zoom pan_x pan_y r :
  fpv_eptz_demo.calculate_crop sw sh ow oh zoom pan_x pan_y = Ok r <->
  exists cw1 ch1 cw2 ch2 x0 y0,
    scaled sw zoom = Ok cw1 /\ scaled sh zoom = Ok ch1
    /\ fit_sensor_aspect sw sh ow oh cw1 ch1 = Ok (cw2, ch2)
    /\ position (sw - cw2) pan_x = Ok x0 /\ position (sh - ch2) pan_y = Ok y0
    /\ r = aligned x0 y0 cw2 ch2.
Proof.
  unfold fpv_eptz_demo.calculate_crop.
  fold (scaled sw zoom) (scaled sh zoom).
  split.
  - intros H.
    destruct (int_truediv ow oh) as [oa | ] eqn:Eoa; [| discriminate]. cbn [bind] in H.
    destruct (int_truediv sw sh) as [sa | ] eqn:Esa; [| discriminate]. cbn [bind] in H.
    destruct (scaled sw zoom) as [cw1 | ] eqn:Ecw; [| discriminate]. cbn [bind] in H.
    destruct (scaled sh zoom) as [ch1 | ] eqn:Ech; [| discriminate]. cbn [bind] in H.
    match type of H with bind ?f _ = _ => destruct f as [[cw2 ch2] | ] eqn:Ef; [| discriminate] end.
    cbn [bind] in H. cbv zeta in H.
    fold (position (sw - cw2) pan_x) (position (sh - ch2) pan_y) in H.
    destruct (position (sw - cw2) pan_x) as [x0 | ] eqn:Ex; [| discriminate]. cbn [bind] in H.
    destruct (position (sh - ch2) pan_y) as [y0 | ] eqn:Ey; [| discriminate]. cbn [bind] in H.
    exists cw1, ch1, cw2, ch2, x0, y0.
    unfold fit_sensor_aspect. rewrite Eoa, Esa. cbn [bind].
    repeat split; try assumption. injection H as <-. reflexivity.
  - intros (cw1 & ch1 & cw2 & ch2 & x0 & y0 & Ecw & Ech & Ef & Ex & Ey & ->).
    unfold fit_sensor_aspect in Ef.
    destruct (int_truediv ow oh) as [oa | ] eqn:Eoa; [| discriminate]. cbn [bind] in *.
    destruct (int_truediv sw sh) as [sa | ] eqn:Esa; [| discriminate]. cbn [bind] in *.
    rewrite Ecw, Ech. cbn [bind]. rewrite Ef. cbn [bind]. cbv zeta.
    fold (position (sw - cw2) pan_x) (position (sh - ch2) pan_y).
    rewrite Ex, Ey. reflexivity.
Qed.


Lemma demo_stages self r :
  let sw := eptz_demo.sensor_width self in
  let sh := eptz_demo.sensor_height self in
  eptz_demo.calculate_crop self = Ok r <->
  exists cw1 ch1 cw2 ch2 x0 y0,
    scaled sw (eptz_demo.zoom_factor self) = Ok cw1
    /\ scaled sh (eptz_demo.zoom_factor self) = Ok ch1
    /\ fit_sensor_aspect sw sh (eptz_demo.output_size self).1
         (eptz_demo.output_size self).2 cw1 ch1 = Ok (cw2, ch2)
    /\ position (sw - Z.min cw2 sw) (eptz_demo.pan_x self) = Ok x0
    /\ position (sh - Z.min ch2 sh) (eptz_demo.pan_y self) = Ok y0
    /\ r = clamped sw sh (aligned x0 y0 (Z.min cw2 sw) (Z.min ch2 sh)).
Proof.
  destruct self as [[ow oh] sw sh zoom pan_x pan_y]. cbv zeta.
  unfold eptz_demo.calculate_crop.
  cbn [eptz_demo.sensor_width eptz_demo.sensor_height eptz_demo.output_size
       eptz_demo.zoom_factor eptz_demo.pan_x eptz_demo.pan_y fst snd].
  fold (scaled sw zoom) (scaled sh zoom).
  split.
  - intros H.
    destruct (int_truediv ow oh) as [oa | ] eqn:Eoa; [| discriminate]. cbn [bind] in H.
    destruct (int_truediv sw sh) as [sa | ] eqn:Esa; [| discriminate]. cbn [bind] in H.
    destruct (scaled sw zoom) as [cw1 | ] eqn:Ecw; [| discriminate]. cbn [bind] in H.
    destruct (scaled sh zoom) as [ch1 | ] eqn:Ech; [| discriminate]. cbn [bind] in H.
    match type of H with bind ?f _ = _ => destruct f as [[cw2 ch2] | ] eqn:Ef; [| discriminate] end.
    cbn [bind] in H. cbv zeta in H.
    fold (position (sw - Z.min cw2 sw) pan_x) (position (sh - Z.min ch2 sh) pan_y) in H.
    destruct (position (sw - Z.min cw2 sw) pan_x) as [x0 | ] eqn:Ex; [| discriminate].
    cbn [bind] in H.
    destruct (position (sh - Z.min ch2 sh) pan_y) as [y0 | ] eqn:Ey; [| discriminate].
    cbn [bind] in H.
    exists cw1, ch1, cw2, ch2, x0, y0.
    unfold fit_sensor_aspect. rewrite Eoa, Esa. cbn [bind].
    repeat split; try assumption. injection H as <-. reflexivity.
  - intros (cw1 & ch1 & cw2 & ch2 & x0 & y0 & Ecw & Ech & Ef & Ex & Ey & ->).
    unfold fit_sensor_aspect in Ef.
    destruct (int_truediv ow oh) as [oa | ] eqn:Eoa; [| discriminate]. cbn [bind] in *.
    destruct (int_truediv sw sh) as [sa | ] eqn:Esa; [| discriminate]. cbn [bind] in *.
    rewrite Ecw, Ech. cbn [bind]. rewrite Ef. cbn [bind]. cbv zeta.
    fold (position (sw - Z.min cw2 sw) pan_x) (position (sh - Z.min ch2 sh) pan_y).
    rewrite Ex, Ey. reflexivity.
Qed.



(** Placing a crop that fits: the offset stays within the free margin. *)
Lemma placed_within s c pan x0 :
  0 <= c <= s -> s <= 2 ^ 53 -> (0 <= pan)%Q -> (pan <= 1)%Q ->
  position (s - c) pan = Ok x0 -> 0 <= x0 <= s - c.
Proof.
  intros Hc Hs H0 H1 E.
  destruct (position_bounds (s - c) pan ltac:(lia) H0 H1) as (x & Ex & Bx).
  rewrite Ex in E. injection E as <-. exact Bx.
Qed.

(** When the offset is within the margin, the final clamp changes nothing. *)
Lemma clamped_aligned sw sh cw2 ch2 x0 y0 :
  0 <= x0 <= sw - cw2 -> 0 <= y0 <= sh - ch2 ->
  clamped sw sh (aligned x0 y0 cw2 ch2) = aligned x0 y0 cw2 ch2.
Proof.
  intros Hx Hy. unfold clamped, aligned.
  pose proof (floor_even_bounds x0). pose proof (floor_even_bounds y0).
  pose proof (floor_even_bounds cw2). pose proof (floor_even_bounds ch2).
  pose proof (floor_even_nonneg x0 ltac:(lia)).
  pose proof (floor_even_nonneg y0 ltac:(lia)).
  replace (Z.max 0 (Z.min (floor_even x0) (sw - floor_even cw2)))
    with (floor_even x0) by lia.
  replace (Z.max 0 (Z.min (floor_even y0) (sh - floor_even ch2)))
    with (floor_even y0) by lia.
  reflexivity.
Qed.




(** The geometry of a crop fitted by its own aspect ratio. *)
Lemma crop_aspect_geometry sw sh ow oh zoom pan_x pan_y cw1 ch1 cw2 ch2 x0 y0 :
  0 < sw < 2 ^ 52 -> 0 < sh < 2 ^ 52 -> 0 < ow -> 0 < oh ->
  (1 <= zoom)%Q -> (0 <= pan_x <= 1)%Q -> (0 <= pan_y <= 1)%Q ->
  scaled sw zoom = Ok cw1 -> scaled sh zoom = Ok ch1 ->
  fit_crop_aspect ow oh cw1 ch1 = Ok (cw2, ch2) ->
  position (sw - cw2) pan_x = Ok x0 -> position (sh - ch2) pan_y = Ok y0 ->
  0 <= x0 <= sw - cw2 /\ 0 <= y0 <= sh - ch2.
Proof.
  intros Hsw Hsh How Hoh Hz [Hx0 Hx1] [Hy0 Hy1] Ecw Ech Ef Ex Ey.
  assert (P53 : 2 ^ 53 = 2 * 2 ^ 52) by reflexivity.
  destruct (scaled_bounds sw zoom ltac:(lia) Hz) as (c & Ec & Bc).
  rewrite Ec in Ecw. injection Ecw as ->.
  destruct (scaled_bounds sh zoom ltac:(lia) Hz) as (c & Ec' & Bc').
  rewrite Ec' in Ech. injection Ech as ->.
  destruct (fit_crop_aspect_bounds ow oh cw1 ch1 cw2 ch2 How Hoh
              ltac:(lia) ltac:(lia) Ef) as [B1 B2].
  split.
  - apply (placed_within sw cw2 pan_x x0); [lia | lia | assumption ..].
  - apply (placed_within sh ch2 pan_y y0); [lia | lia | assumption ..].
Qed.


(** The recording calculator returns a rectangle whenever the zoom factor
    is between 1 and the smaller sensor dimension. *)
Lemma calculate_crop_returns sw sh ow oh zoom pan_x pan_y :
  0 < sw < 2 ^ 52 -> 0 < sh < 2 ^ 52 -> 0 < ow < 2 ^ 52 -> 0 < oh < 2 ^ 52 ->
  (1 <= zoom)%Q -> (zoom <= inject_Z sw)%Q -> (zoom <= inject_Z sh)%Q ->
  (0 <= pan_x <= 1)%Q -> (0 <= pan_y <= 1)%Q ->
  exists r, eptz_recording.calculate_crop (sw, sh) (ow, oh) zoom pan_x pan_y = Ok r.
Proof.
  intros Hsw Hsh How Hoh Hz Hzw Hzh [Hx0 Hx1] [Hy0 Hy1].
  assert (P53 : 2 ^ 53 = 2 * 2 ^ 52) by reflexivity.
  destruct (scaled_returns sw zoom ltac:(lia) Hz Hzw) as (cw1 & Ecw & Bcw).
  destruct (scaled_returns sh zoom ltac:(lia) Hz Hzh) as (ch1 & Ech & Bch).
  destruct (fit_crop_aspect_returns ow oh cw1 ch1 How Hoh ltac:(lia) ltac:(lia))
    as (cw2 & ch2 & Ef).
  destruct (fit_crop_aspect_bounds ow oh cw1 ch1 cw2 ch2 ltac:(lia) ltac:(lia)
              ltac:(lia) ltac:(lia) Ef) as [B1 B2].
  destruct (position_bounds (sw - cw2) pan_x ltac:(lia) Hx0 Hx1) as (x0 & Ex & _).
  destruct (position_bounds (sh - ch2) pan_y ltac:(lia) Hy0 Hy1) as (y0 & Ey & _).
  exists (clamped sw sh (aligned x0 y0 cw2 ch2)).
  apply recording_stages. exists cw1, ch1, cw2, ch2, x0, y0. auto 10.
Qed.

Example scenario_floats_are_binary64 :
  forallb Binary64.is_binary64 scenario_floats = true.
Proof. vm_compute. reflexivity. Qed.

(** Beyond the sensor height the crop height is 0 and the crop's aspect
    ratio cannot be computed. *)
Example calculate_crop_raises :
  eptz_recording.calculate_crop (640, 480) (640, 480) 1000 (1 # 2) (1 # 2)
  = Raise ZeroDivisionError.
Proof. vm_compute. reflexivity. Qed.

End calculator_facts.

(** ** The crop calculators: claims *)

Module crop_claims.
Import Binary64 Binary64_facts Py Py_facts crop_stages crop_facts calculator_facts.
Local Open Scope Z_scope.

(** C7.  In [eptz_recording.calculate_crop] the x coordinate of the crop is
    a non-decreasing function of [pan_x] and the y coordinate is a
    non-decreasing function of [pan_y], for non-negative pan fractions and
    whatever the sensor size, the output size and the zoom factor are. *)
Theorem calculate_crop_monotone_in_pan
    sw sh ow oh zoom pan_x1 pan_y1 pan_x2 pan_y2 x1 y1 w1 h1 x2 y2 w2 h2 :
  eptz_recording.calculate_crop (sw, sh) (ow, oh) zoom pan_x1 pan_y1
    = Ok (x1, y1, w1, h1) ->
  eptz_recording.calculate_crop (sw, sh) (ow, oh) zoom pan_x2 pan_y2
    = Ok (x2, y2, w2, h2) ->
  ((0 <= pan_x1)%Q -> (pan_x1 <= pan_x2)%Q -> x1 <= x2)
  /\ ((0 <= pan_y1)%Q -> (pan_y1 <= pan_y2)%Q -> y1 <= y2).
Proof.
  intros H1 H2.
  apply recording_stages in H1.
  destruct H1 as (cw1 & ch1 & cw2 & ch2 & a1 & b1 & Ecw & Ech & Ef & Ea1 & Eb1 & R1).
  apply recording_stages in H2.
  destruct H2 as (cw1' & ch1' & cw2' & ch2' & a2 & b2 & Ecw' & Ech' & Ef' & Ea2 & Eb2 & R2).
  rewrite Ecw in Ecw'. injection Ecw' as <-.
  rewrite Ech in Ech'. injection Ech' as <-.
  rewrite Ef in Ef'. injection Ef' as <- <-.
  unfold clamped, aligned in R1, R2.
  injection R1 as -> -> -> ->. injection R2 as -> -> -> ->.
  pose proof (floor_even_bounds a1). pose proof (floor_even_bounds a2).
  pose proof (floor_even_bounds b1). pose proof (floor_even_bounds b2).
  split; intros P0 P.
  - destruct (Z_le_gt_dec 0 (sw - cw2)) as [L | G].
    + pose proof (position_mono _ _ _ _ _ L P0 P Ea1 Ea2) as M.
      apply floor_even_le in M. lia.
    + pose proof (position_nonpos (sw - cw2) pan_x1 a1 ltac:(lia) P0 Ea1).
      pose proof (position_nonpos (sw - cw2) pan_x2 a2 ltac:(lia) ltac:(lra) Ea2). lia.
  - destruct (Z_le_gt_dec 0 (sh - ch2)) as [L | G].
    + pose proof (position_mono _ _ _ _ _ L P0 P Eb1 Eb2) as M.
      apply floor_even_le in M. lia.
    + pose proof (position_nonpos (sh - ch2) pan_y1 b1 ltac:(lia) P0 Eb1).
      pose proof (position_nonpos (sh - ch2) pan_y2 b2 ltac:(lia) ltac:(lra) Eb2). lia.
Qed.

Lemma calculate_crop_monotone_in_pan_witness : 1440 <= 2160 /\ 324 <= 648.
Proof.
  assert (E1 : eptz_recording.calculate_crop (4608, 2592) (640, 480) 2 (1 # 2) (1 # 4)
               = Ok (1440, 324, 1728, 1296)) by (vm_compute; reflexivity).
  assert (E2 : eptz_recording.calculate_crop (4608, 2592) (640, 480) 2 (3 # 4) (1 # 2)
               = Ok (2160, 648, 1728, 1296)) by (vm_compute; reflexivity).
  destruct (calculate_crop_monotone_in_pan _ _ _ _ _ _ _ _ _ _ _ _ _ _ _ _ _ E1 E2)
    as [Hx Hy].
  split; [apply Hx | apply Hy]; unfold Qle; simpl; lia.
Defined.



(** C3.  [calculate_crop] of [eptz_recording] and of [eptz_tracking]
    clamp x and y after they have rounded them down to even values, and
    the clamp returns the margin [sensor_width - crop_width] as it is.  On
    a sensor 1921 pixels wide, with a pan fraction of 1.5, the x returned
    is the odd margin 1201, where [set_crop], which rounds in the same way
    and has no clamp, returns an even x.  With pan fractions in [0,1] the
    clamp returns an odd margin only for a sensor wider than 2^53 pixels,
    where the margin is rounded up when it is converted to a float. *)
Theorem clamp_returns_odd_offset :
  eptz_recording.calculate_crop (1921, 1080) (640, 480) 2 (3 # 2) (1 # 2)
  = Ok (1201, 270, 720, 540)
  /\ eptz_tracking.calculate_crop
       {| eptz_tracking.output_size := (640, 480);
          eptz_tracking.sensor_width := 1921;
          eptz_tracking.sensor_height := 1080 |} 2 (3 # 2) (1 # 2)
     = Ok (1201, 270, 720, 540)
  /\ ~ all_even (1201, 270, 720, 540)
  /\ eptz_simple.set_crop_tuple
       {| eptz_simple.sensor_width := 1921; eptz_simple.sensor_height := 1080;
          eptz_simple.output_width := 640; eptz_simple.output_height := 480 |}
       2 (3 # 2) (1 # 2)
     = Ok (1800, 270, 720, 540)
  /\ all_even (1800, 270, 720, 540)
  /\ eptz_recording.calculate_crop (2 ^ 53 + 5, 3 * 2 ^ 52) (1, 1)
       (inject_Z (2 ^ 52)) 1 (1 # 2)
     = Ok (9007199254740995, 6755399441055742, 2, 2)
  /\ ~ all_even (9007199254740995, 6755399441055742, 2, 2).
Proof.
  repeat split; try (vm_compute; reflexivity);
    unfold all_even; intros [H _]; vm_compute in H; discriminate.
Qed.



(** C4.  The clamp that ends [calculate_crop] of [eptz_recording] limits
    x and y and never the size of the crop, where [calculate_crop] of
    [eptz_demo] first takes the smaller of the crop size and the sensor
    size.  With a zoom factor of 0.5 on a 1920 x 1080 sensor the rectangle
    returned is 2880 x 2160, and [eptz_demo] returns the whole sensor.
    With a zoom factor of at least 1 the crop is larger than the sensor
    only where the sensor size is rounded up when it is converted to a
    float: a sensor of 2^53 + 3 pixels a side gives a crop one pixel
    larger, and [eptz_demo] a rectangle within the sensor. *)
Theorem crop_size_is_not_clamped :
  eptz_recording.calculate_crop (1920, 1080) (640, 480) (1 # 2) (1 # 2) (1 # 2)
  = Ok (0, 0, 2880, 2160)
  /\ ~ within_sensor 1920 1080 (0, 0, 2880, 2160)
  /\ eptz_demo.calculate_crop
       {| eptz_demo.output_size := (640, 480);
          eptz_demo.sensor_width := 1920; eptz_demo.sensor_height := 1080;
          eptz_demo.zoom_factor := 1 # 2;
          eptz_demo.pan_x := 1 # 2; eptz_demo.pan_y := 1 # 2 |}
     = Ok (0, 0, 1920, 1080)
  /\ eptz_recording.calculate_crop (2 ^ 53 + 3, 2 ^ 53 + 3) (1, 1) 1 (1 # 2) (1 # 2)
     = Ok (0, 0, 2 ^ 53 + 4, 2 ^ 53 + 4)
  /\ ~ within_sensor (2 ^ 53 + 3) (2 ^ 53 + 3) (0, 0, 2 ^ 53 + 4, 2 ^ 53 + 4)
  /\ eptz_demo.calculate_crop
       {| eptz_demo.output_size := (1, 1);
          eptz_demo.sensor_width := 2 ^ 53 + 3; eptz_demo.sensor_height := 2 ^ 53 + 3;
          eptz_demo.zoom_factor := 1;
          eptz_demo.pan_x := 1 # 2; eptz_demo.pan_y := 1 # 2 |}
     = Ok (0, 0, 2 ^ 53 + 2, 2 ^ 53 + 2)
  /\ within_sensor (2 ^ 53 + 3) (2 ^ 53 + 3) (0, 0, 2 ^ 53 + 2, 2 ^ 53 + 2).
Proof.
  repeat split; try (vm_compute; reflexivity); unfold within_sensor; try lia;
    vm_compute; intuition discriminate.
Qed.

(** C2, as amended.  For a sensor whose width and height are positive and
    below 2^52, a positive output size, a zoom factor of at least 1 and pan
    fractions in [0,1], [calculate_crop] of [eptz_recording] returns a
    rectangle exactly when [set_crop] of [eptz_simple] computes one, and it
    is the same rectangle.  [calculate_crop] of [fpv_eptz_demo] chooses the
    dimension to shrink by comparing the output aspect ratio with the
    sensor's instead of the crop's: it returns that rectangle too whenever
    the two ways of fitting give the same crop size. *)
Theorem crop_reimplementations_agree sw sh ow oh zoom pan_x pan_y r :
  0 < sw < 2 ^ 52 -> 0 < sh < 2 ^ 52 -> 0 < ow -> 0 < oh ->
  (1 <= zoom)%Q -> (0 <= pan_x <= 1)%Q -> (0 <= pan_y <= 1)%Q ->
  let g := {| eptz_simple.sensor_width := sw; eptz_simple.sensor_height := sh;
              eptz_simple.output_width := ow; eptz_simple.output_height := oh |} in
  (eptz_recording.calculate_crop (sw, sh) (ow, oh) zoom pan_x pan_y = Ok r
   <-> eptz_simple.set_crop_tuple g zoom pan_x pan_y = Ok r)
  /\ (forall cw1 ch1,
        scaled sw zoom = Ok cw1 -> scaled sh zoom = Ok ch1 ->
        fit_sensor_aspect sw sh ow oh cw1 ch1 = fit_crop_aspect ow oh cw1 ch1 ->
        (fpv_eptz_demo.calculate_crop sw sh ow oh zoom pan_x pan_y = Ok r
         <-> eptz_simple.set_crop_tuple g zoom pan_x pan_y = Ok r)).
Proof.
  intros Hsw Hsh How Hoh Hz Hx Hy g. subst g. split.
  - rewrite recording_stages, simple_stages.
    cbn [eptz_simple.sensor_width eptz_simple.sensor_height
         eptz_simple.output_width eptz_simple.output_height].
    split; intros (cw1 & ch1 & cw2 & ch2 & x0 & y0 & Ecw & Ech & Ef & Ex & Ey & ->);
      exists cw1, ch1, cw2, ch2, x0, y0;
      destruct (crop_aspect_geometry sw sh ow oh zoom pan_x pan_y cw1 ch1 cw2 ch2 x0 y0)
        as [Gx Gy]; try assumption;
      rewrite clamped_aligned by assumption; auto 10.
  - intros cw1 ch1 Ecw Ech Efit.
    rewrite fpv_stages, simple_stages.
    cbn [eptz_simple.sensor_width eptz_simple.sensor_height
         eptz_simple.output_width eptz_simple.output_height].
    split; intros (cw1' & ch1' & cw2 & ch2 & x0 & y0 & Ecw' & Ech' & Ef & Ex & Ey & ->);
      rewrite Ecw in Ecw'; injection Ecw' as <-;
      rewrite Ech in Ech'; injection Ech' as <-;
      exists cw1, ch1, cw2, ch2, x0, y0; repeat split; try assumption; congruence.
Qed.

Lemma crop_reimplementations_agree_witness :
  eptz_simple.set_crop_tuple
    {| eptz_simple.sensor_width := 4056; eptz_simple.sensor_height := 3040;
       eptz_simple.output_width := 1920; eptz_simple.output_height := 1080 |}
    1 (1 # 2) (1 # 2)
  = Ok (0, 378, 4056, 2280).
Proof.
  apply (proj1 (crop_reimplementations_agree 4056 3040 1920 1080 1 (1 # 2) (1 # 2)
                  (0, 378, 4056, 2280)
                  ltac:(lia) ltac:(lia) ltac:(lia) ltac:(lia)
                  ltac:(unfold Qle; simpl; lia)
                  ltac:(split; unfold Qle; simpl; lia)
                  ltac:(split; unfold Qle; simpl; lia))).
  vm_compute. reflexivity.
Defined.

(** The three are not the same function: on a 1920 x 1080 sensor with a
    1280 x 720 output and a zoom of 4.5, [fpv_eptz_demo] keeps the height
    and the other two shrink it. *)
Lemma crop_reimplementations_agree_counterexample :
  eptz_recording.calculate_crop (1920, 1080) (1280, 720) (9 # 2) (1 # 2) (1 # 2)
  = Ok (746, 420, 426, 238)
  /\ eptz_simple.set_crop_tuple
       {| eptz_simple.sensor_width := 1920; eptz_simple.sensor_height := 1080;
          eptz_simple.output_width := 1280; eptz_simple.output_height := 720 |}
       (9 # 2) (1 # 2) (1 # 2)
     = Ok (746, 420, 426, 238)
  /\ fpv_eptz_demo.calculate_crop 1920 1080 1280 720 (9 # 2) (1 # 2) (1 # 2)
     = Ok (746, 420, 426, 240)
  /\ (746, 420, 426, 238) <> (746, 420, 426, 240).
Proof. repeat split; try (vm_compute; reflexivity). discriminate. Qed.

(** C5, as amended.  For sensor and output sizes that are positive and
    below 2^52 and a zoom factor of at least 1, a rectangle returned by
    [calculate_crop] of [eptz_recording] or of [eptz_demo] has the output
    aspect ratio up to truncation: width times output height and height
    times output width differ by less than twice the sum of the output
    width and the output height. *)
Theorem crop_aspect_ratio_approx sw sh ow oh zoom pan_x pan_y x y w h :
  0 < sw < 2 ^ 52 -> 0 < sh < 2 ^ 52 -> 0 < ow < 2 ^ 52 -> 0 < oh < 2 ^ 52 ->
  (1 <= zoom)%Q ->
  (eptz_recording.calculate_crop (sw, sh) (ow, oh) zoom pan_x pan_y
     = Ok (x, y, w, h)
   -> Z.abs (w * oh - h * ow) < 2 * (ow + oh))
  /\ (eptz_demo.calculate_crop
        {| eptz_demo.output_size := (ow, oh);
           eptz_demo.sensor_width := sw; eptz_demo.sensor_height := sh;
           eptz_demo.zoom_factor := zoom;
           eptz_demo.pan_x := pan_x; eptz_demo.pan_y := pan_y |}
        = Ok (x, y, w, h)
      -> Z.abs (w * oh - h * ow) < 2 * (ow + oh)).
Proof.
  intros Hsw Hsh How Hoh Hz.
  assert (P53 : 2 ^ 53 = 2 * 2 ^ 52) by reflexivity.
  split; intros H.
  - apply recording_stages in H.
    destruct H as (cw1 & ch1 & cw2 & ch2 & x0 & y0 & Ecw & Ech & Ef & _ & _ & R).
    destruct (scaled_bounds sw zoom ltac:(lia) Hz) as (c & Ec & Bc).
    rewrite Ec in Ecw. injection Ecw as ->.
    destruct (scaled_bounds sh zoom ltac:(lia) Hz) as (c & Ec' & Bc').
    rewrite Ec' in Ech. injection Ech as ->.
    pose proof (fit_crop_aspect_ratio ow oh cw1 ch1 cw2 ch2 How Hoh
                  ltac:(lia) ltac:(lia) Ef) as K.
    unfold clamped, aligned in R. injection R as _ _ -> ->.
    pose proof (floor_even_bounds cw2). pose proof (floor_even_bounds ch2).
    assert (floor_even cw2 = cw2 \/ floor_even cw2 = cw2 - 1) as [-> | ->] by lia;
    assert (floor_even ch2 = ch2 \/ floor_even ch2 = ch2 - 1) as [-> | ->] by lia;
    lia.
  - pose proof (demo_stages
                  {| eptz_demo.output_size := (ow, oh);
                     eptz_demo.sensor_width := sw; eptz_demo.sensor_height := sh;
                     eptz_demo.zoom_factor := zoom;
                     eptz_demo.pan_x := pan_x; eptz_demo.pan_y := pan_y |}
                  (x, y, w, h)) as S.
    cbv zeta in S.
    cbn [eptz_demo.sensor_width eptz_demo.sensor_height eptz_demo.output_size
         eptz_demo.zoom_factor eptz_demo.pan_x eptz_demo.pan_y fst snd] in S.
    apply S in H. clear S.
    destruct H as (cw1 & ch1 & cw2 & ch2 & x0 & y0 & Ecw & Ech & Ef & _ & _ & R).
    destruct (scaled_bounds sw zoom ltac:(lia) Hz) as (c & Ec & Bc).
    rewrite Ec in Ecw. injection Ecw as ->.
    destruct (scaled_bounds sh zoom ltac:(lia) Hz) as (c & Ec' & Bc').
    rewrite Ec' in Ech. injection Ech as ->.
    pose proof (fit_sensor_aspect_ratio sw sh ow oh cw1 ch1 cw2 ch2 How Hoh
                  ltac:(lia) ltac:(lia) Ef) as K.
    destruct (fit_sensor_aspect_bounds sw sh ow oh cw1 ch1 cw2 ch2
                ltac:(lia) ltac:(lia) Hsw Hsh ltac:(lia) ltac:(lia) Ef) as [B1 B2].
    rewrite (Z.min_l cw2 sw), (Z.min_l ch2 sh) in R by lia.
    unfold clamped, aligned in R. injection R as _ _ -> ->.
    pose proof (floor_even_bounds cw2). pose proof (floor_even_bounds ch2).
    assert (floor_even cw2 = cw2 \/ floor_even cw2 = cw2 - 1) as [-> | ->] by lia;
    assert (floor_even ch2 = ch2 \/ floor_even ch2 = ch2 - 1) as [-> | ->] by lia;
    lia.
Qed.

Lemma crop_aspect_ratio_approx_witness :
  Z.abs (4056 * 1080 - 2280 * 1920) < 2 * (1920 + 1080).
Proof.
  apply (proj1 (crop_aspect_ratio_approx 4056 3040 1920 1080 1 (1 # 2) (1 # 2)
                  0 378 4056 2280
                  ltac:(lia) ltac:(lia) ltac:(lia) ltac:(lia)
                  ltac:(unfold Qle; simpl; lia))).
  vm_compute. reflexivity.
Defined.

(** The aspect ratio is not preserved exactly: the full view of a
    4056 x 3040 sensor for a 1920 x 1080 output is 4056 x 2280. *)
Lemma crop_aspect_ratio_counterexample :
  eptz_recording.calculate_crop (4056, 3040) (1920, 1080) 1 (1 # 2) (1 # 2)
  = Ok (0, 378, 4056, 2280)
  /\ 4056 * 1080 <> 2280 * 1920.
Proof. split; [vm_compute; reflexivity | lia]. Qed.

End crop_claims.


(** ** The overlay helper *)

Module overlay_facts.
Import numpy OverlayHelper.
Local Open Scope Z_scope.

Lemma uint8_range v : 0 <= uint8 v < 256.
Proof. unfold uint8. apply Z.mod_pos_bound. lia. Qed.

Lemma as_pixel_in_range c : is_uint8 c -> as_pixel c = c.
Proof.
  destruct c as [[[r g] b] a]. unfold as_pixel, is_uint8, uint8.
  intros (Hr & Hg & Hb & Ha). rewrite !Z.mod_small by lia. reflexivity.
Qed.

Lemma as_pixel_uint8 c : is_uint8 (as_pixel c).
Proof.
  destruct c as [[[r g] b] a]. unfold as_pixel, is_uint8.
  pose proof (uint8_range r). pose proof (uint8_range g).
  pose proof (uint8_range b). pose proof (uint8_range a). auto.
Qed.

Lemma imap_shape {A : Type} (g : nat -> list A -> list A) (a : list (list A)) :
  (forall i row, length (g i row) = length row) ->
  map length (imap g a) = map length a.
Proof.
  revert g. induction a as [| row a IH]; intros g H; [reflexivity |].
  rewrite imap_cons. simpl. rewrite H. f_equal. apply IH. intros i r. apply H.
Qed.

Lemma imap_Forall {A B : Type} (P : A -> Prop) (Q : B -> Prop)
    (g : nat -> A -> B) (l : list A) :
  (forall i x, P x -> Q (g i x)) -> Forall P l -> Forall Q (imap g l).
Proof.
  revert g. induction l as [| x l IH]; intros g H F; [constructor |].
  rewrite imap_cons. inversion F; subst. constructor; [apply H; assumption |].
  apply IH; [| assumption]. intros i y. apply H.
Qed.

Lemma assign_region_shape a y1 y2 x1 x2 px :
  shape (assign_region a y1 y2 x1 x2 px) = shape a.
Proof.
  unfold assign_region, shape. apply imap_shape. intros i row.
  destruct (in_slice (length a) y1 y2 i); [| reflexivity].
  apply length_imap.
Qed.

Lemma assign_region_dtype a y1 y2 x1 x2 px :
  is_uint8 px -> dtype_uint8 a -> dtype_uint8 (assign_region a y1 y2 x1 x2 px).
Proof.
  intros Hpx. unfold assign_region, dtype_uint8.
  apply imap_Forall. intros i row F.
  destruct (in_slice (length a) y1 y2 i); [| exact F].
  revert F. apply imap_Forall. intros j p Hp.
  destruct (in_slice (length row) x1 x2 j); assumption.
Qed.

Lemma assign_all_shape a px : shape (assign_all a px) = shape a.
Proof.
  unfold assign_all, shape. rewrite map_map. apply map_ext.
  intros row. apply length_map.
Qed.

Lemma assign_all_dtype a px : is_uint8 px -> dtype_uint8 (assign_all a px).
Proof.
  intros Hpx. unfold assign_all, dtype_uint8.
  apply Forall_map. apply Forall_forall. intros row _.
  apply Forall_map. apply Forall_forall. intros p _. exact Hpx.
Qed.

Lemma canvas_draw s f : canvas (draw s f) = f <$> canvas s.
Proof. unfold canvas, draw. simpl. apply lookup_alter_eq. Qed.

(** Every operation works on the canvas in place.  The proof is the same
    whatever is to be shown of the contents, so it is done once, for a
    relation [R] that holds of the assignments of NumPy and of the drawing
    functions of OpenCV. *)
Section in_place.

Variable R : pixel -> ndarray -> ndarray -> Prop.
Hypothesis R_refl : forall bg a, R bg a a.
Hypothesis R_trans : forall bg a b c, R bg a b -> R bg b c -> R bg a c.
Hypothesis R_draw : forall bg a y1 y2 x1 x2 c,
  R bg a (assign_region a y1 y2 x1 x2 (as_pixel c)).
Hypothesis R_clear : forall bg a y1 y2 x1 x2, R bg a (assign_region a y1 y2 x1 x2 bg).
Hypothesis R_clear_all : forall bg a, R bg a (assign_all a bg).

Variable cv2 : option cv2_module.
Hypothesis R_cv2 : forall m, cv2 = Some m -> cv2_draws R m.

Lemma framed_refl s : framed R s s.
Proof. unfold framed. repeat split; eauto. Qed.

Lemma framed_trans s1 s2 s3 : framed R s1 s2 -> framed R s2 s3 -> framed R s1 s3.
Proof.
  intros (W1 & H1 & B1 & O1 & D1 & C1) (W2 & H2 & B2 & O2 & D2 & C2).
  unfold framed. repeat split; try congruence.
  intros a Ea. destruct (C1 a Ea) as (a' & Ea' & R').
  destruct (C2 a' Ea') as (a'' & Ea'' & R'').
  exists a''. split; [assumption |]. rewrite B1 in R''. eauto.
Qed.

(** a change of the bookkeeping fields only *)
Lemma framed_fields (self self' : t) (h : heap) :
  width self' = width self -> height self' = height self ->
  background_color self' = background_color self -> overlay self' = overlay self ->
  framed R (self, h) (self', h).
Proof.
  intros W H B O. unfold framed, canvas. simpl.
  repeat split; try assumption. intros a Ea. rewrite O. eauto.
Qed.

Lemma draw_framed s f :
  (forall a, R (background_color s.1) a (f a)) -> framed R s (draw s f).
Proof.
  intros Hf. unfold framed. repeat split; try reflexivity.
  - unfold draw. simpl. apply dom_alter_L.
  - intros a Ea. exists (f a). rewrite canvas_draw, Ea. auto.
Qed.

Lemma _mark_dirty_framed s x y w h : framed R s (_mark_dirty s x y w h).
Proof. destruct s as [self hp]. apply framed_fields; reflexivity. Qed.

Lemma mark_old_dirty_framed s name : framed R s (mark_old_dirty s name).
Proof.
  unfold mark_old_dirty. destruct (elements s.1 !! name) as [old |].
  - unfold OverlayElement.get_bounds. apply _mark_dirty_framed.
  - apply framed_refl.
Qed.

Lemma set_element_framed s name e : framed R s (set_element s name e).
Proof. destruct s as [self hp]. apply framed_fields; reflexivity. Qed.

Lemma count_update_framed s : framed R s (count_update s).
Proof. destruct s as [self hp]. apply framed_fields; reflexivity. Qed.

Lemma _clear_region_framed s x y w h : framed R s (_clear_region s x y w h).
Proof.
  destruct s as [self hp]. unfold _clear_region.
  destruct ((Z.min (width self) (x + w) >? Z.max 0 x)
            && (Z.min (height self) (y + h) >? Z.max 0 y)).
  - apply (draw_framed (self, hp)). intros a. apply R_clear.
  - apply framed_refl.
Qed.

Lemma clear_regions_framed rs s :
  framed R s
    (fold_left (fun s r => let '(x, y, width, height) := r in
                           _clear_region s x y width height) rs s).
Proof.
  revert s. induction rs as [| [[[x y] w] h] rs IH]; intros s.
  - apply framed_refl.
  - simpl. eapply framed_trans; [apply _clear_region_framed | apply IH].
Qed.

Lemma clear_dirty_regions_framed s : framed R s (clear_dirty_regions s).
Proof.
  unfold clear_dirty_regions.
  pose proof (clear_regions_framed (dirty_regions s.1) s) as K.
  destruct (fold_left _ (dirty_regions s.1) s) as [self hp].
  eapply framed_trans; [exact K |].
  apply framed_fields; reflexivity.
Qed.

Lemma clear_all_framed s : framed R s (clear_all s).
Proof.
  unfold clear_all.
  assert (K : framed R s (draw s (fun a => assign_all a (background_color s.1)))).
  { apply draw_framed. intros a. apply R_clear_all. }
  destruct (draw s _) as [self hp].
  eapply framed_trans; [exact K |].
  apply framed_fields; reflexivity.
Qed.

Lemma add_rectangle_framed s name x y w h c filled thickness :
  framed R s (add_rectangle s name x y w h c filled thickness).
Proof.
  unfold add_rectangle.
  eapply framed_trans; [apply mark_old_dirty_framed |].
  eapply framed_trans; [apply set_element_framed |].
  eapply framed_trans; [| apply count_update_framed].
  destruct filled.
  - apply draw_framed. intros a. apply R_draw.
  - do 3 (eapply framed_trans; [| apply draw_framed; intros a; apply R_draw]).
    apply draw_framed. intros a. apply R_draw.
Qed.

Lemma remove_element_framed s name : framed R s (remove_element s name).
Proof.
  unfold remove_element. destruct (elements s.1 !! name) as [elem |];
    [| apply framed_refl].
  unfold OverlayElement.get_bounds.
  pose proof (_clear_region_framed s (OverlayElement.x elem) (OverlayElement.y elem)
                (OverlayElement.width elem) (OverlayElement.height elem)) as K.
  destruct (_clear_region s _ _ _ _) as [self hp].
  eapply framed_trans; [exact K |].
  apply framed_fields; reflexivity.
Qed.

Lemma hide_element_framed s name : framed R s (hide_element s name).
Proof.
  unfold hide_element. destruct (elements s.1 !! name) as [elem |];
    [| apply framed_refl].
  unfold OverlayElement.get_bounds. cbn [OverlayElement.x OverlayElement.y
    OverlayElement.width OverlayElement.height].
  eapply framed_trans; [apply set_element_framed |].
  apply _clear_region_framed.
Qed.

Lemma show_element_framed s name : framed R s (show_element s name).
Proof.
  unfold show_element. destruct (elements s.1 !! name) as [elem |];
    [apply set_element_framed | apply framed_refl].
Qed.

Lemma add_line_framed s name x1 y1 x2 y2 c thickness :
  framed R s (add_line cv2 s name x1 y1 x2 y2 c thickness).
Proof.
  unfold add_line. destruct cv2 as [m |] eqn:E; [| apply add_rectangle_framed].
  destruct (R_cv2 m eq_refl) as (L & _ & _).
  eapply framed_trans; [apply mark_old_dirty_framed |].
  eapply framed_trans; [apply set_element_framed |].
  eapply framed_trans; [| apply count_update_framed].
  apply draw_framed. intros a. apply L.
Qed.

Lemma add_circle_framed s name cx cy radius c filled thickness :
  framed R s (add_circle cv2 s name cx cy radius c filled thickness).
Proof.
  unfold add_circle. destruct cv2 as [m |] eqn:E; [| apply add_rectangle_framed].
  destruct (R_cv2 m eq_refl) as (_ & C & _).
  eapply framed_trans; [apply mark_old_dirty_framed |].
  eapply framed_trans; [apply set_element_framed |].
  eapply framed_trans; [| apply count_update_framed].
  apply draw_framed. intros a. apply C.
Qed.

Lemma add_text_framed s name x y text c font_scale thickness font :
  framed R s (add_text cv2 s name x y text c font_scale thickness font).
Proof.
  unfold add_text. destruct cv2 as [m |] eqn:E; [| apply framed_refl].
  destruct (R_cv2 m eq_refl) as (_ & _ & T).
  destruct (getTextSize m text _ font_scale thickness) as [[tw th] baseline].
  eapply framed_trans; [apply mark_old_dirty_framed |].
  eapply framed_trans; [apply set_element_framed |].
  eapply framed_trans; [| apply count_update_framed].
  apply draw_framed. intros a. apply T.
Qed.

Lemma run_framed c s : framed R s (run cv2 c s).
Proof.
  destruct c; cbn [run].
  - apply add_rectangle_framed.
  - apply add_line_framed.
  - apply add_circle_framed.
  - apply add_text_framed.
  - apply add_text_framed.
  - apply remove_element_framed.
  - apply hide_element_framed.
  - apply show_element_framed.
  - apply clear_dirty_regions_framed.
  - apply clear_all_framed.
  - apply framed_refl.
Qed.

Lemma run_all_framed cs s : framed R s (run_all cv2 cs s).
Proof.
  unfold run_all. revert s. induction cs as [| c cs IH]; intros s.
  - apply framed_refl.
  - simpl. eapply framed_trans; [apply run_framed | apply IH].
Qed.

End in_place.

Lemma map_replicate {A B : Type} (f : A -> B) n x :
  map f (replicate n x) = replicate n (f x).
Proof. induction n as [| n IH]; simpl; [reflexivity | rewrite IH; reflexivity]. Qed.

Lemma keeps_format_refl bg a : keeps_format bg a a.
Proof. unfold keeps_format. auto. Qed.

Lemma keeps_format_trans bg a b c :
  keeps_format bg a b -> keeps_format bg b c -> keeps_format bg a c.
Proof. unfold keeps_format. intros [S1 T1] [S2 T2]. split; [congruence | auto]. Qed.

Lemma same_canvas_well_formed s s' : same_canvas s s' -> well_formed s -> well_formed s'.
Proof.
  intros (W & H & B & O & D & C) (a & Ea & Sa & Ta & Tb).
  destruct (C a Ea) as (a' & Ea' & S' & T').
  exists a'. rewrite W, H, B. repeat split; [assumption | congruence | auto | assumption].
Qed.

Lemma init_well_formed hp w h bg s :
  init hp w h bg = Some s -> well_formed s /\ hp !! overlay s.1 = None.
Proof.
  unfold init. destruct ((w <? 0) || (h <? 0)); [discriminate |].
  intros [= <-]. split.
  - exists (assign_all (zeros (Z.to_nat h) (Z.to_nat w)) (as_pixel bg)).
    unfold canvas. cbn [fst snd overlay width height background_color].
    split; [apply lookup_insert_eq |]. repeat split.
    + rewrite assign_all_shape. unfold shape, zeros.
      rewrite map_replicate, length_replicate. reflexivity.
    + apply assign_all_dtype, as_pixel_uint8.
    + apply as_pixel_uint8.
  - cbn [fst overlay]. apply not_elem_of_dom. apply is_fresh.
Qed.

(** What adding a filled rectangle under a name already in use does: the
    old bounds go to [dirty_regions], and the canvas is the old canvas with
    the new rectangle assigned.  Nothing is cleared. *)
Lemma add_rectangle_again s name old x y w h c thickness :
  elements s.1 !! name = Some old ->
  let s' := add_rectangle s name x y w h c true thickness in
  dirty_regions s'.1 = dirty_regions s.1 ++ [OverlayElement.get_bounds old]
  /\ canvas s' =
     (fun a => assign_region a (Z.max 0 y) (Z.min (height s.1) (y + h))
                 (Z.max 0 x) (Z.min (width s.1) (x + w)) (as_pixel c))
     <$> canvas s.
Proof.
  intros H. destruct s as [self hp]. cbn [fst] in H.
  unfold add_rectangle, mark_old_dirty. cbn [fst]. rewrite H.
  unfold OverlayElement.get_bounds. cbv zeta.
  cbn [_mark_dirty set_element draw count_update fst snd width height
       dirty_regions overlay canvas].
  split; [reflexivity |]. unfold canvas. cbn [fst snd overlay].
  apply lookup_alter_eq.
Qed.

End overlay_facts.

(** ** The overlay helper: claims *)

Module overlay_claims.
Import numpy OverlayHelper overlay_facts overlay_scenarios.
Local Open Scope Z_scope.

Example fresh_helper_is_helper_4x4 : fresh_helper = Some helper_4x4.
Proof. vm_compute. reflexivity. Qed.

(** C1: the code does not do what the claim (and the docstring of
    [update_text]) says.  Adding a rectangle under a name that is already
    present marks the old bounds dirty and draws; nothing is cleared.  On
    a 4 x 4 helper, after a 2 x 2 rectangle in the top-left corner has been
    added again in the bottom-right corner under the same name, the four
    pixels of the old rectangle still have its colour, and its bounds wait
    in [dirty_regions]. *)
Theorem readded_rectangle_is_not_cleared :
  (s ← moved_rectangle;
   Some (canvas s, dirty_regions s.1, background_color s.1))
  = Some (Some [[red; red; clear; clear];
                [red; red; clear; clear];
                [clear; clear; red; red];
                [clear; clear; red; red]],
          [(0, 0, 2, 2)], clear).
Proof. vm_compute. reflexivity. Qed.

(** C6.  [get_array] leaves the helper as it is and returns the reference
    to the canvas that the helper holds.  Whatever operations follow, the
    array read through that reference is the canvas of the helper. *)
Theorem get_array_shares_canvas cv2 s cs :
  get_array s = (overlay s.1, s)
  /\ (let '(ref, s1) := get_array s in
      let s2 := run_all cv2 cs s1 in
      s2.2 !! ref = canvas s2).
Proof.
  split; [reflexivity |]. cbn [get_array]. cbv zeta.
  assert (F : framed (fun _ _ _ => True) s (run_all cv2 cs s)).
  { apply run_all_framed; try (intros; exact I).
    intros m _. unfold cv2_draws. auto. }
  destruct F as (_ & _ & _ & O & _). unfold canvas. rewrite O. reflexivity.
Qed.

(** a rectangle drawn after [get_array] is seen through the array that
    [get_array] returned *)
Example get_array_sees_later_drawing :
  let '(ref, s1) := get_array helper_4x4 in
  let s2 := add_rectangle s1 "marker" 0 0 2 2 red true 2 in
  s1.2 !! ref = Some (replicate 4%nat (replicate 4%nat clear))
  /\ s2.2 !! ref = Some [[red; red; clear; clear];
                         [red; red; clear; clear];
                         [clear; clear; clear; clear];
                         [clear; clear; clear; clear]].
Proof. vm_compute. split; reflexivity. Qed.

(** C9.  Every operation of the helper leaves the width, the height and the
    background colour as they are, keeps the canvas the same array object
    with the same shape and with [uint8] elements, and allocates nothing;
    so a helper that is well formed stays well formed.  The drawing
    functions of OpenCV are assumed to draw in place. *)
Theorem operations_keep_canvas cv2 c s :
  (forall m, cv2 = Some m -> cv2_in_place m) ->
  same_canvas s (run cv2 c s)
  /\ (well_formed s -> well_formed (run cv2 c s)).
Proof.
  intros Hcv2.
  assert (K : same_canvas s (run cv2 c s)).
  { apply run_framed.
    - apply keeps_format_refl.
    - apply keeps_format_trans.
    - intros bg a y1 y2 x1 x2 col. split; [apply assign_region_shape |].
      intros _. apply assign_region_dtype, as_pixel_uint8.
    - intros bg a y1 y2 x1 x2. split; [apply assign_region_shape |].
      intros Hb. apply assign_region_dtype, Hb.
    - intros bg a. split; [apply assign_all_shape |].
      intros Hb _. apply assign_all_dtype, Hb.
    - exact Hcv2. }
  split; [exact K | apply same_canvas_well_formed, K].
Qed.

Lemma operations_keep_canvas_witness :
  same_canvas helper_4x4
    (run (Some blank_cv2) (Add_line "horizon" 0 2 3 2 red 1) helper_4x4).
Proof.
  apply (proj1 (operations_keep_canvas (Some blank_cv2)
                  (Add_line "horizon" 0 2 3 2 red 1) helper_4x4
                  ltac:(intros m [= <-]; repeat split; auto))).
Defined.

(** C10.  [remove_element], [hide_element] and [show_element] on a name
    that is not an element return the state they were given. *)
Theorem unknown_name_is_ignored s name :
  elements s.1 !! name = None ->
  remove_element s name = s /\ hide_element s name = s /\ show_element s name = s.
Proof.
  intros H. unfold remove_element, hide_element, show_element.
  rewrite H. auto.
Qed.

Lemma unknown_name_is_ignored_witness :
  remove_element helper_4x4 "ghost" = helper_4x4
  /\ hide_element helper_4x4 "ghost" = helper_4x4
  /\ show_element helper_4x4 "ghost" = helper_4x4.
Proof.
  apply (unknown_name_is_ignored helper_4x4 "ghost"). reflexivity.
Defined.

End overlay_claims.

(** ** The overlay helper, pixel by pixel *)

Module overlay_pixel_facts.
Import numpy OverlayHelper overlay_view overlay_facts overlay_scenarios hud_scenarios.
Local Open Scope Z_scope.

(** comparisons decided, then linear arithmetic *)
Ltac zbool :=
  repeat match goal with
  | |- context [(?a <=? ?b)] => destruct (Z.leb_spec a b)
  | |- context [(?a <? ?b)] => destruct (Z.ltb_spec a b)
  | |- context [(?a >? ?b)] => rewrite (Z.gtb_ltb a b)
  | |- context [(?a =? ?b)] => destruct (Z.eqb_spec a b)
  end; cbn [andb orb negb]; try reflexivity; try lia.

(** comparisons as propositions, then linear arithmetic *)
Ltac zprop :=
  apply Bool.eq_true_iff_eq;
  repeat first
    [ rewrite andb_true_iff | rewrite orb_true_iff | rewrite negb_true_iff
    | rewrite andb_false_iff | rewrite orb_false_iff | rewrite negb_false_iff
    | rewrite Z.leb_le | rewrite Z.ltb_lt | rewrite Z.leb_gt | rewrite Z.ltb_ge ];
  lia.

Lemma if_same_or {A : Type} (b1 b2 : bool) (x y : A) :
  (if b1 then x else if b2 then x else y) = if b2 || b1 then x else y.
Proof. destruct b1, b2; reflexivity. Qed.

Lemma if_ext {A : Type} (b1 b2 : bool) (x y : A) :
  b1 = b2 -> (if b1 then x else y) = if b2 then x else y.
Proof. intros ->. reflexivity. Qed.

(** *** Slices *)

Lemma slice_bound_nonneg n v : 0 <= v -> slice_bound n v = Z.min v n.
Proof. intros H. unfold slice_bound. zbool. Qed.

Lemma slice_bound_neg n v : v < 0 -> slice_bound n v = Z.max 0 (v + n).
Proof. intros H. unfold slice_bound. zbool. Qed.

Lemma in_slice_canvas n start stop i :
  0 <= start -> 0 <= stop <= n -> 0 <= Z.of_nat i < n ->
  in_slice (Z.to_nat n) start stop i = (start <=? Z.of_nat i) && (Z.of_nat i <? stop).
Proof.
  intros H1 H2 H3. unfold in_slice. rewrite !slice_bound_nonneg by lia.
  rewrite Z2Nat.id by lia. zbool.
Qed.

(** *** Arrays *)

Lemma getitem_assign_region a W y1 y2 x1 x2 px i j :
  Forall (fun row => length row = W) a ->
  getitem (assign_region a y1 y2 x1 x2 px) i j
  = (fun p => if in_slice (length a) y1 y2 i && in_slice W x1 x2 j then px else p)
    <$> getitem a i j.
Proof.
  intros F. unfold getitem, assign_region, ndarray in *.
  rewrite list_lookup_imap.
  destruct (a !! i) as [row |] eqn:E; [| reflexivity]. cbn.
  assert (L : length row = W) by exact (Forall_lookup_1 _ _ _ _ F E).
  destruct (in_slice (length a) y1 y2 i); cbn.
  - rewrite list_lookup_imap. rewrite L. reflexivity.
  - destruct (row !! j); reflexivity.
Qed.

Lemma getitem_assign_all a px i j :
  getitem (assign_all a px) i j = (fun _ => px) <$> getitem a i j.
Proof.
  unfold getitem, assign_all, ndarray in *.
  change (map (map (fun _ : pixel => px)) a) with (map (fun _ : pixel => px) <$> a).
  rewrite list_lookup_fmap.
  destruct (a !! i) as [row |]; [| reflexivity]. cbn.
  apply list_lookup_fmap.
Qed.

Lemma shape_rows a H W : shape a = replicate H W -> Forall (fun row => length row = W) a.
Proof.
  intros S. apply Forall_lookup. intros i row Hi.
  assert (K : map length a !! i = Some (length row)).
  { change (map length a) with (length <$> a). rewrite list_lookup_fmap, Hi. reflexivity. }
  unfold shape in S. rewrite S in K. apply lookup_replicate in K. apply K.
Qed.

Lemma shape_length a H W : shape a = replicate H W -> length a = H.
Proof.
  intros S. unfold shape in S. apply (f_equal length) in S.
  rewrite length_map, length_replicate in S. exact S.
Qed.

Lemma getitem_bounds a H W i j p :
  shape a = replicate H W -> getitem a i j = Some p -> (i < H)%nat /\ (j < W)%nat.
Proof.
  intros S E. unfold getitem, ndarray in *.
  destruct (a !! i) as [row |] eqn:Er; [| discriminate]. cbn in E.
  assert (Li : (i < length a)%nat) by (eapply lookup_lt_Some, Er).
  pose proof (shape_length a H W S) as La.
  pose proof (Forall_lookup_1 _ _ _ _ (shape_rows a H W S) Er) as Lr. cbn in Lr.
  split; [lia |]. rewrite <- Lr. eapply lookup_lt_Some, E.
Qed.

Lemma length_concat_shape (a : ndarray) H W :
  shape a = replicate H W -> length (concat a) = (H * W)%nat.
Proof.
  revert H. induction a as [| row a IH]; intros H S.
  - destruct H; [reflexivity | discriminate].
  - destruct H as [| H]; [discriminate |]. cbn in S. injection S as L S.
    cbn [concat]. rewrite length_app, (IH H S), L. reflexivity.
Qed.

Lemma option_fmap_fmap {A B C : Type} (f : A -> B) (g : B -> C) (o : option A) :
  g <$> (f <$> o) = (fun x => g (f x)) <$> o.
Proof. destruct o; reflexivity. Qed.

(** *** The format of the canvas is kept *)

Lemma keeps_format_draw bg a y1 y2 x1 x2 (c : color) :
  keeps_format bg a (assign_region a y1 y2 x1 x2 (as_pixel c)).
Proof.
  split; [apply assign_region_shape |].
  intros _. apply assign_region_dtype, as_pixel_uint8.
Qed.

Lemma keeps_format_clear bg a y1 y2 x1 x2 :
  keeps_format bg a (assign_region a y1 y2 x1 x2 bg).
Proof.
  split; [apply assign_region_shape |].
  intros Hb. apply assign_region_dtype, Hb.
Qed.

Lemma keeps_format_clear_all bg a : keeps_format bg a (assign_all a bg).
Proof.
  split; [apply assign_all_shape |]. intros Hb _. apply assign_all_dtype, Hb.
Qed.

Lemma run_same_canvas cv2 c s :
  (forall m, cv2 = Some m -> cv2_in_place m) -> same_canvas s (run cv2 c s).
Proof.
  intros Hcv2. apply run_framed.
  - apply keeps_format_refl.
  - apply keeps_format_trans.
  - apply keeps_format_draw.
  - apply keeps_format_clear.
  - apply keeps_format_clear_all.
  - exact Hcv2.
Qed.

Lemma no_cv2_in_place m : @None cv2_module = Some m -> cv2_in_place m.
Proof. discriminate. Qed.

Lemma add_rectangle_well_formed s name x y w h c filled t :
  well_formed s -> well_formed (add_rectangle s name x y w h c filled t).
Proof.
  apply same_canvas_well_formed.
  apply (run_same_canvas None (Add_rectangle name x y w h c filled t) s no_cv2_in_place).
Qed.

Lemma _clear_region_well_formed s x y w h :
  well_formed s -> well_formed (_clear_region s x y w h).
Proof.
  apply same_canvas_well_formed, _clear_region_framed.
  - apply keeps_format_refl.
  - apply keeps_format_clear.
Qed.

Lemma draw_region_well_formed s y1 y2 x1 x2 (c : color) :
  well_formed s ->
  well_formed (draw s (fun a => assign_region a y1 y2 x1 x2 (as_pixel c))).
Proof.
  apply same_canvas_well_formed, draw_framed. intros a. apply keeps_format_draw.
Qed.

Lemma well_formed_fields self self' hp :
  overlay self' = overlay self -> width self' = width self ->
  height self' = height self -> background_color self' = background_color self ->
  well_formed (self, hp) -> well_formed (self', hp).
Proof.
  intros O W H B (a & E & S & T & Tb). exists a.
  unfold canvas in *. cbn [fst snd] in *. rewrite O, W, H, B. auto.
Qed.

Lemma well_formed_canvas s :
  well_formed s ->
  exists a, canvas s = Some a
            /\ shape a = replicate (Z.to_nat (height s.1)) (Z.to_nat (width s.1)).
Proof. intros (a & E & S & _). eauto. Qed.

Lemma helper_4x4_well_formed : well_formed helper_4x4.
Proof.
  exists (replicate 4%nat (replicate 4%nat clear)).
  split; [reflexivity |]. split; [reflexivity |].
  split; [| cbn; lia].
  repeat constructor; cbn; lia.
Qed.

Lemma marked_4x4_well_formed : well_formed marked_4x4.
Proof. apply add_rectangle_well_formed, helper_4x4_well_formed. Qed.

(** *** Pixels after an operation *)

Lemma canvas_pixel_fields self self' hp i j :
  overlay self' = overlay self ->
  canvas_pixel (self', hp) i j = canvas_pixel (self, hp) i j.
Proof. intros E. unfold canvas_pixel, canvas. cbn [fst snd]. rewrite E. reflexivity. Qed.

Lemma canvas_pixel_draw s f i j :
  canvas_pixel (draw s f) i j = (a ← canvas s; getitem (f a) i j).
Proof.
  unfold canvas_pixel. rewrite canvas_draw. destruct (canvas s); reflexivity.
Qed.

(** two descriptions of a change agree when they agree on the canvas *)
Lemma canvas_pixel_ext (f g : pixel -> pixel) s i j :
  well_formed s ->
  (forall p, 0 <= Z.of_nat i < height s.1 -> 0 <= Z.of_nat j < width s.1 -> f p = g p) ->
  f <$> canvas_pixel s i j = g <$> canvas_pixel s i j.
Proof.
  intros Hwf Hfg. destruct (well_formed_canvas s Hwf) as (a & E & S).
  unfold canvas_pixel. rewrite E. cbn.
  destruct (getitem a i j) as [p |] eqn:G; [| reflexivity].
  destruct (getitem_bounds a _ _ i j p S G). cbn. f_equal. apply Hfg; lia.
Qed.

(** an assignment to a region *)
Lemma draw_region_pixel s y1 y2 x1 x2 px i j :
  well_formed s ->
  canvas_pixel (draw s (fun a => assign_region a y1 y2 x1 x2 px)) i j
  = (fun p => if in_slice (Z.to_nat (height s.1)) y1 y2 i
                 && in_slice (Z.to_nat (width s.1)) x1 x2 j
              then px else p) <$> canvas_pixel s i j.
Proof.
  intros Hwf. destruct (well_formed_canvas s Hwf) as (a & E & S).
  rewrite canvas_pixel_draw. unfold canvas_pixel. rewrite E. cbn.
  rewrite (getitem_assign_region a (Z.to_nat (width s.1))) by (eapply shape_rows, S).
  rewrite (shape_length _ _ _ S). reflexivity.
Qed.

Lemma _clear_region_fields s x y w h : (_clear_region s x y w h).1 = s.1.
Proof.
  destruct s as [self hp]. unfold _clear_region.
  destruct (_ && _); reflexivity.
Qed.

Lemma _clear_region_pixel s x y w h i j :
  well_formed s ->
  canvas_pixel (_clear_region s x y w h) i j
  = (fun p => if in_box (x, y, w, h) i j then background_color s.1 else p)
    <$> canvas_pixel s i j.
Proof.
  intros Hwf. destruct s as [self hp]. unfold _clear_region.
  destruct ((Z.min (width self) (x + w) >? Z.max 0 x)
            && (Z.min (height self) (y + h) >? Z.max 0 y)) eqn:G.
  - change (self, alter _ (overlay self) hp)
      with (draw (self, hp)
              (fun a => assign_region a (Z.max 0 y) (Z.min (height self) (y + h))
                          (Z.max 0 x) (Z.min (width self) (x + w))
                          (background_color self))).
    rewrite draw_region_pixel by assumption. cbn [fst].
    apply canvas_pixel_ext; [assumption |]. cbn [fst]. intros p Hi Hj.
    rewrite !in_slice_canvas by lia. unfold in_box. zbool.
  - rewrite <- (option_fmap_id (canvas_pixel (self, hp) i j)) at 1.
    apply canvas_pixel_ext; [assumption |]. cbn [fst]. intros p Hi Hj.
    unfold in_box. revert G. zbool; intros; try discriminate.
Qed.

(** clearing a list of regions, one after the other *)
Lemma clear_regions_fields rs s :
  (fold_left (fun s r => let '(x, y, width, height) := r in
                         _clear_region s x y width height) rs s).1 = s.1.
Proof.
  revert s. induction rs as [| [[[x y] w] h] rs IH]; intros s; [reflexivity |].
  cbn [fold_left]. rewrite IH. apply _clear_region_fields.
Qed.

Lemma clear_regions_pixel rs s i j :
  well_formed s ->
  canvas_pixel (fold_left (fun s r => let '(x, y, width, height) := r in
                                      _clear_region s x y width height) rs s) i j
  = (fun p => if in_boxes rs i j then background_color s.1 else p)
    <$> canvas_pixel s i j.
Proof.
  revert s. induction rs as [| [[[x y] w] h] rs IH]; intros s Hwf.
  - cbn [fold_left in_boxes existsb]. symmetry. apply option_fmap_id.
  - cbn [fold_left].
    rewrite (IH _ (_clear_region_well_formed s x y w h Hwf)).
    rewrite _clear_region_fields, _clear_region_pixel by assumption.
    rewrite option_fmap_fmap.
    cbn [in_boxes existsb]. fold (in_boxes rs i j).
    destruct (canvas_pixel s i j); [| reflexivity]. cbn [fmap option_fmap option_map].
    destruct (in_box (x, y, w, h) i j), (in_boxes rs i j); reflexivity.
Qed.

Lemma clear_dirty_regions_fields s :
  let s' := clear_dirty_regions s in
  elements s'.1 = elements s.1
  /\ dirty_regions s'.1 = []
  /\ _update_count s'.1 = _update_count s.1
  /\ background_color s'.1 = background_color s.1.
Proof.
  cbv zeta. unfold clear_dirty_regions.
  pose proof (clear_regions_fields (dirty_regions s.1) s) as F.
  destruct (fold_left _ (dirty_regions s.1) s). cbn [fst] in *. subst. auto.
Qed.

Lemma clear_dirty_regions_pixel s i j :
  well_formed s ->
  canvas_pixel (clear_dirty_regions s) i j
  = (fun p => if in_boxes (dirty_regions s.1) i j then background_color s.1 else p)
    <$> canvas_pixel s i j.
Proof.
  intros Hwf. rewrite <- (clear_regions_pixel (dirty_regions s.1) s i j Hwf).
  unfold clear_dirty_regions.
  pose proof (clear_regions_fields (dirty_regions s.1) s) as F.
  destruct (fold_left _ (dirty_regions s.1) s) as [self' hp']. cbn [fst] in F.
  apply canvas_pixel_fields. reflexivity.
Qed.

(** *** The bookkeeping of the drawing methods *)

Lemma registered_heap s name e : (registered s name e).2 = s.2.
Proof.
  destruct s as [self hp]. unfold registered, mark_old_dirty. cbn [fst].
  destruct (elements self !! name) as [old |]; [| reflexivity].
  destruct old; reflexivity.
Qed.

Lemma registered_fields s name e :
  let s' := registered s name e in
  width s'.1 = width s.1 /\ height s'.1 = height s.1
  /\ background_color s'.1 = background_color s.1
  /\ overlay s'.1 = overlay s.1
  /\ elements s'.1 = <[name := e]> (elements s.1)
  /\ _update_count s'.1 = _update_count s.1
  /\ dirty_regions s'.1
     = dirty_regions s.1
       ++ match elements s.1 !! name with
          | Some old => [OverlayElement.get_bounds old]
          | None => []
          end.
Proof.
  destruct s as [self hp]. unfold registered, mark_old_dirty. cbn [fst].
  destruct (elements self !! name) as [old |].
  - destruct old. cbn. auto 10.
  - cbn. rewrite app_nil_r. auto 10.
Qed.

Lemma canvas_pixel_registered s name e i j :
  canvas_pixel (registered s name e) i j = canvas_pixel s i j.
Proof.
  destruct (registered_fields s name e) as (_ & _ & _ & O & _).
  pose proof (registered_heap s name e) as Hh.
  destruct (registered s name e) as [self' hp'], s as [self hp].
  cbn [fst snd] in *. subst hp'. apply canvas_pixel_fields, O.
Qed.

Lemma registered_well_formed s name e : well_formed s -> well_formed (registered s name e).
Proof.
  destruct (registered_fields s name e) as (W & H & B & O & _).
  pose proof (registered_heap s name e) as Hh.
  destruct (registered s name e) as [self' hp'], s as [self hp].
  cbn [fst snd] in *. subst hp'. apply well_formed_fields; assumption.
Qed.

Lemma count_update_fields s :
  let s' := count_update s in
  elements s'.1 = elements s.1 /\ dirty_regions s'.1 = dirty_regions s.1
  /\ _update_count s'.1 = _update_count s.1 + 1.
Proof. destruct s as [self hp]. cbn. auto. Qed.

Lemma canvas_pixel_count_update s i j :
  canvas_pixel (count_update s) i j = canvas_pixel s i j.
Proof. destruct s as [self hp]. reflexivity. Qed.

(** *** [add_rectangle] *)

Lemma add_rectangle_filled s name x y w h c t :
  add_rectangle s name x y w h c true t
  = count_update
      (draw (registered s name (OverlayElement.init name x y w h))
         (fun a => assign_region a (Z.max 0 y) (Z.min (height s.1) (y + h))
                     (Z.max 0 x) (Z.min (width s.1) (x + w)) (as_pixel c))).
Proof.
  unfold add_rectangle. cbv zeta.
  fold (registered s name (OverlayElement.init name x y w h)).
  destruct (registered_fields s name (OverlayElement.init name x y w h))
    as (W & H & _). rewrite W, H. reflexivity.
Qed.

Lemma add_rectangle_outline s name x y w h c t :
  let x1 := Z.max 0 x in
  let y1 := Z.max 0 y in
  let x2 := Z.min (width s.1) (x + w) in
  let y2 := Z.min (height s.1) (y + h) in
  let px := as_pixel c in
  add_rectangle s name x y w h c false t
  = count_update
      (draw (draw (draw (draw (registered s name (OverlayElement.init name x y w h))
                           (fun a => assign_region a y1 (y1 + t) x1 x2 px))
                      (fun a => assign_region a (y2 - t) y2 x1 x2 px))
                (fun a => assign_region a y1 y2 x1 (x1 + t) px))
          (fun a => assign_region a y1 y2 (x2 - t) x2 px)).
Proof.
  cbv zeta. unfold add_rectangle. cbv zeta.
  fold (registered s name (OverlayElement.init name x y w h)).
  destruct (registered_fields s name (OverlayElement.init name x y w h))
    as (W & H & _). rewrite W, H. reflexivity.
Qed.

Lemma add_rectangle_fields s name x y w h c filled t :
  let s' := add_rectangle s name x y w h c filled t in
  elements s'.1 = <[name := OverlayElement.init name x y w h]> (elements s.1)
  /\ _update_count s'.1 = _update_count s.1 + 1
  /\ dirty_regions s'.1
     = dirty_regions s.1
       ++ match elements s.1 !! name with
          | Some old => [OverlayElement.get_bounds old]
          | None => []
          end.
Proof.
  cbv zeta.
  destruct (registered_fields s name (OverlayElement.init name x y w h))
    as (_ & _ & _ & _ & E & U & D).
  destruct filled; [rewrite add_rectangle_filled | rewrite add_rectangle_outline; cbv zeta];
    match goal with |- context [count_update ?s0] =>
      destruct (count_update_fields s0) as (E' & D' & U') end;
    rewrite E', U', D'; cbn [draw fst]; rewrite E, U, D; auto.
Qed.

(** what a filled rectangle does to the pixels, in terms of the slices *)
Lemma add_rectangle_filled_slices s name x y w h c t i j :
  well_formed s ->
  canvas_pixel (add_rectangle s name x y w h c true t) i j
  = (fun p => if in_slice (Z.to_nat (height s.1)) (Z.max 0 y)
                   (Z.min (height s.1) (y + h)) i
                 && in_slice (Z.to_nat (width s.1)) (Z.max 0 x)
                      (Z.min (width s.1) (x + w)) j
              then as_pixel c else p) <$> canvas_pixel s i j.
Proof.
  intros Hwf. rewrite add_rectangle_filled, canvas_pixel_count_update.
  rewrite draw_region_pixel by (apply registered_well_formed, Hwf).
  destruct (registered_fields s name (OverlayElement.init name x y w h))
    as (W & H & _). rewrite W, H, canvas_pixel_registered. reflexivity.
Qed.

(** a rectangle that does not end left of or above the canvas *)
Lemma add_rectangle_filled_in_box s name x y w h c t i j :
  well_formed s -> 0 <= x + w -> 0 <= y + h ->
  canvas_pixel (add_rectangle s name x y w h c true t) i j
  = (fun p => if in_box (x, y, w, h) i j then as_pixel c else p) <$> canvas_pixel s i j.
Proof.
  intros Hwf Hx Hy. rewrite add_rectangle_filled_slices by assumption.
  apply canvas_pixel_ext; [assumption |]. intros p Hi Hj.
  rewrite !in_slice_canvas by lia. unfold in_box. zbool.
Qed.

(** *** The update count of a call *)

Lemma run_update_count cv2 c s :
  _update_count (run cv2 c s).1
  = _update_count s.1 + (if counts_update cv2 c then 1 else 0).
Proof.
  assert (Reg : forall s0 n e f,
    _update_count (count_update (draw (registered s0 n e) f)).1 = _update_count s0.1 + 1).
  { intros s0 n e f.
    destruct (count_update_fields (draw (registered s0 n e) f)) as (_ & _ & U).
    destruct (registered_fields s0 n e) as (_ & _ & _ & _ & _ & U' & _).
    rewrite U. cbn [draw fst]. rewrite U'. reflexivity. }
  destruct c as [name x y w h col filled t | name x1 y1 x2 y2 col t
                 | name cx cy r col filled t | name x y text col font_scale thickness font
                 | name x y text col font_scale thickness font | name | name | name | | |];
    cbn [run counts_update].
  - apply add_rectangle_fields.
  - destruct cv2 as [m |]; cbn [add_line]; [apply Reg | apply add_rectangle_fields].
  - destruct cv2 as [m |]; cbn [add_circle]; [apply Reg | apply add_rectangle_fields].
  - destruct cv2 as [m |]; cbn [add_text CV2_AVAILABLE]; [| lia].
    destruct (getTextSize m text _ font_scale thickness) as [[tw th] bl]. apply Reg.
  - unfold update_text. destruct cv2 as [m |]; cbn [add_text CV2_AVAILABLE]; [| lia].
    destruct (getTextSize m text _ font_scale thickness) as [[tw th] bl]. apply Reg.
  - unfold remove_element. destruct (elements s.1 !! name) as [[en ex ey ew eh ev] |]; [| lia].
    cbn [OverlayElement.get_bounds OverlayElement.x OverlayElement.y
         OverlayElement.width OverlayElement.height].
    pose proof (_clear_region_fields s ex ey ew eh) as U.
    destruct (_clear_region s ex ey ew eh). cbn [fst _update_count] in *. subst. lia.
  - unfold hide_element. destruct (elements s.1 !! name) as [[en ex ey ew eh ev] |]; [| lia].
    cbn [OverlayElement.get_bounds OverlayElement.x OverlayElement.y
         OverlayElement.width OverlayElement.height].
    rewrite _clear_region_fields. destruct s. cbn. lia.
  - unfold show_element. destruct (elements s.1 !! name) as [e |]; [| lia].
    destruct s. cbn. lia.
  - destruct (clear_dirty_regions_fields s) as (_ & _ & U & _). rewrite U. lia.
  - destruct s. reflexivity.
  - cbn. lia.
Qed.

End overlay_pixel_facts.

(** ** The overlay helper: what each operation does to the canvas *)

Module overlay_properties.
Import Binary64 Binary64_facts Py Py_facts.
Import numpy OverlayHelper overlay_view overlay_facts overlay_pixel_facts.
Import overlay_scenarios hud_scenarios.
Local Open Scope Z_scope.

(** X1.  [_clear_region] sets the pixels of the box that lie on the canvas
    to the background colour, leaves every other pixel as it is and
    changes no field of the helper. *)
Theorem clear_region_pixels s x y w h :
  well_formed s ->
  let s' := _clear_region s x y w h in
  s'.1 = s.1
  /\ forall i j,
       canvas_pixel s' i j
       = (fun p => if in_box (x, y, w, h) i j then background_color s.1 else p)
         <$> canvas_pixel s i j.
Proof.
  intros Hwf. cbv zeta. split; [apply _clear_region_fields |].
  intros i j. apply _clear_region_pixel, Hwf.
Qed.

Lemma clear_region_pixels_witness :
  let s' := _clear_region marked_4x4 0 0 1 1 in
  s'.1 = marked_4x4.1
  /\ forall i j,
       canvas_pixel s' i j
       = (fun p => if in_box (0, 0, 1, 1) i j then background_color marked_4x4.1 else p)
         <$> canvas_pixel marked_4x4 i j.
Proof. exact (clear_region_pixels marked_4x4 0 0 1 1 marked_4x4_well_formed). Defined.

(** X2.  A filled rectangle that does not end left of or above the canvas,
    in a colour whose four components are from 0 to 255: [add_rectangle]
    gives the pixels of the rectangle that lie on the canvas that colour
    and leaves every other pixel as it is; the element is stored under its
    name with the bounds given, the other elements stay, and the update is
    counted. *)
Theorem add_rectangle_filled_pixels s name x y w h c t :
  well_formed s -> is_uint8 c -> 0 <= x + w -> 0 <= y + h ->
  let s' := add_rectangle s name x y w h c true t in
  (forall i j,
     canvas_pixel s' i j
     = (fun p => if in_box (x, y, w, h) i j then c else p) <$> canvas_pixel s i j)
  /\ elements s'.1 !! name = Some (OverlayElement.init name x y w h)
  /\ (forall other, other <> name -> elements s'.1 !! other = elements s.1 !! other)
  /\ _update_count s'.1 = _update_count s.1 + 1.
Proof.
  intros Hwf Hc Hx Hy. cbv zeta.
  destruct (add_rectangle_fields s name x y w h c true t) as (E & U & _).
  split; [| split; [| split]].
  - intros i j. rewrite add_rectangle_filled_in_box by assumption.
    rewrite (as_pixel_in_range c Hc). reflexivity.
  - rewrite E. apply lookup_insert_eq.
  - intros other Ho. rewrite E. apply lookup_insert_ne. congruence.
  - exact U.
Qed.

Lemma add_rectangle_filled_pixels_witness :
  let s' := add_rectangle helper_4x4 "marker" 1 1 2 2 red true 2 in
  (forall i j,
     canvas_pixel s' i j
     = (fun p => if in_box (1, 1, 2, 2) i j then red else p)
       <$> canvas_pixel helper_4x4 i j)
  /\ elements s'.1 !! "marker" = Some (OverlayElement.init "marker" 1 1 2 2)
  /\ (forall other, other <> "marker" ->
        elements s'.1 !! other = elements helper_4x4.1 !! other)
  /\ _update_count s'.1 = _update_count helper_4x4.1 + 1.
Proof.
  exact (add_rectangle_filled_pixels helper_4x4 "marker" 1 1 2 2 red 2
           helper_4x4_well_formed ltac:(cbn; lia) ltac:(lia) ltac:(lia)).
Defined.

(** X3.  A filled rectangle that ends left of the canvas ([x + width < 0])
    is not skipped: the negative stop of the slice counts from the right
    edge, and [add_rectangle] paints, in the rows of the rectangle, the
    columns from [max(0, x)] up to [self.width + (x + width)], none of which
    is a column of the rectangle. *)
Theorem add_rectangle_left_of_canvas s name x y w h c t :
  well_formed s -> x + w < 0 -> 0 <= y + h ->
  forall i j,
    canvas_pixel (add_rectangle s name x y w h c true t) i j
    = (fun p => if (y <=? Z.of_nat i) && (Z.of_nat i <? y + h)
                   && (Z.max 0 x <=? Z.of_nat j)
                   && (Z.of_nat j <? width s.1 + (x + w))
                then as_pixel c else p)
      <$> canvas_pixel s i j.
Proof.
  intros Hwf Hx Hy i j. rewrite add_rectangle_filled_slices by assumption.
  apply canvas_pixel_ext; [assumption |]. intros p Hi Hj.
  rewrite (in_slice_canvas (height s.1)) by lia.
  unfold in_slice. rewrite Z2Nat.id by lia.
  rewrite (slice_bound_nonneg _ (Z.max 0 x)) by lia.
  rewrite (slice_bound_neg _ (Z.min (width s.1) (x + w))) by lia. zbool.
Qed.

(** a 1 x 1 rectangle at x = -3 reaches the pixel in column 1 *)
Lemma add_rectangle_left_of_canvas_witness :
  canvas_pixel (add_rectangle helper_4x4 "marker" (-3) 0 1 1 red true 2) 0 1
  = Some (as_pixel red).
Proof.
  exact (add_rectangle_left_of_canvas helper_4x4 "marker" (-3) 0 1 1 red 2
           helper_4x4_well_formed ltac:(lia) ltac:(lia) 0%nat 1%nat).
Defined.

(** X4.  The outline of a rectangle ([filled=False]) whose thickness is at
    most the width and the height of the part of the rectangle on the
    canvas: the pixels of that part within [thickness] of one of its edges
    get the colour, every other pixel stays.  The outline follows the
    edges of the clipped rectangle, so a rectangle that leaves the canvas
    has a line along the edge of the canvas. *)
Theorem add_rectangle_outline_pixels s name x y w h c t :
  well_formed s ->
  let cx := Z.max 0 x in
  let cy := Z.max 0 y in
  let cw := Z.min (width s.1) (x + w) - cx in
  let ch := Z.min (height s.1) (y + h) - cy in
  0 <= t <= cw -> t <= ch ->
  forall i j,
    canvas_pixel (add_rectangle s name x y w h c false t) i j
    = (fun p => if in_box (cx, cy, cw, ch) i j
                   && negb (in_box (cx + t, cy + t, cw - 2 * t, ch - 2 * t) i j)
                then as_pixel c else p)
      <$> canvas_pixel s i j.
Proof.
  intros Hwf. cbv zeta. intros Ht Ht' i j.
  rewrite add_rectangle_outline. cbv zeta. rewrite canvas_pixel_count_update.
  set (r := registered s name (OverlayElement.init name x y w h)).
  assert (Wr : well_formed r) by (apply registered_well_formed, Hwf).
  destruct (registered_fields s name (OverlayElement.init name x y w h))
    as (W & H & _). fold r in W, H.
  rewrite draw_region_pixel by (repeat apply draw_region_well_formed; exact Wr).
  rewrite draw_region_pixel by (repeat apply draw_region_well_formed; exact Wr).
  rewrite draw_region_pixel by (repeat apply draw_region_well_formed; exact Wr).
  rewrite draw_region_pixel by exact Wr.
  cbn [draw fst]. rewrite W, H. unfold r. rewrite canvas_pixel_registered.
  rewrite !option_fmap_fmap.
  apply canvas_pixel_ext; [assumption |]. intros p Hi Hj.
  rewrite !in_slice_canvas by lia. unfold in_box.
  rewrite !if_same_or. apply if_ext. zprop.
Qed.

(** the outline of the whole 4 x 4 canvas leaves the pixel (1, 1) alone *)
Lemma add_rectangle_outline_pixels_witness :
  canvas_pixel (add_rectangle helper_4x4 "frame" 0 0 4 4 red false 1) 1 1
  = (fun p => if in_box (0, 0, 4, 4) 1 1 && negb (in_box (1, 1, 2, 2) 1 1)
              then as_pixel red else p)
    <$> canvas_pixel helper_4x4 1 1.
Proof.
  exact (add_rectangle_outline_pixels helper_4x4 "frame" 0 0 4 4 red 1
           helper_4x4_well_formed ltac:(cbn; lia) ltac:(cbn; lia) 1%nat 1%nat).
Defined.

(** X5.  [remove_element] of an element that is there: the name is no
    longer an element, the other elements stay, the pixels of its bounds
    are set to the background colour and no other pixel changes; the dirty
    regions and the update count are as before. *)
Theorem remove_element_pixels s name e :
  well_formed s -> elements s.1 !! name = Some e ->
  let s' := remove_element s name in
  elements s'.1 !! name = None
  /\ (forall other, other <> name -> elements s'.1 !! other = elements s.1 !! other)
  /\ (forall i j,
        canvas_pixel s' i j
        = (fun p => if in_box (OverlayElement.get_bounds e) i j
                    then background_color s.1 else p)
          <$> canvas_pixel s i j)
  /\ dirty_regions s'.1 = dirty_regions s.1
  /\ _update_count s'.1 = _update_count s.1.
Proof.
  intros Hwf He. cbv zeta. unfold remove_element. rewrite He.
  destruct e as [en ex ey ew eh ev]. cbn [OverlayElement.get_bounds OverlayElement.x
    OverlayElement.y OverlayElement.width OverlayElement.height].
  pose proof (_clear_region_fields s ex ey ew eh) as F.
  pose proof (fun i j => _clear_region_pixel s ex ey ew eh i j Hwf) as P.
  destruct (_clear_region s ex ey ew eh) as [self' hp']. cbn [fst snd] in *. subst self'.
  split; [apply lookup_delete_eq |].
  split; [intros other Ho; apply lookup_delete_ne; congruence |].
  split; [| split; reflexivity].
  intros i j. rewrite <- P. apply canvas_pixel_fields. reflexivity.
Qed.

Lemma remove_element_pixels_witness :
  let s' := remove_element marked_4x4 "marker" in
  elements s'.1 !! "marker" = None
  /\ (forall other, other <> "marker" ->
        elements s'.1 !! other = elements marked_4x4.1 !! other)
  /\ (forall i j,
        canvas_pixel s' i j
        = (fun p => if in_box (OverlayElement.get_bounds marker) i j
                    then background_color marked_4x4.1 else p)
          <$> canvas_pixel marked_4x4 i j)
  /\ dirty_regions s'.1 = dirty_regions marked_4x4.1
  /\ _update_count s'.1 = _update_count marked_4x4.1.
Proof.
  exact (remove_element_pixels marked_4x4 "marker" marker marked_4x4_well_formed
           eq_refl).
Defined.

(** X6.  [hide_element] and then [show_element] on a visible element give
    back the fields of the helper as they were, the elements among them;
    the pixels of the bounds of the element stay cleared: showing an
    element does not draw it. *)
Theorem hide_then_show s name e :
  well_formed s -> elements s.1 !! name = Some e -> OverlayElement.visible e = true ->
  let s' := show_element (hide_element s name) name in
  s'.1 = s.1
  /\ forall i j,
       canvas_pixel s' i j
       = (fun p => if in_box (OverlayElement.get_bounds e) i j
                   then background_color s.1 else p)
         <$> canvas_pixel s i j.
Proof.
  intros Hwf He Hv. cbv zeta. unfold hide_element. rewrite He.
  destruct e as [en ex ey ew eh ev]. cbn in Hv. subst ev.
  cbn [OverlayElement.get_bounds OverlayElement.x OverlayElement.name
    OverlayElement.y OverlayElement.width OverlayElement.height].
  set (hidden := OverlayElement.mk en ex ey ew eh false).
  set (s1 := set_element s name hidden).
  assert (W1 : well_formed s1).
  { destruct s as [self hp]. apply (well_formed_fields self); auto. }
  pose proof (_clear_region_fields s1 ex ey ew eh) as F.
  pose proof (fun i j => _clear_region_pixel s1 ex ey ew eh i j W1) as P.
  destruct (_clear_region s1 ex ey ew eh) as [self2 hp2]. cbn [fst snd] in *.
  destruct s as [self hp]. subst s1. cbn [set_element fst] in *. subst self2.
  unfold show_element. cbn [fst elements]. rewrite lookup_insert_eq.
  cbn [set_element fst snd OverlayElement.name OverlayElement.x
    OverlayElement.y OverlayElement.width OverlayElement.height hidden
    width height background_color overlay elements dirty_regions _update_count] in *.
  split.
  - rewrite insert_insert_eq. rewrite insert_id by exact He. destruct self; reflexivity.
  - intros i j. etransitivity; [| etransitivity; [apply (P i j) |]].
    + apply canvas_pixel_fields. reflexivity.
    + f_equal.
Qed.

Lemma hide_then_show_witness :
  let s' := show_element (hide_element marked_4x4 "marker") "marker" in
  s'.1 = marked_4x4.1
  /\ forall i j,
       canvas_pixel s' i j
       = (fun p => if in_box (OverlayElement.get_bounds marker) i j
                   then background_color marked_4x4.1 else p)
         <$> canvas_pixel marked_4x4 i j.
Proof.
  exact (hide_then_show marked_4x4 "marker" marker marked_4x4_well_formed
           eq_refl eq_refl).
Defined.

(** X7.  [clear_all] sets every pixel to the background colour, empties
    the dirty regions and counts as an update; the elements stay
    registered, although nothing of them is left on the canvas. *)
Theorem clear_all_pixels s :
  let s' := clear_all s in
  (forall i j, canvas_pixel s' i j = (fun _ => background_color s.1) <$> canvas_pixel s i j)
  /\ elements s'.1 = elements s.1
  /\ dirty_regions s'.1 = []
  /\ _update_count s'.1 = _update_count s.1 + 1.
Proof.
  destruct s as [self hp]. cbv zeta. unfold clear_all, draw. cbn [fst snd].
  split; [| auto]. intros i j.
  etransitivity; [apply (canvas_pixel_fields self); reflexivity |].
  change (self, alter _ (overlay self) hp)
    with (draw (self, hp) (fun a => assign_all a (background_color self))).
  rewrite canvas_pixel_draw. unfold canvas_pixel.
  destruct (canvas (self, hp)) as [a |]; [| reflexivity].
  cbn. apply getitem_assign_all.
Qed.

(** X8.  [clear_dirty_regions] sets the pixels that lie in one of the dirty
    regions to the background colour and leaves the others; afterwards no
    region is dirty.  The elements and the update count are as before. *)
Theorem clear_dirty_regions_pixels s :
  well_formed s ->
  let s' := clear_dirty_regions s in
  (forall i j,
     canvas_pixel s' i j
     = (fun p => if in_boxes (dirty_regions s.1) i j then background_color s.1 else p)
       <$> canvas_pixel s i j)
  /\ dirty_regions s'.1 = []
  /\ elements s'.1 = elements s.1
  /\ _update_count s'.1 = _update_count s.1.
Proof.
  intros Hwf. cbv zeta.
  destruct (clear_dirty_regions_fields s) as (E & D & U & _).
  split; [| auto]. intros i j. apply clear_dirty_regions_pixel, Hwf.
Qed.

Lemma clear_dirty_regions_pixels_witness :
  let s := add_rectangle marked_4x4 "marker" 2 2 2 2 red true 2 in
  let s' := clear_dirty_regions s in
  (forall i j,
     canvas_pixel s' i j
     = (fun p => if in_boxes (dirty_regions s.1) i j then background_color s.1 else p)
       <$> canvas_pixel s i j)
  /\ dirty_regions s'.1 = []
  /\ elements s'.1 = elements s.1
  /\ _update_count s'.1 = _update_count s.1.
Proof.
  exact (clear_dirty_regions_pixels
           (add_rectangle marked_4x4 "marker" 2 2 2 2 red true 2)
           (add_rectangle_well_formed _ _ _ _ _ _ _ _ _ marked_4x4_well_formed)).
Defined.

(** X9.  Re-adding a filled rectangle and then calling
    [clear_dirty_regions] (with no other region dirty): the old bounds are
    cleared after the new rectangle was drawn, so the pixels the old and
    the new rectangle share end up in the background colour; the rest of
    the new rectangle has the colour, the rest of the canvas is as it
    was. *)
Theorem readd_then_clear_dirty s name old x y w h c t :
  well_formed s -> dirty_regions s.1 = [] -> elements s.1 !! name = Some old ->
  0 <= x + w -> 0 <= y + h ->
  let s' := clear_dirty_regions (add_rectangle s name x y w h c true t) in
  forall i j,
    canvas_pixel s' i j
    = (fun p => if in_box (OverlayElement.get_bounds old) i j then background_color s.1
                else if in_box (x, y, w, h) i j then as_pixel c
                else p)
      <$> canvas_pixel s i j.
Proof.
  intros Hwf Hd He Hx Hy. cbv zeta. intros i j.
  set (s1 := add_rectangle s name x y w h c true t).
  assert (W1 : well_formed s1) by (apply add_rectangle_well_formed, Hwf).
  rewrite clear_dirty_regions_pixel by exact W1.
  destruct (add_rectangle_fields s name x y w h c true t) as (_ & _ & D).
  fold s1 in D. rewrite D, Hd, He. cbn [app in_boxes existsb]. rewrite orb_false_r.
  assert (B : background_color s1.1 = background_color s.1).
  { apply (run_same_canvas None (Add_rectangle name x y w h c true t) s no_cv2_in_place). }
  rewrite B. subst s1. rewrite add_rectangle_filled_in_box by assumption.
  rewrite option_fmap_fmap.
  destruct (canvas_pixel s i j); [| reflexivity]. cbn [fmap option_fmap option_map].
  destruct (in_box (OverlayElement.get_bounds old) i j); reflexivity.
Qed.

(** the marker moved by one pixel: the pixel (1, 1), which the old and the
    new position share, is cleared *)
Lemma readd_then_clear_dirty_witness :
  canvas_pixel
    (clear_dirty_regions (add_rectangle marked_4x4 "marker" 1 1 2 2 red true 2)) 1 1
  = (fun p => if in_box (OverlayElement.get_bounds marker) 1 1
              then background_color marked_4x4.1
              else if in_box (1, 1, 2, 2) 1 1 then as_pixel red
              else p)
    <$> canvas_pixel marked_4x4 1 1.
Proof.
  exact (readd_then_clear_dirty marked_4x4 "marker" marker 1 1 2 2 red 2
           marked_4x4_well_formed eq_refl eq_refl ltac:(lia) ltac:(lia) 1%nat 1%nat).
Defined.

(** X10.  [_update_count] counts the calls that draw, and [clear_all]:
    removing, hiding or showing an element, clearing the dirty regions and
    [get_array] are not counted, and a text is counted only when OpenCV is
    there to draw it. *)
Theorem update_count_counts_drawing cv2 cs s :
  _update_count (run_all cv2 cs s).1
  = _update_count s.1
    + Z.of_nat (sum_list_with (fun c => if counts_update cv2 c then 1%nat else 0%nat) cs).
Proof.
  revert s. induction cs as [| c cs IH]; intros s; cbn [run_all fold_left sum_list_with].
  - lia.
  - fold (run_all cv2 cs (run cv2 c s)). rewrite IH, run_update_count.
    destruct (counts_update cv2 c); lia.
Qed.

(** X11.  Every re-adding of an element appends one region to
    [dirty_regions]: after [n + 1] calls of [add_rectangle] for a name
    that was there, with no [clear_dirty_regions] between them, the list
    has grown by the old bounds and [n] copies of the new ones. *)
Theorem dirty_regions_grow s name old x y w h c filled t n :
  elements s.1 !! name = Some old ->
  let frame s := add_rectangle s name x y w h c filled t in
  dirty_regions (Nat.iter (S n) frame s).1
  = dirty_regions s.1 ++ OverlayElement.get_bounds old :: replicate n (x, y, w, h).
Proof.
  intros He frame.
  assert (D : forall s0, dirty_regions (frame s0).1
                = dirty_regions s0.1
                  ++ match elements s0.1 !! name with
                     | Some old => [OverlayElement.get_bounds old]
                     | None => []
                     end)
    by (intros s0; apply add_rectangle_fields).
  assert (E : forall s0, elements (frame s0).1 !! name
                = Some (OverlayElement.init name x y w h)).
  { intros s0. destruct (add_rectangle_fields s0 name x y w h c filled t) as (E & _).
    unfold frame. rewrite E. apply lookup_insert_eq. }
  induction n as [| n IH].
  - cbn [Nat.iter nat_rect replicate]. rewrite D, He. reflexivity.
  - rewrite Nat.iter_succ, D, IH. rewrite Nat.iter_succ, E.
    cbn [OverlayElement.get_bounds OverlayElement.init OverlayElement.x
      OverlayElement.y OverlayElement.width OverlayElement.height].
    rewrite <- app_assoc. f_equal. cbn [app]. f_equal.
    clear. induction n as [| n IH]; [reflexivity |].
    cbn [replicate app]. f_equal. exact IH.
Qed.

Lemma dirty_regions_grow_witness :
  dirty_regions
    (Nat.iter 3 (fun s => add_rectangle s "marker" 1 1 2 2 red true 2) marked_4x4).1
  = dirty_regions marked_4x4.1
    ++ OverlayElement.get_bounds marker :: replicate 2 (1, 1, 2, 2).
Proof.
  exact (dirty_regions_grow marked_4x4 "marker" marker 1 1 2 2 red true 2 2 eq_refl).
Defined.

Lemma init_pixels hp w h bg s :
  init hp w h bg = Some s ->
  forall i j, 0 <= Z.of_nat i < h -> 0 <= Z.of_nat j < w ->
    canvas_pixel s i j = Some (as_pixel bg).
Proof.
  unfold init. destruct ((w <? 0) || (h <? 0)); [discriminate |].
  intros [= <-] i j Hi Hj. unfold canvas_pixel, canvas. cbn [fst snd overlay].
  unfold heap. rewrite lookup_insert_eq. cbn.
  rewrite getitem_assign_all. unfold getitem, zeros, ndarray.
  rewrite lookup_replicate_2 by lia. cbn.
  rewrite lookup_replicate_2 by lia. reflexivity.
Qed.

(** X12.  A helper made with a width and a height that are not negative
    and a background colour whose four components are from 0 to 255 has
    an array of its own, of that size and filled with the background
    colour; the arrays that were on the heap are as they were, and the
    helper starts with no element, no dirty region and an update count of
    0. *)
Theorem init_fresh_canvas hp w h bg :
  0 <= w -> 0 <= h -> is_uint8 bg ->
  exists s,
    init hp w h bg = Some s
    /\ well_formed s
    /\ width s.1 = w /\ height s.1 = h
    /\ hp !! overlay s.1 = None
    /\ (forall l, l <> overlay s.1 -> s.2 !! l = hp !! l)
    /\ background_color s.1 = bg
    /\ (forall i j, 0 <= Z.of_nat i < h -> 0 <= Z.of_nat j < w ->
          canvas_pixel s i j = Some bg)
    /\ elements s.1 = ∅ /\ dirty_regions s.1 = [] /\ _update_count s.1 = 0.
Proof.
  intros Hw Hh Hbg.
  assert (E : exists s, init hp w h bg = Some s).
  { unfold init. destruct (Z.ltb_spec w 0); [lia |]. destruct (Z.ltb_spec h 0); [lia |].
    cbn [orb]. eauto. }
  destruct E as [s E]. exists s. split; [exact E |].
  destruct (init_well_formed _ _ _ _ _ E) as [Wf Fr].
  split; [exact Wf |].
  assert (K : width s.1 = w /\ height s.1 = h
              /\ (forall l, l <> overlay s.1 -> s.2 !! l = hp !! l)
              /\ background_color s.1 = as_pixel bg
              /\ elements s.1 = ∅ /\ dirty_regions s.1 = [] /\ _update_count s.1 = 0).
  { revert E. unfold init. destruct ((w <? 0) || (h <? 0)); [discriminate |].
    intros [= <-].
    cbn [fst snd overlay width height background_color elements dirty_regions
         _update_count].
    repeat split. intros l Hl. unfold heap. apply lookup_insert_ne.
    intros K. apply Hl. symmetry. exact K. }
  destruct K as (Kw & Kh & Kl & Kb & Ke & Kd & Ku).
  rewrite (as_pixel_in_range bg Hbg) in Kb.
  repeat split; try assumption.
  intros i j Hi Hj. rewrite <- (as_pixel_in_range bg Hbg).
  apply (init_pixels _ _ _ _ _ E); assumption.
Qed.

Lemma init_fresh_canvas_witness :
  exists s,
    init ∅ 4 4 (0, 0, 0, 0) = Some s
    /\ well_formed s
    /\ width s.1 = 4 /\ height s.1 = 4
    /\ (∅ : heap) !! overlay s.1 = None
    /\ (forall l, l <> overlay s.1 -> s.2 !! l = (∅ : heap) !! l)
    /\ background_color s.1 = (0, 0, 0, 0)
    /\ (forall i j, 0 <= Z.of_nat i < 4 -> 0 <= Z.of_nat j < 4 ->
          canvas_pixel s i j = Some (0, 0, 0, 0))
    /\ elements s.1 = ∅ /\ dirty_regions s.1 = [] /\ _update_count s.1 = 0.
Proof.
  exact (init_fresh_canvas ∅ 4 4 (0, 0, 0, 0) ltac:(lia) ltac:(lia) ltac:(cbn; lia)).
Defined.

Lemma nbytes_shape a H W :
  shape a = replicate H W -> OverlayStats.nbytes a = 4 * Z.of_nat H * Z.of_nat W.
Proof. intros S. unfold OverlayStats.nbytes. rewrite (length_concat_shape a H W S). lia. Qed.

(** a quotient by 2^20 of an integer that fits the significand is exact *)
Lemma int_truediv_mebi n :
  0 <= n <= 2 ^ 53 ->
  exists mb, int_truediv n (1024 * 1024) = Ok mb
             /\ (mb * inject_Z (2 ^ 20) == inject_Z n)%Q.
Proof.
  intros Hn. unfold int_truediv, round_to_float. cbv zeta.
  change (1024 * 1024 =? 0) with false. cbv iota.
  assert (E : (inject_Z n / inject_Z (1024 * 1024) == inject_Z n * pow2 (-20))%Q).
  { change (pow2 (-20)) with (/ inject_Z (1024 * 1024))%Q. reflexivity. }
  assert (R : (rnd (inject_Z n / inject_Z (1024 * 1024)) == inject_Z n * pow2 (-20))%Q).
  { rewrite (rnd_comp _ _ E). apply rnd_exact; [exact Hn | unfold emin; lia]. }
  assert (O : overflows (rnd (inject_Z n / inject_Z (1024 * 1024))) = false).
  { apply (overflows_small _ (inject_Z (2 ^ 53))).
    - rewrite R. apply Qmult_le_0_compat; [| apply Qlt_le_weak, pow2_pos].
      change 0%Q with (inject_Z 0). rewrite <- Zle_Qle. lia.
    - rewrite R. assert (inject_Z n <= inject_Z (2 ^ 53))%Q by (rewrite <- Zle_Qle; lia).
      assert (0 <= inject_Z n)%Q by (change 0%Q with (inject_Z 0); rewrite <- Zle_Qle; lia).
      change (pow2 (-20)) with (1 # 1048576)%Q. lra.
    - unfold emax. rewrite pow2_Z by lia. rewrite <- Zlt_Qlt.
      apply Z.pow_lt_mono_r; lia. }
  rewrite O. eexists. split; [reflexivity |]. rewrite R.
  change (pow2 (-20)) with (1 # 1048576)%Q. change (inject_Z (2 ^ 20)) with (1048576 # 1)%Q.
  field.
Qed.

(** X13.  [get_stats] reports the number of elements, the update count,
    the size as ["WxH"] and the size of the canvas in units of 2^20 bytes;
    for a canvas of at most 2^53 bytes the float it reports is the exact
    quotient. *)
Theorem get_stats_reports s :
  well_formed s -> 0 <= width s.1 -> 0 <= height s.1 ->
  4 * height s.1 * width s.1 <= 2 ^ 53 ->
  exists mb,
    OverlayStats.get_stats s
    = Some (Ok {| OverlayStats.elements := Z.of_nat (base.size (elements s.1));
                  OverlayStats.updates := _update_count s.1;
                  OverlayStats.size := pretty (width s.1) +:+ "x" +:+ pretty (height s.1);
                  OverlayStats.memory_mb := mb |})
    /\ (mb * inject_Z (2 ^ 20) == inject_Z (4 * height s.1 * width s.1))%Q.
Proof.
  intros Hwf Hw Hh Hb. destruct (well_formed_canvas s Hwf) as (a & E & S).
  unfold OverlayStats.get_stats. rewrite E. cbn [mbind option_bind].
  rewrite (nbytes_shape a _ _ S), !Z2Nat.id by lia.
  destruct (int_truediv_mebi (4 * height s.1 * width s.1) ltac:(nia)) as (mb & Em & Hm).
  exists mb. rewrite Em. split; [reflexivity | exact Hm].
Qed.

Lemma get_stats_reports_witness :
  exists mb,
    OverlayStats.get_stats marked_4x4
    = Some (Ok {| OverlayStats.elements := Z.of_nat (base.size (elements marked_4x4.1));
                  OverlayStats.updates := _update_count marked_4x4.1;
                  OverlayStats.size := pretty (width marked_4x4.1) +:+ "x"
                                       +:+ pretty (height marked_4x4.1);
                  OverlayStats.memory_mb := mb |})
    /\ (mb * inject_Z (2 ^ 20)
        == inject_Z (4 * height marked_4x4.1 * width marked_4x4.1))%Q.
Proof.
  exact (get_stats_reports marked_4x4 marked_4x4_well_formed
           ltac:(vm_compute; discriminate) ltac:(vm_compute; discriminate)
           ltac:(vm_compute; discriminate)).
Defined.

(** X14.  Which names are registered after a call: a drawing call adds
    its name (a text only when OpenCV is there), [remove_element] takes its
    name away, and no other call changes the names; [clear_all] and
    [hide_element] in particular keep every element registered. *)
Theorem registered_names cv2 c s :
  dom (elements (run cv2 c s).1)
  = match registers cv2 c, c with
    | Some name, _ => {[name]} ∪ dom (elements s.1)
    | None, Remove_element name => dom (elements s.1) ∖ {[name]}
    | None, _ => dom (elements s.1)
    end.
Proof.
  assert (Reg : forall s0 n e f,
    dom (elements (count_update (draw (registered s0 n e) f)).1)
    = {[n]} ∪ dom (elements s0.1)).
  { intros s0 n e f.
    destruct (count_update_fields (draw (registered s0 n e) f)) as (E' & _).
    destruct (registered_fields s0 n e) as (_ & _ & _ & _ & E & _).
    rewrite E'. cbn [draw fst]. rewrite E. apply dom_insert_L. }
  assert (Rect : forall s0 n x y w h col f th,
    dom (elements (add_rectangle s0 n x y w h col f th).1) = {[n]} ∪ dom (elements s0.1)).
  { intros s0 n x y w h col f th.
    destruct (add_rectangle_fields s0 n x y w h col f th) as (E & _).
    rewrite E. apply dom_insert_L. }
  destruct c as [name x y w h col filled t | name x1 y1 x2 y2 col t
                 | name cx cy r col filled t | name x y text col font_scale thickness font
                 | name x y text col font_scale thickness font | name | name | name | | |];
    cbn [run registers].
  - apply Rect.
  - destruct cv2 as [m |]; cbn [add_line]; [apply Reg | apply Rect].
  - destruct cv2 as [m |]; cbn [add_circle]; [apply Reg | apply Rect].
  - destruct cv2 as [m |]; cbn [add_text CV2_AVAILABLE]; [| reflexivity].
    destruct (getTextSize m text _ font_scale thickness) as [[tw th] bl]. apply Reg.
  - unfold update_text. destruct cv2 as [m |]; cbn [add_text CV2_AVAILABLE]; [| reflexivity].
    destruct (getTextSize m text _ font_scale thickness) as [[tw th] bl]. apply Reg.
  - unfold remove_element.
    destruct (elements s.1 !! name) as [[en ex ey ew eh ev] |] eqn:He.
    + cbn [OverlayElement.get_bounds OverlayElement.x OverlayElement.y
           OverlayElement.width OverlayElement.height].
      pose proof (_clear_region_fields s ex ey ew eh) as K.
      destruct (_clear_region s ex ey ew eh). cbn [fst elements] in *.
      subst. apply dom_delete_L.
    + apply not_elem_of_dom in He. symmetry. apply difference_disjoint_L.
      apply disjoint_singleton_r. exact He.
  - unfold hide_element.
    destruct (elements s.1 !! name) as [[en ex ey ew eh ev] |] eqn:He; [| reflexivity].
    cbn [OverlayElement.get_bounds OverlayElement.x OverlayElement.y
         OverlayElement.width OverlayElement.height].
    rewrite _clear_region_fields. destruct s as [self hp].
    cbn [set_element fst elements] in *.
    rewrite dom_insert_L. apply elem_of_dom_2 in He.
    apply subseteq_union_1_L, singleton_subseteq_l. exact He.
  - unfold show_element.
    destruct (elements s.1 !! name) as [e |] eqn:He; [| reflexivity].
    destruct s as [self hp]. cbn [set_element fst elements] in *.
    rewrite dom_insert_L. apply elem_of_dom_2 in He.
    apply subseteq_union_1_L, singleton_subseteq_l. exact He.
  - destruct (clear_dirty_regions_fields s) as (E & _). rewrite E. reflexivity.
  - destruct s. reflexivity.
  - reflexivity.
Qed.

End overlay_properties.

(** ** The FPV overlay *)

Module fpv_facts.
Import Binary64 Binary64_facts Py Py_facts PyOps.
Import numpy OverlayHelper overlay_view overlay_facts overlay_pixel_facts.
Import FPVOverlay overlay_scenarios hud_scenarios.
Local Open Scope Z_scope.

Lemma inherited_id s : inherited (fun b => b) s = s.
Proof. destruct s as [[b cx cy] hp]. reflexivity. Qed.

Lemma as_helper_inherited f s : as_helper (inherited f s) = f (as_helper s).
Proof.
  unfold inherited. destruct (f (as_helper s)) as [b h]. reflexivity.
Qed.

Lemma inherited_center f s :
  center_x (inherited f s).1 = center_x s.1 /\ center_y (inherited f s).1 = center_y s.1.
Proof.
  unfold inherited. destruct (f (as_helper s)) as [b h]. auto.
Qed.

Lemma fpv_4x4_well_formed : well_formed (as_helper fpv_4x4).
Proof. exact helper_4x4_well_formed. Qed.

(** a quotient by a cell count *)
Lemma float_div_int_pos x n :
  0 < n <= 2 ^ 53 ->
  exists c, (0 < c)%Q /\ float_div_int x n = Ok (round_to_float (x / c)).
Proof.
  intros B. unfold float_div_int.
  destruct (float_of_int_exact n ltac:(lia)) as [E1 E2].
  rewrite E1. cbn [bind]. unfold float_truediv.
  assert (Pc : (0 < rnd (inject_Z n))%Q).
  { rewrite E2. change 0%Q with (inject_Z 0). rewrite <- Zlt_Qlt. lia. }
  exists (rnd (inject_Z n)). split; [exact Pc |].
  destruct (Qeq_bool (rnd (inject_Z n)) 0) eqn:Q0; [| reflexivity].
  apply Qeq_bool_iff in Q0. lra.
Qed.

(** rounding keeps the order of a comparison with a threshold *)
Lemma round_to_float_gt_mono q1 q2 y :
  (0 <= q1)%Q -> (q1 <= q2)%Q ->
  pyfloat_gt (round_to_float q1) y = true -> pyfloat_gt (round_to_float q2) y = true.
Proof.
  intros H0 H. pose proof (rnd_le q1 q2 H0 H) as L.
  pose proof (rnd_nonneg q1 H0) as N1.
  unfold round_to_float. cbv zeta.
  destruct (overflows (rnd q2)) eqn:O2.
  - intros _. cbn [pyfloat_gt].
    assert (K : Qle_bool 0 (rnd q2) = true) by (apply Qle_bool_iff; lra).
    rewrite K. reflexivity.
  - assert (O1 : overflows (rnd q1) = false).
    { unfold overflows in *.
      destruct (Qle_bool (pow2 emax) (Qabs (rnd q1))) eqn:B; [| reflexivity].
      apply Qle_bool_iff in B. rewrite Qabs_pos in B by exact N1.
      assert (K : Qle_bool (pow2 emax) (Qabs (rnd q2)) = true).
      { apply Qle_bool_iff. rewrite Qabs_pos by lra. lra. }
      congruence. }
    rewrite O1. cbn [pyfloat_gt]. rewrite !float_gt_true. lra.
Qed.

End fpv_facts.

Module fpv_properties.
Import Binary64 Binary64_facts Py Py_facts PyOps.
Import numpy OverlayHelper overlay_view overlay_facts overlay_pixel_facts.
Import FPVOverlay fpv_facts overlay_scenarios hud_scenarios.
Local Open Scope Z_scope.

(** X15.  Without OpenCV the crosshair is two filled bars that start at the
    centre pixel, a vertical one of [thickness] columns and a horizontal
    one of [thickness] rows, each reaching [size // 2] to either side (and
    of length [thickness] when [size] is 0 or 1); the two elements
    ["crosshair_v"] and ["crosshair_h"] are registered and two updates are
    counted. *)
Theorem crosshair_without_cv2 s size color t :
  well_formed (as_helper s) ->
  0 <= center_x s.1 -> 0 <= center_y s.1 -> 0 <= size -> 0 <= t ->
  let half := size / 2 in
  let len := if half =? 0 then t else 2 * half in
  let s' := add_crosshair None s size color t in
  (forall i j,
     canvas_pixel (as_helper s') i j
     = (fun p => if in_box (center_x s.1, center_y s.1 - half, t, len) i j
                    || in_box (center_x s.1 - half, center_y s.1, len, t) i j
                 then as_pixel color else p)
       <$> canvas_pixel (as_helper s) i j)
  /\ dom (elements (helper s'.1))
     = {["crosshair_h"]} ∪ ({["crosshair_v"]} ∪ dom (elements (helper s.1)))
  /\ _update_count (helper s'.1) = _update_count (helper s.1) + 2.
Proof.
  intros Hwf Hcx Hcy Hsz Ht. cbv zeta.
  pose proof (Z.div_pos size 2 Hsz ltac:(lia)) as Hh.
  set (half := size / 2) in *.
  unfold add_crosshair. cbv zeta. fold half.
  set (s1 := inherited _ s).
  assert (E1 : as_helper s1
               = add_rectangle (as_helper s) "crosshair_v" (center_x s.1)
                   (center_y s.1 - half) t (if half =? 0 then t else 2 * half)
                   color true 2).
  { unfold s1. rewrite as_helper_inherited. cbn [add_line]. unfold int_or.
    f_equal; try lia.
    - replace (center_x s.1 - center_x s.1) with 0 by lia. reflexivity.
    - replace (center_y s.1 + half - (center_y s.1 - half)) with (2 * half) by lia.
      rewrite Z.abs_eq by lia. destruct (Z.eqb_spec half 0), (Z.eqb_spec (2 * half) 0);
        try reflexivity; lia. }
  assert (C1 : center_x s1.1 = center_x s.1 /\ center_y s1.1 = center_y s.1)
    by apply inherited_center.
  destruct C1 as [Cx Cy]. rewrite Cx, Cy.
  set (s2 := inherited _ s1).
  assert (E2 : as_helper s2
               = add_rectangle (as_helper s1) "crosshair_h" (center_x s.1 - half)
                   (center_y s.1) (if half =? 0 then t else 2 * half) t
                   color true 2).
  { unfold s2. rewrite as_helper_inherited. cbn [add_line]. unfold int_or.
    f_equal; try lia.
    - replace (center_x s.1 + half - (center_x s.1 - half)) with (2 * half) by lia.
      rewrite Z.abs_eq by lia. destruct (Z.eqb_spec half 0), (Z.eqb_spec (2 * half) 0);
        try reflexivity; lia.
    - replace (center_y s.1 - center_y s.1) with 0 by lia. reflexivity. }
  assert (W1 : well_formed (as_helper s1))
    by (rewrite E1; apply add_rectangle_well_formed, Hwf).
  assert (Hlen : half <= (if half =? 0 then t else 2 * half))
    by (destruct (Z.eqb_spec half 0); lia).
  set (len := if half =? 0 then t else 2 * half) in *.
  change (helper s2.1) with (as_helper s2).1. change (helper s.1) with (as_helper s).1.
  rewrite E2.
  destruct (add_rectangle_fields (as_helper s1) "crosshair_h" (center_x s.1 - half)
              (center_y s.1) len t color true 2) as (Eh & Uh & _).
  destruct (add_rectangle_fields (as_helper s) "crosshair_v" (center_x s.1)
              (center_y s.1 - half) t len color true 2) as (Ev & Uv & _).
  rewrite <- E1 in Ev, Uv.
  split; [| split].
  - intros i j. rewrite add_rectangle_filled_in_box by (try assumption; lia).
    rewrite E1, add_rectangle_filled_in_box by (try assumption; lia).
    rewrite option_fmap_fmap.
    destruct (canvas_pixel (as_helper s) i j); [| reflexivity].
    cbn [fmap option_fmap option_map].
    destruct (in_box (center_x s.1, center_y s.1 - half, t, len) i j),
             (in_box (center_x s.1 - half, center_y s.1, len, t) i j); reflexivity.
  - rewrite Eh, dom_insert_L, Ev, dom_insert_L. reflexivity.
  - rewrite Uh, Uv. lia.
Qed.

Lemma crosshair_without_cv2_witness :
  let s' := add_crosshair None fpv_4x4 2 red 1 in
  (forall i j,
     canvas_pixel (as_helper s') i j
     = (fun p => if in_box (2, 2 - 2 / 2, 1, if 2 / 2 =? 0 then 1 else 2 * (2 / 2)) i j
                    || in_box (2 - 2 / 2, 2, if 2 / 2 =? 0 then 1 else 2 * (2 / 2), 1) i j
                 then as_pixel red else p)
       <$> canvas_pixel (as_helper fpv_4x4) i j)
  /\ dom (elements (helper s'.1))
     = {["crosshair_h"]} ∪ ({["crosshair_v"]} ∪ dom (elements (helper fpv_4x4.1)))
  /\ _update_count (helper s'.1) = _update_count (helper fpv_4x4.1) + 2.
Proof.
  exact (crosshair_without_cv2 fpv_4x4 2 red 1 fpv_4x4_well_formed
           ltac:(cbn; lia) ltac:(cbn; lia) ltac:(lia) ltac:(lia)).
Defined.

(** X16.  Without OpenCV the texts of the display are skipped:
    [update_signal] and [update_flight_mode] return the overlay as it was,
    and so does [update_battery] for a positive cell count.  With a cell
    count of 0 [update_battery] raises [ZeroDivisionError], with OpenCV or
    without. *)
Theorem text_updates_without_cv2 s :
  (forall rssi x y, update_signal None s rssi x y = s)
  /\ (forall mode x y, update_flight_mode None s mode x y = s)
  /\ (forall voltage cell_count x y,
        0 < cell_count <= 2 ^ 53 ->
        update_battery None s voltage cell_count x y = Ok s)
  /\ (forall cv2 voltage x y,
        update_battery cv2 s voltage 0 x y = Raise ZeroDivisionError).
Proof.
  split; [| split; [| split]].
  - intros. unfold update_signal. cbv zeta. apply inherited_id.
  - intros. unfold update_flight_mode. cbv zeta. apply inherited_id.
  - intros voltage cell_count x y B. unfold update_battery.
    destruct (float_div_int_pos voltage cell_count B) as (c & _ & E).
    rewrite E. cbn [bind]. cbv zeta. rewrite inherited_id. reflexivity.
  - intros. reflexivity.
Qed.

Lemma text_updates_without_cv2_witness :
  update_battery None fpv_4x4 (111 # 10) 3 10 30 = Ok fpv_4x4.
Proof.
  exact (proj1 (proj2 (proj2 (text_updates_without_cv2 fpv_4x4)))
           (111 # 10)%Q 3 10 30 ltac:(lia)).
Defined.

(** X17.  For a positive cell count, a voltage that is not lower is never
    shown in a worse colour: the code red, yellow, green of [update_battery]
    is monotone in the voltage, through the rounding of the division. *)
Theorem battery_colour_monotone cv2 s v1 v2 cell_count x y :
  0 < cell_count <= 2 ^ 53 -> (0 <= v1)%Q -> (v1 <= v2)%Q ->
  exists per_cell1 per_cell2,
    float_div_int v1 cell_count = Ok per_cell1
    /\ float_div_int v2 cell_count = Ok per_cell2
    /\ update_battery cv2 s v1 cell_count x y
       = Ok (inherited (fun b =>
               update_text cv2 b "battery" x y ("BAT: " +:+ format_f 1 v1 +:+ "V")
                 (battery_color per_cell1) (literal (6 # 10)) 2 None) s)
    /\ update_battery cv2 s v2 cell_count x y
       = Ok (inherited (fun b =>
               update_text cv2 b "battery" x y ("BAT: " +:+ format_f 1 v2 +:+ "V")
                 (battery_color per_cell2) (literal (6 # 10)) 2 None) s)
    /\ battery_level (battery_color per_cell1) <= battery_level (battery_color per_cell2).
Proof.
  intros B H0 H. unfold update_battery.
  destruct (float_div_int_pos v1 cell_count B) as (c & Pc & E1).
  unfold float_div_int in *.
  destruct (float_of_int_exact cell_count ltac:(lia)) as [Ec _].
  rewrite Ec in *. cbn [bind] in *. unfold float_truediv in *.
  destruct (Qeq_bool (rnd (inject_Z cell_count)) 0); [discriminate |].
  injection E1 as E1.
  set (d := rnd (inject_Z cell_count)) in *.
  assert (Pd : (0 < d)%Q).
  { unfold d. destruct (float_of_int_exact cell_count ltac:(lia)) as [_ E2].
    rewrite E2. change 0%Q with (inject_Z 0). rewrite <- Zlt_Qlt. lia. }
  assert (D0 : (0 <= v1 / d)%Q) by (apply Qle_shift_div_l; lra).
  assert (D : (v1 / d <= v2 / d)%Q).
  { apply Qmult_le_compat_r; [exact H |]. apply Qlt_le_weak, Qinv_lt_0_compat, Pd. }
  pose proof (round_to_float_gt_mono _ _ (literal (37 # 10)) D0 D) as G.
  pose proof (round_to_float_gt_mono _ _ (literal (35 # 10)) D0 D) as Y.
  eexists _, _. do 4 (split; [reflexivity |]).
  unfold battery_color.
  destruct (pyfloat_gt (round_to_float (v1 / d)) (literal (37 # 10))).
  - rewrite G by reflexivity. reflexivity.
  - destruct (pyfloat_gt (round_to_float (v1 / d)) (literal (35 # 10))).
    + rewrite Y by reflexivity.
      destruct (pyfloat_gt (round_to_float (v2 / d)) (literal (37 # 10)));
        vm_compute; discriminate.
    + destruct (pyfloat_gt (round_to_float (v2 / d)) (literal (37 # 10)));
        [vm_compute; discriminate |].
      destruct (pyfloat_gt (round_to_float (v2 / d)) (literal (35 # 10)));
        vm_compute; discriminate.
Qed.

Lemma battery_colour_monotone_witness :
  exists per_cell1 per_cell2,
    float_div_int (21 # 2) 3 = Ok per_cell1
    /\ float_div_int (12 # 1) 3 = Ok per_cell2
    /\ update_battery None fpv_4x4 (21 # 2) 3 10 30
       = Ok (inherited (fun b =>
               update_text None b "battery" 10 30
                 ("BAT: " +:+ format_f 1 (21 # 2) +:+ "V")
                 (battery_color per_cell1) (literal (6 # 10)) 2 None) fpv_4x4)
    /\ update_battery None fpv_4x4 (12 # 1) 3 10 30
       = Ok (inherited (fun b =>
               update_text None b "battery" 10 30
                 ("BAT: " +:+ format_f 1 (12 # 1) +:+ "V")
                 (battery_color per_cell2) (literal (6 # 10)) 2 None) fpv_4x4)
    /\ battery_level (battery_color per_cell1) <= battery_level (battery_color per_cell2).
Proof.
  exact (battery_colour_monotone None fpv_4x4 (21 # 2) (12 # 1) 3 10 30
           ltac:(lia) ltac:(unfold Qle; cbn; lia) ltac:(unfold Qle; cbn; lia)).
Defined.

End fpv_properties.


(** ** The controller and the transitions *)

Module float_facts.
Import Binary64 Binary64_facts Py Py_facts.
Local Open Scope Q_scope.







End float_facts.

Module script_facts.
Import Binary64 Binary64_facts Py Py_facts PyOps crop_stages crop_facts calculator_facts.
Import float_facts script.
Local Open Scope Q_scope.









End script_facts.

Module controller_facts.
Import Binary64 Binary64_facts Py Py_facts PyOps crop_stages crop_facts calculator_facts.
Import float_facts script script_facts.
Local Open Scope Q_scope.



End controller_facts.

Module controller_facts2.
Import Binary64 Binary64_facts Py Py_facts PyOps crop_stages crop_facts calculator_facts.
Import float_facts script script_facts controller_facts ePTZController controller_view.
Local Open Scope Q_scope.







End controller_facts2.

Module robust_facts.
Import Binary64 Binary64_facts Py Py_facts PyOps crop_stages crop_facts calculator_facts.
Import float_facts script script_facts controller_facts.
Local Open Scope Q_scope.







End robust_facts.

Module interpolation_facts.
Import Binary64 Binary64_facts Py Py_facts PyOps crop_stages crop_facts calculator_facts.
Import float_facts script script_facts controller_facts robust_facts.
Local Open Scope Q_scope.











End interpolation_facts.

Module robust_calculators.
Import Binary64 Binary64_facts Py Py_facts PyOps crop_stages crop_facts calculator_facts.
Import float_facts script script_facts controller_facts robust_facts interpolation_facts.
Local Open Scope Q_scope.







End robust_calculators.

Module transition_facts.
Import Binary64 Binary64_facts Py Py_facts PyOps crop_stages crop_facts calculator_facts.
Import float_facts script script_facts controller_facts ePTZController controller_view.
Import controller_facts2 robust_facts interpolation_facts robust_calculators transition_view.
Local Open Scope Q_scope.





Lemma in_limits_near self : in_limits self -> near_limits self.
Proof. unfold in_limits, near_limits. intros (Z & X & Y). repeat split; lra. Qed.






End transition_facts.

Module controller_properties.
Import Binary64 Binary64_facts Py Py_facts PyOps crop_stages crop_facts calculator_facts.
Import float_facts script script_facts controller_facts ePTZController controller_view.
Import controller_facts2 robust_facts interpolation_facts robust_calculators.
Import transition_view transition_facts eptz_recording_script eptz_scenarios.
Local Open Scope Q_scope.













End controller_properties.
